(** * A shallow embedding of the RAG backend (utils.ts, gemini.ts, vectorDB.ts,
      index.ts) and the properties its specification states about it.

    The program is asynchronous TypeScript.  Its own logic is embedded as
    functions in a state-and-exception monad; everything it reaches outside
    the process (HTTP fetch and HTML parsing, the Gemini text and embedding
    models, the Chroma index, the CSV file, [uuidv4], [JSON.parse]) is a field
    of a [World] record, so every theorem holds for every behaviour of those
    services.  Requests are logged in the store in the order they are sent;
    [console.error] is not modelled.  An [async] function that runs beside
    others (the callbacks given to [Promise.all]) is embedded with its
    suspensions: it runs from one [await] to the next, and which of the
    suspended functions continues next is decided by the world as well, so
    that every theorem holds for every order in which responses arrive.

    The file has two parts: the definitions (the embedding, the vocabulary of
    the statements, concrete worlds), then the properties. *)

From Stdlib Require Import String Ascii DecimalString.
From Stdlib Require Import List NArith ZArith Arith Bool Lia.
From Stdlib Require DecimalNat.
Import ListNotations.
Local Open Scope list_scope.
Set Warnings "-register-all".

(* ====================================================================== *)
(** ** JavaScript strings and values *)
(* ====================================================================== *)

Module Js.

(** A JavaScript string is a sequence of UTF-16 code units; [s.length] is
    the length of that sequence. *)
Definition str : Type := list N.

(** ASCII literals. *)
Definition js (s : string) : str := map N_of_ascii (list_ascii_of_string s).
Arguments js s%_string.

Definition nl : str := [10%N].
Definition dq : str := [34%N].

(** Numbers are IEEE doubles in the source.  The program only stores and
    forwards them (embedding vectors, [topK]), so they are carried as
    integers and no arithmetic on them is modelled. *)
Definition number : Type := Z.

Fixpoint str_eqb (a b : str) : bool :=
  match a, b with
  | [], [] => true
  | x :: a', y :: b' => N.eqb x y && str_eqb a' b'
  | _, _ => false
  end.

(** The class [\s] of regular expressions, which is also the set of code
    units removed by [String.prototype.trim]. *)
Definition isWhiteSpace (c : N) : bool :=
  ((9 <=? c) && (c <=? 13) || (c =? 32) || (c =? 160) || (c =? 5760)
   || (8192 <=? c) && (c <=? 8202) || (c =? 8232) || (c =? 8233)
   || (c =? 8239) || (c =? 8287) || (c =? 12288) || (c =? 65279))%N.

Fixpoint trimStart (s : str) : str :=
  match s with
  | c :: s' => if isWhiteSpace c then trimStart s' else s
  | [] => []
  end.

Definition trimEnd (s : str) : str := rev (trimStart (rev s)).

(** [s.trim()] *)
Definition trim (s : str) : str := trimEnd (trimStart s).

Fixpoint startsWith (p s : str) : bool :=
  match p, s with
  | [], _ => true
  | x :: p', y :: s' => N.eqb x y && startsWith p' s'
  | _ :: _, [] => false
  end.

(** [s.replace(/pat/g, rep)] for a literal, non-empty [pat]: matches are
    found left to right and do not overlap.  [skip] counts the code units
    of the current match still to be dropped. *)
Fixpoint replaceAll_from (skip : nat) (pat rep s : str) : str :=
  match s with
  | [] => []
  | c :: s' =>
      match skip with
      | S k => replaceAll_from k pat rep s'
      | O =>
          if startsWith pat s
          then rep ++ replaceAll_from (length pat - 1) pat rep s'
          else c :: replaceAll_from 0 pat rep s'
      end
  end.

Definition replaceAll (pat rep s : str) : str := replaceAll_from 0 pat rep s.

(** [parts.join(sep)] *)
Fixpoint join (sep : str) (parts : list str) : str :=
  match parts with
  | [] => []
  | [x] => x
  | x :: rest => x ++ sep ++ join sep rest
  end.

(** [`${n}`] for an array index [n]. *)
Definition ofNat (n : nat) : str := js (NilEmpty.string_of_uint (Nat.to_uint n)).

(** Truthiness of a string: the empty string is falsy. *)
Definition truthy (s : str) : bool :=
  match s with [] => false | _ :: _ => true end.

(** [s || d] *)
Definition orElse (s d : str) : str := if truthy s then s else d.

(** What [JSON.parse] produces.  An object lists its own properties, each
    name once. *)
Inductive value : Type :=
| JNull
| JBool (b : bool)
| JNum (n : number)
| JStr (s : str)
| JArr (items : list value)
| JObj (fields : list (str * value)).

(** [o[key]] on an object; [None] is [undefined]. *)
Fixpoint prop (key : str) (fields : list (str * value)) : option value :=
  match fields with
  | [] => None
  | (k, v) :: rest => if str_eqb k key then Some v else prop key rest
  end.

(** What this program throws or sees thrown. *)
Inductive error : Type :=
| Error (message : str)          (* [new Error(message)], made by this code *)
| TypeError (message : str)      (* raised by the runtime on [undefined.x] or [null.x] *)
| SyntaxError                    (* raised by [JSON.parse] *)
| AxiosError                     (* axios.get or cheerio.load failed *)
| GeminiError                    (* rejection coming from the Gemini SDK *)
| ChromaError (message : str)    (* rejection coming from the Chroma client *)
| StreamError (message : str)    (* 'error' event of the csv-parser stream *)
| HeadersSentError.              (* raised by Node: ERR_HTTP_HEADERS_SENT *)

End Js.
Export Js.

(* ====================================================================== *)
(** ** Data of the program *)
(* ====================================================================== *)

Module Data.

(** utils.ts, [interface Article]: one row of the CSV file. *)
Record Article : Type := { Source : str; URL : str }.

(** utils.ts, [interface ProcessedArticle]; [None] is [null]. *)
Record ProcessedArticle : Type :=
  { art_title : str; art_content : str; art_url : str; art_time : option str }.

(** vectorDB.ts, [interface DocumentMetadata]: string keys, values that are
    strings, numbers or booleans; kept in the order the object literal
    lists them. *)
Inductive MetaValue : Type :=
| MStr (s : str)
| MNum (n : number)
| MBool (b : bool).

Definition DocumentMetadata : Type := list (str * MetaValue).

(** vectorDB.ts, [interface DocumentData]; [None] is an absent optional
    field. *)
Record DocumentData : Type :=
  { doc_id : str;
    doc_content : str;
    doc_embedding : option (list number);
    doc_metadata : option DocumentMetadata }.

(** One element of the array [initDBfromCSV] returns:
    [{ success: true, url }] or [{ success: false, url, error }]. *)
Record IngestResult : Type :=
  { res_success : bool; res_url : str; res_error : option error }.

(** The tags selected by ["h1, h2, h3, p, ul, li"]. *)
Inductive Tag : Type := H1 | H2 | H3 | P | UL | LI.

(** What cheerio reads off a loaded page: the text of the first [h1], the
    text of the first [time] (empty when there is none), and tag and text of
    every selected element of the body in document order. *)
Record Page : Type :=
  { page_h1 : str; page_time : str; page_body : list (Tag * str) }.

(** The handle [getOrCreateCollection] resolves to. *)
Record Collection : Type := { col_name : str; col_metadata : DocumentMetadata }.

(** The answer of [collection.query]; [None] is [null] or [undefined]; a
    present field is an array of rows, the row of the i-th query embedding
    at index i. *)
Record QueryResponse : Type :=
  { q_ids : option (list (list str));
    q_documents : option (list (list (option str)));
    q_embeddings : option (list (list (list number)));
    q_metadatas : option (list (list (option DocumentMetadata))) }.

(** Requests that leave the process. *)
Inductive Call : Type :=
| AxiosGet (url : str)
| ReadCSV (fileName : str)
| GenerateContentStream (model prompt : str)
| EmbedContent (model text : str)
| GetOrCreateCollection (name : str) (metadata : DocumentMetadata)
| CountCollections
| CollectionAdd (collection : str) (ids : list str)
    (embeddings : list (list number)) (metadatas : list DocumentMetadata)
    (documents : list str)
| CollectionQuery (collection : str) (queryEmbeddings : list (list number))
    (nResults : number) (include : list str)
| CollectionUpdate (collection : str) (ids : list str)
    (embeddings : list (option (list number)))
    (metadatas : list DocumentMetadata) (documents : list str)
| CollectionDelete (collection : str) (ids : list str).

(** A reference model of the index service: named collections of rows. *)
Record Row : Type :=
  { row_id : str;
    row_embedding : option (list number);
    row_metadata : DocumentMetadata;
    row_document : str }.

Record ChromaCollection : Type :=
  { c_name : str; c_metadata : DocumentMetadata; c_rows : list Row }.

(** The services outside the process.  Each field answers one kind of
    request; [None] (or [inl]) is a rejected promise or a thrown exception.
    The first argument of a service is the list of the requests sent before,
    oldest first: a service may answer the same request differently at
    different times. *)
Record World : Type :=
  { (* axios.get followed by cheerio.load and the selectors *)
    axios_get : list Call -> str -> option Page;
    (* a file that can be read, piped through csv-parser with the header
       line skipped: the rows the parser emits before its 'end' event, or
       the 'error' event of the parser *)
    csv_rows : list Call -> str -> str + list Article;
    (* the text chunks the model streams, and whether the stream then
       ends normally ([true]) or fails ([false]) *)
    generateContentStream : list Call -> str -> str -> list str * bool;
    embedContent : list Call -> str -> str -> option (list number);
    (* the built-in [JSON.parse] *)
    JSON_parse : str -> option value;
    (* the value of the n-th call of uuidv4 *)
    uuidv4 : nat -> str;
    (* [Some message]: the Chroma client rejects this request *)
    chroma_fault : list Call -> Call -> option str;
    (* the neighbours the index returns for a query over given rows *)
    chroma_query : list Call -> list Row -> list (list number) -> number -> QueryResponse;
    (* the order in which awaited results arrive: of [n] promises that have
       not settled, taken in array order, whether the first is the next to
       make progress (when it is not, the question is put again for the
       [n - 1] others) *)
    first_settles : list Call -> nat -> bool }.

(** The mutable state: the field [this.collection] of the one
    [ChromaVectorDB] object, the contents of the index, the requests issued
    so far (oldest first) and the number of uuids drawn. *)
Record Store : Type :=
  { collection : option Collection;
    chroma : list ChromaCollection;
    calls : list Call;
    uuids : nat }.

Definition set_collection (c : option Collection) (s : Store) : Store :=
  {| collection := c; chroma := chroma s; calls := calls s; uuids := uuids s |}.

Definition set_chroma (db : list ChromaCollection) (s : Store) : Store :=
  {| collection := collection s; chroma := db; calls := calls s; uuids := uuids s |}.

Definition log_call (c : Call) (s : Store) : Store :=
  {| collection := collection s; chroma := chroma s;
     calls := calls s ++ [c]; uuids := uuids s |}.

Definition next_uuid (s : Store) : Store :=
  {| collection := collection s; chroma := chroma s;
     calls := calls s; uuids := S (uuids s) |}.

(** The state of a fresh process: [private collection: Collection | null = null]. *)
Definition fresh (db : list ChromaCollection) : Store :=
  {| collection := None; chroma := db; calls := []; uuids := 0 |}.

End Data.
Export Data.

(* ====================================================================== *)
(** ** Promises: state and exceptions *)
(* ====================================================================== *)

Module Async.

Inductive Res (A : Type) : Type :=
| Ok (a : A)
| Throw (e : error).
Arguments Ok {A} a.
Arguments Throw {A} e.

(** An [async] function body: it runs on the store and either returns or
    throws. *)
Definition M (A : Type) : Type := Store -> Res A * Store.

Definition ret {A} (a : A) : M A := fun s => (Ok a, s).

Definition throw {A} (e : error) : M A := fun s => (Throw e, s).

Definition bind {A B} (m : M A) (k : A -> M B) : M B :=
  fun s =>
    match m s with
    | (Ok a, s') => k a s'
    | (Throw e, s') => (Throw e, s')
    end.

(** [try { m } catch (error) { h error }] *)
Definition try_catch {A} (m : M A) (h : error -> M A) : M A :=
  fun s =>
    match m s with
    | (Ok a, s') => (Ok a, s')
    | (Throw e, s') => h e s'
    end.

(** A request to a service: the service answers knowing the requests sent
    before, and the request is logged. *)
Definition request {A} (c : Call) (answer : list Call -> Res A) : M A :=
  fun s => (answer (calls s), log_call c s).

Definition get_store : M Store := fun s => (Ok s, s).

Definition update_store (f : Store -> Store) : M unit := fun s => (Ok tt, f s).

(** *** Functions that run beside others *)

(** An [async] function that has been called: it has settled, or it is
    suspended at an [await].  [pending] is the number of promises it waits
    for there: 1 at a plain [await], the elements that have not settled at
    [await Promise.all(...)].  [resume] runs the function, once something
    it waits for has arrived, up to its next suspension. *)
Inductive Task (A : Type) : Type :=
| Return (r : Res A)
| Await (pending : nat) (resume : Store -> Task A * Store).
Arguments Return {A} r.
Arguments Await {A} pending resume.

(** The body of an [async] function that can run beside others: calling
    the function runs it up to its first suspension. *)
Record Async (A : Type) : Type := async { start : Store -> Task A * Store }.
Arguments async {A} start.
Arguments start {A} a s.

(** A suspended function resumed again and again until it settles, while
    nothing else runs. *)
Fixpoint finish {A} (t : Task A) (s : Store) : Res A * Store :=
  match t with
  | Return r => (r, s)
  | Await _ resume => let (t', s') := resume s in finish t' s'
  end.

(** An [async] function called and awaited while nothing else runs.  An
    [Async] applied to a store stands for this run. *)
Definition alone {A} (m : Async A) (s : Store) : Res A * Store :=
  let (t, s') := start m s in finish t s'.
Coercion alone : Async >-> Funclass.

(** [return a] and [throw e] *)
Definition retA {A} (a : A) : Async A := async (fun s => (Return (Ok a), s)).

Definition throwA {A} (e : error) : Async A := async (fun s => (Return (Throw e), s)).

(** Statements that do not wait for anything. *)
Definition sync {A} (m : M A) : Async A :=
  async (fun s => let (r, s') := m s in (Return r, s')).

(** [await f(...)] for a function [f] that sends what it sends when it is
    called: the requests go out now, the caller is suspended, and it gets
    the result of [f] when it is resumed. *)
Definition await {A} (m : M A) : Async A :=
  async (fun s => let (r, s') := m s in (Await 1 (fun t => (Return r, t)), s')).

(** The rest [k] of a function that is waiting for [t]. *)
Fixpoint then_ {A B} (t : Task A) (k : A -> Async B) (s : Store) : Task B * Store :=
  match t with
  | Return (Ok a) => start (k a) s
  | Return (Throw e) => (Return (Throw e), s)
  | Await n resume => (Await n (fun s' => let (t', s'') := resume s' in then_ t' k s''), s)
  end.

(** [const x = await m; k] *)
Definition bindA {A B} (m : Async A) (k : A -> Async B) : Async B :=
  async (fun s => let (t, s') := start m s in then_ t k s').

Fixpoint catching {A} (t : Task A) (h : error -> Async A) (s : Store) : Task A * Store :=
  match t with
  | Return (Ok a) => (Return (Ok a), s)
  | Return (Throw e) => start (h e) s
  | Await n resume => (Await n (fun s' => let (t', s'') := resume s' in catching t' h s''), s)
  end.

(** [try { m } catch (error) { h error }] around code that suspends. *)
Definition try_catchA {A} (m : Async A) (h : error -> Async A) : Async A :=
  async (fun s => let (t, s') := start m s in catching t h s').

(** *** [Promise.all] *)

Section WithWorld.
Variable W : World.

(** The result of [Promise.all] from the results of its elements: the array
    of the values in the order of the elements, or a rejection when some
    element rejected.  The rejection reported is that of the first rejected
    element of the array; where this program gives [Promise.all] promises
    that can reject, they all reject with the same error. *)
Definition cons_results {A} (r : Res A) (rs : Res (list A)) : Res (list A) :=
  match r, rs with
  | Ok a, Ok l => Ok (a :: l)
  | Throw e, _ => Throw e
  | Ok _, Throw e => Throw e
  end.

(** The promise [p] beside the promises after it in the array, already
    merged into [rest].  While both have something pending, the world says
    which makes progress next.  The merged promise settles when all its
    elements have settled: [Promise.all] rejects as soon as one element
    rejects, and the other elements go on while nothing waits for them any
    more; no element that this program gives to [Promise.all] does anything
    after it has got its response but compute its value, so the two
    readings send the same requests and settle with the same result. *)
Fixpoint alongside {A} (p : Task A) : Task (list A) -> Task (list A) :=
  fix with_rest (rest : Task (list A)) : Task (list A) :=
    match p, rest with
    | Return r, Return rs => Return (cons_results r rs)
    | Return r, Await n others =>
        Await n (fun s => let (rest', s') := others s in (with_rest rest', s'))
    | Await _ resume, Return rs =>
        Await 1 (fun s => let (p', s') := resume s in (alongside p' (Return rs), s'))
    | Await _ resume, Await n others =>
        Await (S n)
          (fun s =>
             if first_settles W (calls s) (S n)
             then let (p', s') := resume s in (alongside p' rest, s')
             else let (rest', s') := others s in (with_rest rest', s'))
    end.

(** [Promise.all(promises)] *)
Definition merged {A} (promises : list (Task A)) : Task (list A) :=
  fold_right alongside (Return (Ok [])) promises.

(** [array.map(async ...)]: every callback is called, in array order, and
    runs up to its first suspension before the next one is called. *)
Fixpoint call_each {A} (callbacks : list (Async A)) (s : Store) : list (Task A) * Store :=
  match callbacks with
  | [] => ([], s)
  | callback :: rest =>
      let (p, s1) := start callback s in
      let (ps, s2) := call_each rest s1 in
      (p :: ps, s2)
  end.

(** [await Promise.all(array.map(async ...))] *)
Definition promise_all {A} (callbacks : list (Async A)) : Async (list A) :=
  async (fun s => let (ps, s') := call_each callbacks s in (merged ps, s')).

End WithWorld.

(** *** Runs *)

(** How many promises a function is waiting for. *)
Definition pending {A} (t : Task A) : nat :=
  match t with
  | Return _ => 0
  | Await n _ => n
  end.

(** One step of a run: something the function waits for arrives. *)
Definition resume {A} (c : Task A * Store) : Task A * Store :=
  match fst c with
  | Return _ => c
  | Await _ continue => continue (snd c)
  end.

(** The function and the store after the call and [n] steps. *)
Definition config {A} (m : Async A) (s : Store) (n : nat) : Task A * Store :=
  Nat.iter n resume (start m s).

End Async.
Export Async.

Declare Scope async_scope.
Delimit Scope async_scope with async.
Notation "x <- m ;; k" := (bind m (fun x => k))
  (at level 61, m at next level, right associativity) : async_scope.
Notation "m ;;; k" := (bind m (fun _ => k))
  (at level 61, right associativity) : async_scope.
Notation "x <~ m ;; k" := (bindA m (fun x => k))
  (at level 61, m at next level, right associativity) : async_scope.
Local Open Scope async_scope.

(* ====================================================================== *)
(** ** gemini.ts *)
(* ====================================================================== *)

Module Gemini.
Section WithWorld.
Variable W : World.

(** The message of the error thrown on a failed generation (Ukrainian, 32
    code units). *)
Definition generation_failed : error :=
  Error [1053; 1077; 32; 1074; 1076; 1072; 1083; 1086; 1089; 1103; 32; 1079;
         1075; 1077; 1085; 1077; 1088; 1091; 1074; 1072; 1090; 1080; 32;
         1074; 1110; 1076; 1087; 1086; 1074; 1110; 1076; 1100]%N.

(** [generateStreamingResponse]: an async generator.  Its run is the list
    of chunks it yields followed by a normal end ([None]) or by the error
    it throws. *)
Definition generateStreamingResponse (prompt : str) : M (list str * option error) :=
  request (GenerateContentStream (js "gemini-1.5-flash") prompt)
    (fun before =>
       let (chunks, ended) := generateContentStream W before (js "gemini-1.5-flash") prompt in
       Ok (chunks, if ended then None else Some generation_failed)).

(** [generateResponse]: concatenates the chunks; an error of the stream
    propagates. *)
Definition generateResponse (prompt : str) : M str :=
  run <- generateStreamingResponse prompt ;;
  match snd run with
  | None => ret (concat (fst run))
  | Some e => throw e
  end.

End WithWorld.
End Gemini.
Export Gemini.

(* ====================================================================== *)
(** ** utils.ts *)
(* ====================================================================== *)

Module Utils.
Section WithWorld.
Variable W : World.

(** [readCSV].  The promise resolves at the 'end' event of the parser and
    rejects at its 'error' event, the only one that has a listener.  When
    the file cannot be read, the 'error' event of the read stream, which
    [pipe] does not pass on, is thrown by Node outside every [try] and the
    process exits: the worlds of this embedding hold files that can be
    read. *)
Definition readCSV (fileName : str) : M (list Article) :=
  request (ReadCSV (js "./data/" ++ fileName))
    (fun before =>
       match csv_rows W before fileName with
       | inr rows => Ok rows
       | inl message => Throw (StreamError message)
       end).

(** The elements collected by the [each] callback: trimmed text, elements
    with empty text dropped. *)
Definition elements (page : Page) : list (Tag * str) :=
  filter (fun el => truthy (snd el))
         (map (fun el => (fst el, trim (snd el))) (page_body page)).

(** One round of [elements.forEach]: the state is [markdownLines] and
    [inList]. *)
Definition push_line (st : list str * bool) (element : Tag * str) : list str * bool :=
  let (markdownLines, inList) := st in
  let text := snd element in
  match fst element with
  | H1 => (markdownLines ++ [js "# " ++ text], inList)
  | H2 => (markdownLines ++ [js "## " ++ text], inList)
  | H3 => (markdownLines ++ [js "### " ++ text], inList)
  | P => (markdownLines ++ [text], inList)
  | UL => if inList then (markdownLines, inList) else (markdownLines ++ [[]], true)
  | LI => if inList then (markdownLines ++ [js "- " ++ text], inList)
          else (markdownLines, inList)
  end.

(** The body of the [try] block of [scrapeArticle] once the page is loaded. *)
Definition scrape_page (url : str) (page : Page) : ProcessedArticle :=
  let title := trim (page_h1 page) in
  let time := let t := trim (page_time page) in
              if truthy t then Some t else None in
  let markdownLines := fst (fold_left push_line (elements page) ([], false)) in
  let markdownLines :=
    if truthy title then (js "# " ++ title) :: markdownLines else markdownLines in
  let markdownLines :=
    match time with
    | Some t => (js "**Publication date:** " ++ t) :: markdownLines
    | None => markdownLines
    end in
  {| art_title := title;
     art_content := join (nl ++ nl) markdownLines;
     art_url := url;
     art_time := time |}.

(** What the [catch] block of [scrapeArticle] returns. *)
Definition sentinel (url : str) : ProcessedArticle :=
  {| art_title := js "Can not load information";
     art_content := [];
     art_url := url;
     art_time := None |}.

(** [scrapeArticle] *)
Definition scrapeArticle (url : str) : M ProcessedArticle :=
  try_catch
    (request (AxiosGet url)
       (fun before =>
          match axios_get W before url with
          | Some page => Ok (scrape_page url page)
          | None => Throw AxiosError
          end))
    (fun _ => ret (sentinel url)).

Definition MAX_RETRIES : nat := 1.
Definition MIN_CONTENT_LENGTH : nat := 100.

Definition cluster_tpl_0 : str :=
  nl ++ js "  You are given a set of rules and an article's text scraped from a news website in markdown." ++ nl ++
  js "  Strictly follow these rules to structure the article into logical blocks:" ++ nl ++
  nl ++ js "  1. Analyze hierarchical structure." ++ nl ++
  js "  2. Split the text into logical blocks:" ++ nl ++
  js "     - " ++ dq ++ js "heading" ++ dq ++ js ": heading text" ++ nl ++
  js "     - " ++ dq ++ js "content" ++ dq ++ js ": 3-5 related paragraphs" ++ nl ++
  js "  3. If no headings found:" ++ nl ++
  js "     - Create logical sections by topic" ++ nl ++
  js "  4. Preserve all key information" ++ nl ++
  js "  5. Remove non-content elements (ads, comments, navigation, everything not related to the article)" ++ nl ++
  nl ++ js "  Return a JSON array:" ++ nl ++
  js "  [{" ++ nl ++
  js "    " ++ dq ++ js "heading" ++ dq ++ js ": " ++ dq ++ js "Section Title" ++ dq ++ js "," ++ nl ++
  js "    " ++ dq ++ js "content" ++ dq ++ js ": " ++ dq ++ js "Text content..." ++ dq ++ nl ++
  js "  },...]" ++ nl ++
  nl ++ js "  Article text: " ++ dq.

Definition cluster_tpl_1 : str := dq ++ nl ++ js "  ".

(** The prompt of [getClusteredText]; double quotes of the article become
    single quotes. *)
Definition cluster_prompt (text : str) : str :=
  let sanitizedText := replaceAll dq (js "'") text in
  cluster_tpl_0 ++ sanitizedText ++ cluster_tpl_1.

(** The callback of [parsed.every]: reading [b.heading] throws on [null];
    on any other value that is not an object the properties are
    [undefined]. *)
Definition block_ok (b : value) : Res bool :=
  match b with
  | JNull => Throw (TypeError (js "Cannot read properties of null (reading 'heading')"))
  | JObj fields =>
      Ok (match prop (js "heading") fields with
          | Some (JStr _) =>
              match prop (js "content") fields with
              | Some (JStr c) => MIN_CONTENT_LENGTH <=? length c
              | _ => false
              end
          | _ => false
          end)
  | _ => Ok false
  end.

(** [parsed.every(b => ...)]: stops at the first [false]. *)
Fixpoint every_block_ok (parsed : list value) : Res bool :=
  match parsed with
  | [] => Ok true
  | b :: rest =>
      match block_ok b with
      | Ok true => every_block_ok rest
      | Ok false => Ok false
      | Throw e => Throw e
      end
  end.

(** The body of the [try] block of one attempt. *)
Definition attempt (prompt : str) : M (list value) :=
  answer <- generateResponse W prompt ;;
  let answer := trim (replaceAll (js "```") [] (replaceAll (js "```json") [] answer)) in
  match JSON_parse W answer with
  | None => throw SyntaxError
  | Some (JArr parsed) =>
      match every_block_ok parsed with
      | Ok true => ret parsed
      | Ok false => throw (Error (js "Invalid structure"))
      | Throw e => throw e
      end
  | Some _ => throw (Error (js "Invalid structure"))
  end.

(** The [for] loop of [getClusteredText] with [attempts] rounds left. *)
Fixpoint retry (attempts : nat) (prompt : str) : M (list value) :=
  match attempts with
  | O => ret []
  | S n => try_catch (attempt prompt) (fun _ => retry n prompt)
  end.

(** [getClusteredText] *)
Definition getClusteredText (text : str) : M (list value) :=
  retry MAX_RETRIES (cluster_prompt text).

(** [chunk.heading] and [chunk.content] of a block of the returned array
    (the array is cast to [TextBlock[]]; on a validated block both are
    strings). *)
Definition heading (chunk : value) : str :=
  match chunk with
  | JObj fields => match prop (js "heading") fields with Some (JStr s) => s | _ => [] end
  | _ => []
  end.

Definition content (chunk : value) : str :=
  match chunk with
  | JObj fields => match prop (js "content") fields with Some (JStr s) => s | _ => [] end
  | _ => []
  end.

End WithWorld.
End Utils.
Export Utils.

(* ====================================================================== *)
(** ** vectorDB.ts: class ChromaVectorDB *)
(* ====================================================================== *)

Module ChromaVectorDB.
Section WithWorld.
Variable W : World.
(** [this.csvFile], set by the constructor. *)
Variable csvFile : str.

(** *** The Chroma client *)

(** A request to the index: it is logged, and it is rejected when the world
    says so and otherwise applied to the contents of the index. *)
Definition chroma_request {A} (c : Call)
    (apply : list Call -> list ChromaCollection -> A * list ChromaCollection) : M A :=
  fun s =>
    match chroma_fault W (calls s) c with
    | Some message => (Throw (ChromaError message), log_call c s)
    | None =>
        let (a, db) := apply (calls s) (chroma s) in
        (Ok a, set_chroma db (log_call c s))
    end.

Definition named (name : str) (c : ChromaCollection) : bool := str_eqb (c_name c) name.

(** What the index does on create-or-get: the collection of that name when
    there is one, else a new, empty collection. *)
Definition get_or_create (name : str) (metadata : DocumentMetadata)
    (db : list ChromaCollection) : Collection * list ChromaCollection :=
  match find (named name) db with
  | Some c => ({| col_name := c_name c; col_metadata := c_metadata c |}, db)
  | None =>
      ({| col_name := name; col_metadata := metadata |},
       db ++ [{| c_name := name; c_metadata := metadata; c_rows := [] |}])
  end.

(** [client.getOrCreateCollection({ name, metadata })] *)
Definition getOrCreateCollection (name : str) (metadata : DocumentMetadata) : M Collection :=
  chroma_request (GetOrCreateCollection name metadata)
    (fun _ => get_or_create name metadata).

(** [client.countCollections()] *)
Definition countCollections : M nat :=
  chroma_request CountCollections (fun _ db => (length db, db)).

Definition on_collection (name : str) (f : list Row -> list Row)
    (db : list ChromaCollection) : list ChromaCollection :=
  map (fun c => if named name c
                then {| c_name := c_name c; c_metadata := c_metadata c;
                        c_rows := f (c_rows c) |}
                else c) db.

Fixpoint rows_of (ids : list str) (embeddings : list (option (list number)))
    (metadatas : list DocumentMetadata) (documents : list str) : list Row :=
  match ids, embeddings, metadatas, documents with
  | i :: ids', e :: embeddings', m :: metadatas', d :: documents' =>
      {| row_id := i; row_embedding := e; row_metadata := m; row_document := d |}
      :: rows_of ids' embeddings' metadatas' documents'
  | _, _, _, _ => []
  end.

(** [collection.add({ ids, embeddings, metadatas, documents })] *)
Definition collection_add (c : Collection) (ids : list str)
    (embeddings : list (list number)) (metadatas : list DocumentMetadata)
    (documents : list str) : M unit :=
  chroma_request (CollectionAdd (col_name c) ids embeddings metadatas documents)
    (fun _ db =>
       (tt, on_collection (col_name c)
              (fun rows => rows ++ rows_of ids (map Some embeddings) metadatas documents)
              db)).

Definition rows_in (name : str) (db : list ChromaCollection) : list Row :=
  match find (named name) db with
  | Some c => c_rows c
  | None => []
  end.

(** [collection.query({ queryEmbeddings, nResults, include })] *)
Definition collection_query (c : Collection) (queryEmbeddings : list (list number))
    (nResults : number) (include : list str) : M QueryResponse :=
  chroma_request (CollectionQuery (col_name c) queryEmbeddings nResults include)
    (fun before db =>
       (chroma_query W before (rows_in (col_name c) db) queryEmbeddings nResults, db)).

Definition has_id (ids : list str) (r : Row) : bool := existsb (str_eqb (row_id r)) ids.

(** [collection.update({ ids, embeddings, metadatas, documents })] *)
Definition collection_update (c : Collection) (ids : list str)
    (embeddings : list (option (list number))) (metadatas : list DocumentMetadata)
    (documents : list str) : M unit :=
  chroma_request (CollectionUpdate (col_name c) ids embeddings metadatas documents)
    (fun _ db =>
       (tt, on_collection (col_name c)
              (fun rows =>
                 map (fun r =>
                        match find (fun n => str_eqb (row_id n) (row_id r))
                                   (rows_of ids embeddings metadatas documents) with
                        | Some n => n
                        | None => r
                        end) rows)
              db)).

(** [collection.delete({ ids })] *)
Definition collection_delete (c : Collection) (ids : list str) : M unit :=
  chroma_request (CollectionDelete (col_name c) ids)
    (fun _ db =>
       (tt, on_collection (col_name c) (filter (fun r => negb (has_id ids r))) db)).

(** *** The methods of the class *)

Definition not_initialized : error := Error (js "Collection is not initialized").

(** [generateEmbedding] *)
Definition generateEmbedding (text : str) : M (list number) :=
  try_catch
    (request (EmbedContent (js "embedding-001") text)
       (fun before =>
          match embedContent W before (js "embedding-001") text with
          | Some values => Ok values
          | None => Throw GeminiError
          end))
    (fun _ => throw (Error (js "Failed to generate embedding"))).

(** An element of [docsWithEmbeddings]: [{ ...doc, embedding }] with the
    embedding now present. *)
Record EmbeddedDocument : Type :=
  { ed_doc : DocumentData; ed_embedding : list number }.

(** The callback of [documents.map] in [addDocuments]:
    [doc.embedding || await this.generateEmbedding(doc.content)]
    (an array, even an empty one, is truthy). *)
Definition with_embedding (doc : DocumentData) : Async EmbeddedDocument :=
  match doc_embedding doc with
  | Some e => retA {| ed_doc := doc; ed_embedding := e |}
  | None =>
      e <~ await (generateEmbedding (doc_content doc)) ;;
      retA {| ed_doc := doc; ed_embedding := e |}
  end.

(** [metadata || {}] *)
Definition metadata_or_empty (m : option DocumentMetadata) : DocumentMetadata :=
  match m with Some m => m | None => [] end.

(** [addDocuments] *)
Definition addDocuments (documents : list DocumentData) : Async unit :=
  this <~ sync get_store ;;
  match collection this with
  | None => throwA not_initialized
  | Some c =>
      try_catchA
        (docsWithEmbeddings <~ promise_all W (map with_embedding documents) ;;
         await
           (collection_add c
              (map (fun d => doc_id (ed_doc d)) docsWithEmbeddings)
              (map ed_embedding docsWithEmbeddings)
              (map (fun d => metadata_or_empty (doc_metadata (ed_doc d))) docsWithEmbeddings)
              (map (fun d => doc_content (ed_doc d)) docsWithEmbeddings)))
        (fun e => throwA e)
  end.

(** [rows[0]]; reading a property of the missing row throws. *)
Definition first_row {A} (rows : list (list A)) : Res (list A) :=
  match rows with
  | row :: _ => Ok row
  | [] => Throw (TypeError (js "Cannot read properties of undefined"))
  end.

(** The callback of [results.ids[0].map((id, index) => ...)].  Ids are
    strings, so [id.toString()] is [id]; [null] and [undefined] are both
    [None]. *)
Definition reconstitute_one (documents : list (list (option str)))
    (embeddings : list (list (list number)))
    (metadatas : list (list (option DocumentMetadata)))
    (id : str) (index : nat) : Res DocumentData :=
  match first_row documents with
  | Throw e => Throw e
  | Ok document_row =>
      match first_row embeddings with
      | Throw e => Throw e
      | Ok embedding_row =>
          match first_row metadatas with
          | Throw e => Throw e
          | Ok metadata_row =>
              Ok {| doc_id := id;
                    doc_content :=
                      match nth_error document_row index with
                      | Some (Some text) => orElse text []
                      | _ => []
                      end;
                    doc_embedding := nth_error embedding_row index;
                    doc_metadata :=
                      match nth_error metadata_row index with
                      | Some m => m
                      | None => None
                      end |}
          end
      end
  end.

Fixpoint reconstitute_from (documents : list (list (option str)))
    (embeddings : list (list (list number)))
    (metadatas : list (list (option DocumentMetadata)))
    (index : nat) (ids : list str) : Res (list DocumentData) :=
  match ids with
  | [] => Ok []
  | id :: rest =>
      match reconstitute_one documents embeddings metadatas id index with
      | Throw e => Throw e
      | Ok d =>
          match reconstitute_from documents embeddings metadatas (S index) rest with
          | Throw e => Throw e
          | Ok ds => Ok (d :: ds)
          end
      end
  end.

(** The part of [queryDocuments] after the answer arrived: the shape check
    and the [map] over [results.ids[0]]. *)
Definition reconstitute (results : QueryResponse) : Res (list DocumentData) :=
  match q_ids results, q_documents results, q_embeddings results, q_metadatas results with
  | Some ids, Some documents, Some embeddings, Some metadatas =>
      match first_row ids with
      | Throw e => Throw e
      | Ok id_row => reconstitute_from documents embeddings metadatas 0 id_row
      end
  | _, _, _, _ => Throw (Error (js "Invalid response structure"))
  end.

Definition lift {A} (r : Res A) : M A := fun s => (r, s).

Definition query_include : list str := [js "documents"; js "metadatas"; js "embeddings"].

(** [queryDocuments(queryText, topK = 5)]; [None] is an omitted argument. *)
Definition queryDocuments (queryText : str) (topK : option number) : M (list DocumentData) :=
  let topK := match topK with Some k => k | None => 5%Z end in
  this <- get_store ;;
  match collection this with
  | None => throw not_initialized
  | Some c =>
      try_catch
        (queryEmbedding <- generateEmbedding queryText ;;
         results <- collection_query c [queryEmbedding] topK query_include ;;
         lift (reconstitute results))
        (fun e => throw e)
  end.

(** [updateDocument] *)
Definition updateDocument (document : DocumentData) : M unit :=
  this <- get_store ;;
  match collection this with
  | None => throw not_initialized
  | Some c =>
      try_catch
        (collection_update c [doc_id document] [doc_embedding document]
           [metadata_or_empty (doc_metadata document)] [doc_content document])
        (fun e => throw e)
  end.

(** [deleteDocuments] *)
Definition deleteDocuments (ids : list str) : M unit :=
  this <- get_store ;;
  match collection this with
  | None => throw not_initialized
  | Some c => try_catch (collection_delete c ids) (fun e => throw e)
  end.

(** *** Ingestion *)

Definition BATCH_SIZE : nat := 5.

Definition chunk_tpl_0 : str := nl ++ js "                #".
Definition chunk_tpl_1 : str := nl ++ nl ++ js "                ".
Definition chunk_tpl_2 : str := nl ++ nl ++ js "                Publication date:".
Definition chunk_tpl_3 : str := nl ++ js "                url:".
Definition chunk_tpl_4 : str := nl ++ nl ++ js "                ".

(** [`${time}`] for [time: string | null]. *)
Definition show_time (time : option str) : str :=
  match time with Some t => t | None => js "null" end.

(** [time || "unknown"] *)
Definition time_or_unknown (time : option str) : str :=
  match time with Some t => orElse t (js "unknown") | None => js "unknown" end.

(** The object built by the callback of [splitedArticle.map] for the chunk
    at [index], given the uuid drawn for it. *)
Definition chunk_document (article : Article) (scrapedArticle : ProcessedArticle)
    (uuid : str) (chunk : value) (index : nat) : DocumentData :=
  {| doc_id := URL article ++ js "-" ++ uuid ++ js "-" ++ ofNat index;
     doc_content :=
       chunk_tpl_0 ++ heading chunk ++ chunk_tpl_1 ++ content chunk ++ chunk_tpl_2
       ++ show_time (art_time scrapedArticle) ++ chunk_tpl_3 ++ URL article ++ chunk_tpl_4;
     doc_embedding := None;
     doc_metadata :=
       Some [ (js "category", MStr (js "article"));
              (js "title", MStr (art_title scrapedArticle));
              (js "chunkTitle", MStr (heading chunk));
              (js "time", MStr (time_or_unknown (art_time scrapedArticle)));
              (js "url", MStr (URL article));
              (js "source", MStr (Source article)) ] |}.

(** [uuidv4()] *)
Definition draw_uuid : M str := fun s => (Ok (uuidv4 W (uuids s)), next_uuid s).

(** [splitedArticle.map((chunk, index) => ...)], from [index] on. *)
Fixpoint chunks_from (article : Article) (scrapedArticle : ProcessedArticle)
    (index : nat) (splitedArticle : list value) : M (list DocumentData) :=
  match splitedArticle with
  | [] => ret []
  | chunk :: rest =>
      uuid <- draw_uuid ;;
      docs <- chunks_from article scrapedArticle (S index) rest ;;
      ret (chunk_document article scrapedArticle uuid chunk index :: docs)
  end.

(** The [try] block of the callback of [batch.map].  [scrapeArticle] sends
    its one request when it is called, and so does [getClusteredText],
    which makes a single attempt. *)
Definition ingest_article (article : Article) : Async unit :=
  scrapedArticle <~ await (scrapeArticle W (URL article)) ;;
  splitedArticle <~ await (getClusteredText W (art_content scrapedArticle)) ;;
  chunks <~ sync (chunks_from article scrapedArticle 0 splitedArticle) ;;
  addDocuments chunks.

(** The callback of [batch.map]: [try { ...; return { success: true, url } }
    catch (error) { return { success: false, url, error } }]. *)
Definition ingest_one (article : Article) : Async IngestResult :=
  try_catchA
    (_ <~ ingest_article article ;;
     retA {| res_success := true; res_url := URL article; res_error := None |})
    (fun e => retA {| res_success := false; res_url := URL article; res_error := Some e |}).

(** [dataCSV.slice(i, i + BATCH_SIZE)] *)
Definition slice {A} (l : list A) (i j : nat) : list A := firstn (j - i) (skipn i l).

(** The [for] loop of [initDBfromCSV], entered at index [i] with [results]
    collected so far.  [i] grows by [BATCH_SIZE] in every round, so
    [length dataCSV] rounds of [fuel] are never used up. *)
Fixpoint ingest_loop (fuel : nat) (dataCSV : list Article) (i : nat)
    (results : list IngestResult) : Async (list IngestResult) :=
  match fuel with
  | O => retA results
  | S fuel' =>
      if i <? length dataCSV then
        let batch := slice dataCSV i (i + BATCH_SIZE) in
        batchResults <~ promise_all W (map ingest_one batch) ;;
        ingest_loop fuel' dataCSV (i + BATCH_SIZE) (results ++ batchResults)
      else retA results
  end.

(** [initDBfromCSV] *)
Definition initDBfromCSV (csvFile : str) : Async (list IngestResult) :=
  try_catchA
    (dataCSV <~ await (readCSV W csvFile) ;;
     ingest_loop (length dataCSV) dataCSV 0 [])
    (fun e => throwA e).

Definition cosine_space : DocumentMetadata := [(js "hnsw:space", MStr (js "cosine"))].

(** [initializeCollection] *)
Definition initializeCollection (collectionName : str) : Async unit :=
  try_catchA
    (c <~ await (getOrCreateCollection collectionName cosine_space) ;;
     _ <~ sync (update_store (set_collection (Some c))) ;;
     collectionCount <~ await countCollections ;;
     if collectionCount =? 0
     then (_ <~ initDBfromCSV csvFile ;; retA tt)
     else retA tt)
    (fun e => throwA e).

End WithWorld.
End ChromaVectorDB.
Export ChromaVectorDB.

(* ====================================================================== *)
(** ** index.ts: the HTTP handlers *)
(* ====================================================================== *)

Module Server.
Section WithWorld.
Variable W : World.

Definition csvFile : str := js "articles_dataset.csv".

(** The longest prefix matched by [[^\s]*]. *)
Fixpoint non_space_prefix (s : str) : str :=
  match s with
  | c :: s' => if isWhiteSpace c then [] else c :: non_space_prefix s'
  | [] => []
  end.

(** A match of [https?:\/\/[^\s]+] that starts at the first code unit of
    [s]. *)
Definition url_at (s : str) : option str :=
  let after (scheme : str) : option str :=
    if startsWith scheme s
    then match non_space_prefix (skipn (length scheme) s) with
         | [] => None
         | rest => Some (scheme ++ rest)
         end
    else None in
  match after (js "https://") with
  | Some m => Some m
  | None => after (js "http://")
  end.

(** All matches, left to right; the search resumes after each match.
    [skip] counts the code units of the current match still to be passed. *)
Fixpoint scan_urls (skip : nat) (s : str) : list str :=
  match s with
  | [] => []
  | _ :: s' =>
      match skip with
      | S k => scan_urls k s'
      | O =>
          match url_at s with
          | Some m => m :: scan_urls (length m - 1) s'
          | None => scan_urls 0 s'
          end
      end
  end.

(** [query.match(/(https?:\/\/[^\s]+)/g)]: [null] when nothing matches. *)
Definition match_urlRegex (query : str) : option (list str) :=
  match scan_urls 0 query with
  | [] => None
  | urls => Some urls
  end.

Definition context_separator : str := nl ++ nl ++ nl.

(** The first half of the [try] block of the [/agent] handler: the value of
    [context] when the prompt is built. *)
Definition answerContext (query : str) : M str :=
  match match_urlRegex query with
  | Some (url :: _) =>
      articleData <- scrapeArticle W url ;;
      ret (art_content articleData)
  | _ =>
      chunks <- queryDocuments W query (Some 7%Z) ;;
      ret (join context_separator (map doc_content chunks))
  end.

Definition agent_tpl_0 : str :=
  nl ++ js "        You are a virtual assistant specializing in providing accurate and useful answers." ++ nl ++
  js "        Analyze the context and provide a comprehensive response." ++ nl ++
  js "        If the context does not contain enough information to provide a complete answer, state that you do not know." ++ nl ++
  nl ++ js "        Question: " ++ dq.

Definition agent_tpl_1 : str := dq ++ nl ++ nl ++ js "        Context:" ++ dq.

Definition agent_tpl_2 : str := dq ++ nl ++ js "      ".

Definition agent_prompt (query context : str) : str :=
  agent_tpl_0 ++ query ++ agent_tpl_1 ++ context ++ agent_tpl_2.

(** What the client of [/agent] is sent when the handler returns: the
    chunks written and the end of the response, or, from the [catch] block,
    status 500 with the body "Error generating text"; [written] are the
    chunks written before, and there are none whenever this response can
    be sent. *)
Inductive AgentReply : Type :=
| Streamed (chunks : list str)
| Failed (written : list str).

(** The [catch] block of the [/agent] handler, entered after the chunks
    [written]: the first [res.write] has sent the headers, and then
    [res.status(500).json(...)] throws; the handler's promise rejects and
    the response, with the chunks written so far, is never ended. *)
Definition agent_catch (written : list str) : M AgentReply :=
  match written with
  | [] => ret (Failed [])
  | _ :: _ => throw HeadersSentError
  end.

(** [app.post('/agent', ...)].  The [try] block builds the context and
    writes the chunks of the stream as they come, then ends the response;
    the [catch] block is entered when the retrieval throws, with nothing
    written, or when the stream throws, after the chunks it has yielded
    were written. *)
Definition agent (query : str) : M AgentReply :=
  fun s =>
    match (context <- answerContext query ;;
           generateStreamingResponse W (agent_prompt query context)) s with
    | (Ok (chunks, None), s') => (Ok (Streamed chunks), s')
    | (Ok (chunks, Some _), s') => agent_catch chunks s'
    | (Throw _, s') => agent_catch [] s'
    end.

(** [app.post('/search', ...)]: the chunks sent, or nothing at all when the
    query failed (the error is only logged). *)
Definition search (query : str) : M (option (list DocumentData)) :=
  try_catch
    (chunks <- queryDocuments W query None ;; ret (Some chunks))
    (fun _ => ret None).

(** [main], up to the call of [app.listen]. *)
Definition main : Async unit := initializeCollection W csvFile (js "test_rag").

End WithWorld.
End Server.
Export Server.

(* ====================================================================== *)
(** ** Vocabulary of the statements *)
(* ====================================================================== *)

Module Vocabulary.

(** A block as the chunk extractor promises it: an object whose [heading]
    and [content] are strings, the content of at least 100 code units. *)
Definition valid_block (b : value) : Prop :=
  exists fields h c,
    b = JObj fields
    /\ prop (js "heading") fields = Some (JStr h)
    /\ prop (js "content") fields = Some (JStr c)
    /\ 100 <= length c.

(** The request one attempt of [getClusteredText] sends. *)
Definition generation (prompt : str) : Call :=
  GenerateContentStream (js "gemini-1.5-flash") prompt.

(** The outcome of one attempt made after the requests [before]: the answer
    of the model, fences stripped, parsed and validated. *)
Definition attempt_outcome (W : World) (before : list Call) (prompt : str)
    : Res (list value) :=
  match generateContentStream W before (js "gemini-1.5-flash") prompt with
  | (_, false) => Throw generation_failed
  | (chunks, true) =>
      let answer :=
        trim (replaceAll (js "```") [] (replaceAll (js "```json") [] (concat chunks))) in
      match JSON_parse W answer with
      | None => Throw SyntaxError
      | Some (JArr parsed) =>
          match every_block_ok parsed with
          | Ok true => Ok parsed
          | Ok false => Throw (Error (js "Invalid structure"))
          | Throw e => Throw e
          end
      | Some _ => Throw (Error (js "Invalid structure"))
      end
  end.

(** Logging several requests, oldest first. *)
Definition log_calls (cs : list Call) (s : Store) : Store :=
  fold_left (fun s c => log_call c s) cs s.

Definition embedding_request (text : str) : Call := EmbedContent (js "embedding-001") text.

Definition embedding_failed : error := Error (js "Failed to generate embedding").

(** The documents of a batch that come without an embedding. *)
Definition lacks_embedding (doc : DocumentData) : bool :=
  match doc_embedding doc with Some _ => false | None => true end.

(** The embedding a document ends up with when its turn comes after the
    requests [before]. *)
Definition embedded (W : World) (before : list Call) (doc : DocumentData)
    : option EmbeddedDocument :=
  match doc_embedding doc with
  | Some e => Some {| ed_doc := doc; ed_embedding := e |}
  | None =>
      match embedContent W before (js "embedding-001") (doc_content doc) with
      | Some e => Some {| ed_doc := doc; ed_embedding := e |}
      | None => None
      end
  end.

(** The embedding requests of a batch. *)
Definition embedding_requests (docs : list DocumentData) : list Call :=
  map embedding_request (map doc_content (filter lacks_embedding docs)).

(** A batch is embedded as a whole or not at all. *)
Fixpoint all_embedded (W : World) (before : list Call) (docs : list DocumentData)
    : option (list EmbeddedDocument) :=
  match docs with
  | [] => Some []
  | d :: rest =>
      match embedded W before d, all_embedded W (before ++ embedding_requests [d]) rest with
      | Some e, Some es => Some (e :: es)
      | _, _ => None
      end
  end.

(** The embedding of some document of the batch that comes without one
    cannot be computed: the request for it, sent after those for the
    documents that precede it, fails. *)
Definition embedding_fails (W : World) (before : list Call) (docs : list DocumentData) : Prop :=
  exists pre doc post,
    docs = pre ++ doc :: post
    /\ doc_embedding doc = None
    /\ embedContent W (before ++ embedding_requests pre) (js "embedding-001") (doc_content doc)
       = None.

(** The write request [addDocuments] sends for embedded documents. *)
Definition add_request (c : Collection) (eds : list EmbeddedDocument) : Call :=
  CollectionAdd (col_name c)
    (map (fun d => doc_id (ed_doc d)) eds)
    (map ed_embedding eds)
    (map (fun d => metadata_or_empty (doc_metadata (ed_doc d))) eds)
    (map (fun d => doc_content (ed_doc d)) eds).

(** The requests [queryDocuments] and [updateDocument] send to the index. *)
Definition query_request (c : Collection) (queryEmbedding : list number) (k : number) : Call :=
  CollectionQuery (col_name c) [queryEmbedding] k query_include.

Definition update_request (c : Collection) (document : DocumentData) : Call :=
  CollectionUpdate (col_name c) [doc_id document] [doc_embedding document]
    [metadata_or_empty (doc_metadata document)] [doc_content document].

(** [field[0]] of a field of the answer that is present. *)
Definition first_of {A} (field : option (list (list A))) : option (list A) :=
  match field with
  | Some (row :: _) => Some row
  | _ => None
  end.

(** The record the query contract describes for position [index] of the
    answer: the id as returned, the document text or the empty string when
    the text is [null] or missing, embedding and metadata as returned. *)
Definition record_at (document_row : list (option str))
    (embedding_row : list (list number)) (metadata_row : list (option DocumentMetadata))
    (index : nat) (id : str) : DocumentData :=
  {| doc_id := id;
     doc_content :=
       match nth_error document_row index with
       | Some (Some text) => text
       | _ => []
       end;
     doc_embedding := nth_error embedding_row index;
     doc_metadata :=
       match nth_error metadata_row index with
       | Some (Some m) => Some m
       | _ => None
       end |}.

(** The records for a row of ids whose first element sits at [index]. *)
Fixpoint records_from (document_row : list (option str))
    (embedding_row : list (list number)) (metadata_row : list (option DocumentMetadata))
    (index : nat) (id_row : list str) : list DocumentData :=
  match id_row with
  | [] => []
  | id :: rest =>
      record_at document_row embedding_row metadata_row index id
      :: records_from document_row embedding_row metadata_row (S index) rest
  end.

(** The shape check of [queryDocuments]. *)
Definition shape_ok (results : QueryResponse) : Prop :=
  q_ids results <> None /\ q_documents results <> None
  /\ q_embeddings results <> None /\ q_metadatas results <> None.

(** The two requests [initializeCollection] sends when it does not
    backfill. *)
Definition setup_request (name : str) (c : Call) : Prop :=
  c = GetOrCreateCollection name cosine_space \/ c = CountCollections.

(** What [scrapeArticle] resolves to when called after the requests
    [before]. *)
Definition scraped (W : World) (before : list Call) (url : str) : ProcessedArticle :=
  match axios_get W before url with
  | Some page => scrape_page url page
  | None => sentinel url
  end.

(** What [getClusteredText] resolves to when called after the requests
    [before]. *)
Definition blocks_of (W : World) (before : list Call) (text : str) : list value :=
  match attempt_outcome W before (cluster_prompt text) with
  | Ok blocks => blocks
  | Throw _ => []
  end.

(** The documents built for the blocks of one article when [n] uuids have
    been drawn before. *)
Fixpoint documents_from (W : World) (article : Article) (scrapedArticle : ProcessedArticle)
    (index n : nat) (blocks : list value) : list DocumentData :=
  match blocks with
  | [] => []
  | chunk :: rest =>
      chunk_document article scrapedArticle (uuidv4 W n) chunk index
      :: documents_from W article scrapedArticle (S index) (S n) rest
  end.

(** One article up to the call of [addDocuments]: the documents it passes
    and the store at that point.  Nothing on this stretch can throw. *)
Definition prepared (W : World) (article : Article) (s : Store) : list DocumentData * Store :=
  let scrapedArticle := scraped W (calls s) (URL article) in
  let blocks :=
    blocks_of W (calls s ++ [AxiosGet (URL article)]) (art_content scrapedArticle) in
  (documents_from W article scrapedArticle 0 (uuids s) blocks,
   Nat.iter (length blocks) next_uuid
     (log_call (generation (cluster_prompt (art_content scrapedArticle)))
        (log_call (AxiosGet (URL article)) s))).

(** The outcome of one article whose callback runs with nothing else in
    between: a success unless its own [addDocuments] throws, and then a
    failure that records this error. *)
Definition outcome (W : World) (article : Article) (s : Store) : IngestResult * Store :=
  let (documents, s1) := prepared W article s in
  match addDocuments W documents s1 with
  | (Ok _, s2) => ({| res_success := true; res_url := URL article; res_error := None |}, s2)
  | (Throw e, s2) =>
      ({| res_success := false; res_url := URL article; res_error := Some e |}, s2)
  end.

(** A promise that touches nothing any more: whenever it is resumed the
    store stays as it is, and it settles with [r]. *)
Inductive inert {A : Type} (r : Res A) : Task A -> Prop :=
| inert_settled : inert r (Return r)
| inert_waiting n resume :
    (forall s, snd (resume s) = s) ->
    (forall s, inert r (fst (resume s))) ->
    inert r (Await n resume).

(** A suspended function whose next resumption takes a store [s] to a
    function [t'] and a store [s'] with [P s t' s']. *)
Inductive next {A : Type} (P : Store -> Task A -> Store -> Prop) : Task A -> Prop :=
| next_intro n continue :
    (forall s, P s (fst (continue s)) (snd (continue s))) ->
    next P (Await n continue).

(** A suspended function that is resumed some times without touching the
    store, and then once with [P] as for [next]. *)
Inductive eventually {A : Type} (P : Store -> Task A -> Store -> Prop) : Task A -> Prop :=
| eventually_intro n continue :
    (forall s,
       P s (fst (continue s)) (snd (continue s))
       \/ (snd (continue s) = s /\ eventually P (fst (continue s)))) ->
    eventually P (Await n continue).

(** [P] behind [k] and behind a handler. *)
Definition behind_then {A B} (k : A -> Async B) (P : Store -> Task A -> Store -> Prop)
    : Store -> Task B -> Store -> Prop :=
  fun s t' s' => exists t1 s1, P s t1 s1 /\ then_ t1 k s1 = (t', s').

Definition behind_catch {A} (h : error -> Async A) (P : Store -> Task A -> Store -> Prop)
    : Store -> Task A -> Store -> Prop :=
  fun s t' s' => exists t1 s1, P s t1 s1 /\ catching t1 h s1 = (t', s').

(** The element at index [j] replaced. *)
Fixpoint set_nth {A} (j : nat) (x : A) (l : list A) : list A :=
  match l, j with
  | [], _ => []
  | _ :: rest, O => x :: rest
  | y :: rest, S j' => y :: set_nth j' x rest
  end.

Definition is_pending {A} (t : Task A) : bool :=
  match t with Await _ _ => true | Return _ => false end.

(** The promises of an array that have not settled. *)
Definition unsettled {A} (promises : list (Task A)) : nat :=
  length (filter is_pending promises).

(** The result of a promise that has settled. *)
Definition result_of {A} (t : Task A) : list (Res A) :=
  match t with Return r => [r] | Await _ _ => [] end.

(** *** The requests of a run *)

(** The urls fetched, in the order of the requests. *)
Definition fetches (l : list Call) : list str :=
  flat_map (fun c => match c with AxiosGet url => [url] | _ => [] end) l.

Definition is_generation (c : Call) : bool :=
  match c with GenerateContentStream _ _ => true | _ => false end.

(** The requests sent since the log was [before]. *)
Definition since (before : list Call) (s : Store) : list Call :=
  skipn (length before) (calls s).

(** *** One article beside the others *)

Definition success (a : Article) : IngestResult :=
  {| res_success := true; res_url := URL a; res_error := None |}.

Definition failure (a : Article) (e : error) : IngestResult :=
  {| res_success := false; res_url := URL a; res_error := Some e |}.

(** The outcome of the callback of article [a], from what the services
    answer to its own requests: [h1] are the requests sent before its fetch,
    [h2] those sent before its generation request, [u] is the number of
    uuids drawn before its chunks are built, [h3] are the requests sent
    before its embedding requests and [h4] those sent before its write.  It
    is a failure exactly when its own [addDocuments] throws, and it records
    that error. *)
Definition outcome_at (W : World) (col : option Collection) (a : Article)
    (h1 h2 : list Call) (u : nat) (h3 h4 : list Call) : IngestResult :=
  let page := scraped W h1 (URL a) in
  let blocks := blocks_of W h2 (art_content page) in
  let docs := documents_from W a page 0 u blocks in
  match col with
  | None => failure a not_initialized
  | Some c =>
      match all_embedded W h3 docs with
      | None => failure a embedding_failed
      | Some eds =>
          match chroma_fault W h4 (add_request c eds) with
          | Some message => failure a (ChromaError message)
          | None => success a
          end
      end
  end.

(** The requests a callback sends: a fetch, a generation request and,
    with the collection set, embedding requests and writes. *)
Definition own_request (col : option Collection) (c : Call) : Prop :=
  (exists url, c = AxiosGet url)
  \/ (exists prompt, c = generation prompt)
  \/ (col <> None
      /\ ((exists text, c = embedding_request text)
          \/ exists name ids embeddings metadatas documents,
               c = CollectionAdd name ids embeddings metadatas documents)).

(** Where the callback of an article stands: it waits for the page, for the
    answer of the model, for the embeddings or for the index, or it has
    settled; with what its outcome depends on as far as that is fixed. *)
Inductive Stage : Type :=
| Fetching (h1 : list Call)
| Generating (h1 h2 : list Call)
| Embedding (h1 h2 : list Call) (u : nat) (h3 : list Call)
| Adding (h1 h2 : list Call) (u : nat) (h3 h4 : list Call)
| Settled (h1 h2 : list Call) (u : nat) (h3 h4 : list Call).

(** In the run whose log is [l], the requests [cs] were sent one after the
    other when the log was [h]. *)
Definition sent_at (l h cs : list Call) : Prop := exists rest, l = h ++ cs ++ rest.

Definition past_fetching (st : Stage) : bool :=
  match st with Fetching _ => false | _ => true end.

Definition has_settled (st : Stage) : bool :=
  match st with Settled _ _ _ _ _ => true | _ => false end.

Section Callback.
Variable W : World.
Variable col : option Collection.
Variable a : Article.

Definition page_at (h1 : list Call) : ProcessedArticle := scraped W h1 (URL a).

Definition blocks_at (h1 h2 : list Call) : list value :=
  blocks_of W h2 (art_content (page_at h1)).

Definition docs_at (h1 h2 : list Call) (u : nat) : list DocumentData :=
  documents_from W a (page_at h1) 0 u (blocks_at h1 h2).

(** The write of [addDocuments] for embedded documents. *)
Definition write (c : Collection) (eds : list EmbeddedDocument) : M unit :=
  collection_add W c
    (map (fun d => doc_id (ed_doc d)) eds)
    (map ed_embedding eds)
    (map (fun d => metadata_or_empty (doc_metadata (ed_doc d))) eds)
    (map (fun d => doc_content (ed_doc d)) eds).

(** The two ways out of the callback of [batch.map]. *)
Definition succeed : unit -> Async IngestResult := fun _ => retA (success a).

Definition fail : error -> Async IngestResult := fun e => retA (failure a e).

(** The points [h1], [h2], [h3] and [h4] are the points of the run with
    log [l] at which the article sent its own requests: its fetch, its
    generation request, the embedding requests of its chunks and its
    write, as far as it got. *)
Definition own_requests_at (l h1 h2 : list Call) (u : nat) (h3 h4 : list Call) : Prop :=
  sent_at l h1 [AxiosGet (URL a)]
  /\ sent_at l h2 [generation (cluster_prompt (art_content (page_at h1)))]
  /\ match col with
     | None => True
     | Some c =>
         sent_at l h3 (embedding_requests (docs_at h1 h2 u))
         /\ match all_embedded W h3 (docs_at h1 h2 u) with
            | None => True
            | Some eds => sent_at l h4 [add_request c eds]
            end
     end.

(** The points a stage names are points of the run whose log is [l]. *)
Definition happened (l : list Call) (st : Stage) : Prop :=
  match st with
  | Fetching h1 => sent_at l h1 [AxiosGet (URL a)]
  | Generating h1 h2 =>
      sent_at l h1 [AxiosGet (URL a)]
      /\ sent_at l h2 [generation (cluster_prompt (art_content (page_at h1)))]
  | Embedding h1 h2 u h3 =>
      sent_at l h1 [AxiosGet (URL a)]
      /\ sent_at l h2 [generation (cluster_prompt (art_content (page_at h1)))]
      /\ sent_at l h3 (embedding_requests (docs_at h1 h2 u))
  | Adding h1 h2 u h3 h4 | Settled h1 h2 u h3 h4 => own_requests_at l h1 h2 u h3 h4
  end.

Definition settles (r : IngestResult) : Store -> Task IngestResult -> Store -> Prop :=
  fun s t' s' => s' = s /\ t' = Return (Ok r).

Definition adding (r : IngestResult) (t : Task IngestResult) : Prop := next (settles r) t.

(** What the callback does once its documents are embedded or have failed
    to be: it sends the write, or it settles with the failure. *)
Definition embedding_then (h1 h2 : list Call) (u : nat) (h3 : list Call)
    : Store -> Task IngestResult -> Store -> Prop :=
  fun s t' s' =>
    match col, all_embedded W h3 (docs_at h1 h2 u) with
    | Some c, Some eds =>
        s' = snd (write c eds s) /\ adding (outcome_at W col a h1 h2 u h3 (calls s)) t'
    | _, _ => settles (outcome_at W col a h1 h2 u h3 h3) s t' s'
    end.

Definition embedding (h1 h2 : list Call) (u : nat) (h3 : list Call)
    (t : Task IngestResult) : Prop :=
  eventually (embedding_then h1 h2 u h3) t.

(** What the callback does when the answer of the model has arrived: it
    builds its chunks and calls [addDocuments], which stops at the guard,
    or sends the embedding requests, or, without chunks, sends the write
    at once. *)
Definition generating_then (h1 h2 : list Call)
    : Store -> Task IngestResult -> Store -> Prop :=
  fun s t' s' =>
    let u := uuids s in
    let s1 := Nat.iter (length (blocks_at h1 h2)) next_uuid s in
    match col with
    | None => settles (outcome_at W col a h1 h2 u (calls s) (calls s)) s1 t' s'
    | Some c =>
        match docs_at h1 h2 u with
        | [] => embedding_then h1 h2 u (calls s) s1 t' s'
        | _ :: _ =>
            s' = log_calls (embedding_requests (docs_at h1 h2 u)) s1
            /\ embedding h1 h2 u (calls s) t'
        end
    end.

Definition generating (h1 h2 : list Call) (t : Task IngestResult) : Prop :=
  next (fun s t' s' => collection s = col -> generating_then h1 h2 s t' s') t.

(** What the callback does when the page has arrived: it sends its
    generation request. *)
Definition fetching (h1 : list Call) (t : Task IngestResult) : Prop :=
  next (fun s t' s' =>
          s' = log_call (generation (cluster_prompt (art_content (page_at h1)))) s
          /\ generating h1 (calls s) t') t.

Definition at_stage (st : Stage) (t : Task IngestResult) : Prop :=
  match st with
  | Fetching h1 => fetching h1 t
  | Generating h1 h2 => generating h1 h2 t
  | Embedding h1 h2 u h3 => embedding h1 h2 u h3 t
  | Adding h1 h2 u h3 h4 => adding (outcome_at W col a h1 h2 u h3 h4) t
  | Settled h1 h2 u h3 h4 => t = Return (Ok (outcome_at W col a h1 h2 u h3 h4))
  end.

End Callback.

(** *** The loop of [initDBfromCSV] beside its callbacks *)

Section Loop.
Variable W : World.
Variable dataCSV : list Article.

(** [initDBfromCSV] when it enters the loop at index [i]. *)
Definition loop_config (fuel i : nat) (results : list IngestResult) (s : Store)
    : Task (list IngestResult) * Store :=
  let (t, s') := start (ingest_loop W fuel dataCSV i results) s in
  catching t (fun e => throwA e) s'.

(** [initDBfromCSV] while it awaits the batch that starts at index [i],
    whose promises are [promises]. *)
Definition batch_config (fuel i : nat) (results : list IngestResult)
    (promises : list (Task IngestResult)) (s : Store) : Task (list IngestResult) * Store :=
  let (t, s') :=
    then_ (merged W promises)
      (fun batchResults =>
         ingest_loop W fuel dataCSV (i + BATCH_SIZE) (results ++ batchResults)) s in
  catching t (fun e => throwA e) s'.

End Loop.

(** *** A run of [initDBfromCSV] *)

Section Run.
Variable W : World.
Variable csvFile : str.
Variable s0 : Store.
Variable dataCSV : list Article.

(** [r] is the outcome of article [a] for the answers to its own requests
    in the run whose log is [l]. *)
Definition own_outcome (l : list Call) (a : Article) (r : IngestResult) : Prop :=
  exists h1 h2 u h3 h4,
    own_requests_at W (collection s0) a l h1 h2 u h3 h4
    /\ r = outcome_at W (collection s0) a h1 h2 u h3 h4.

(** The store in the course of the run that started in [s0]: the
    collection is as it was, the file has been read, the pages of the first
    [launched] articles have been requested, in the order of the file, and
    [generated] generation requests have been sent; there are no requests
    but those of the callbacks; nothing is written without a collection. *)
Definition progress (launched generated : nat) (s : Store) : Prop :=
  collection s = collection s0
  /\ (collection s0 = None -> chroma s = chroma s0)
  /\ exists new,
       calls s = calls s0 ++ ReadCSV (js "./data/" ++ csvFile) :: new
       /\ fetches new = map URL (firstn launched dataCSV)
       /\ length (filter is_generation new) = generated
       /\ Forall (own_request (collection s0)) new.

(** A callback of the batch: where it stands and what it is. *)
Definition stands (l : list Call) (a : Article) (sp : Stage * Task IngestResult) : Prop :=
  at_stage W (collection s0) a (fst sp) (snd sp)
  /\ happened W (collection s0) a l (fst sp).

(** The run is reading the file, or it awaits a batch, or it has returned. *)
Inductive run_state : Task (list IngestResult) * Store -> Prop :=
| run_reading : run_state (start (initDBfromCSV W csvFile) s0)
| run_batch fuel k results callbacks s :
    k * BATCH_SIZE < length dataCSV ->
    length dataCSV <= k * BATCH_SIZE + BATCH_SIZE + fuel ->
    Forall2 (own_outcome (calls s)) (firstn (k * BATCH_SIZE) dataCSV) results ->
    Forall2 (stands (calls s))
      (slice dataCSV (k * BATCH_SIZE) (k * BATCH_SIZE + BATCH_SIZE)) callbacks ->
    unsettled (map snd callbacks) <> 0 ->
    progress (k * BATCH_SIZE + BATCH_SIZE)
      (k * BATCH_SIZE + length (filter past_fetching (map fst callbacks))) s ->
    run_state (batch_config W dataCSV fuel (k * BATCH_SIZE) results (map snd callbacks) s)
| run_done results s :
    Forall2 (own_outcome (calls s)) dataCSV results ->
    progress (length dataCSV) (length dataCSV) s ->
    run_state (Return (Ok results), s).

End Run.

(** A URL-shaped string: [http://] or [https://] followed by one or more
    code units none of which is white space. *)
Definition url_shaped (u : str) : Prop :=
  exists scheme body,
    (scheme = js "http://" \/ scheme = js "https://")
    /\ u = scheme ++ body
    /\ body <> []
    /\ Forall (fun c => isWhiteSpace c = false) body.

Definition contains_url (query : str) : Prop :=
  exists pre u post, query = pre ++ u ++ post /\ url_shaped u.

(** [url] is the first URL of [query]: it is URL-shaped, it runs up to the
    next white space or the end, and no URL-shaped string starts left of
    it. *)
Definition first_url (query url : str) : Prop :=
  exists pre post,
    query = pre ++ url ++ post
    /\ url_shaped url
    /\ (post = [] \/ exists c rest, post = c :: rest /\ isWhiteSpace c = true)
    /\ forall p1 p2 u tail,
         pre = p1 ++ p2 -> p2 <> [] -> p2 ++ url ++ post = u ++ tail -> ~ url_shaped u.

End Vocabulary.
Export Vocabulary.

(* ====================================================================== *)
(** ** Vocabulary of the further properties *)
(* ====================================================================== *)

Module Further.

(** *** The markdown of a page *)

(** The lines an element contributes before any list has been opened: a
    list item contributes nothing, the first [ul] an empty line. *)
Definition line_outside_list (element : Tag * str) : list str :=
  match fst element with
  | H1 => [js "# " ++ snd element]
  | H2 => [js "## " ++ snd element]
  | H3 => [js "### " ++ snd element]
  | P => [snd element]
  | UL => [[]]
  | LI => []
  end.

(** The lines an element contributes once a list has been opened: a list
    item is a bullet, a further [ul] contributes nothing. *)
Definition line_inside_list (element : Tag * str) : list str :=
  match fst element with
  | H1 => [js "# " ++ snd element]
  | H2 => [js "## " ++ snd element]
  | H3 => [js "### " ++ snd element]
  | P => [snd element]
  | UL => []
  | LI => [js "- " ++ snd element]
  end.

Definition is_ul (element : Tag * str) : bool :=
  match fst element with UL => true | _ => false end.

(** The lines put in front of the body: the date line when there is a date,
    then the title line when there is a title. *)
Definition head_lines (page : Page) : list str :=
  (if truthy (trim (page_time page))
   then [js "**Publication date:** " ++ trim (page_time page)] else [])
  ++ (if truthy (trim (page_h1 page)) then [js "# " ++ trim (page_h1 page)] else []).

(** *** The handlers *)

(** What becomes of [/agent] for a run of the model: the chunks and the end
    of the response, the error response when the stream failed before its
    first chunk, and a rejected handler when it failed later. *)
Definition reply_of (run : list str * bool) : Res AgentReply :=
  match run with
  | (chunks, true) => Ok (Streamed chunks)
  | ([], false) => Ok (Failed [])
  | (_ :: _, false) => Throw HeadersSentError
  end.

End Further.
Export Further.

(* ====================================================================== *)
(** ** Concrete worlds and stores *)
(* ====================================================================== *)

Module Examples.

Definition article_a : Article :=
  {| Source := js "Example News"; URL := js "https://example.com/a" |}.

Definition page_a : Page :=
  {| page_h1 := js " Title ";
     page_time := js "2024-01-01";
     page_body := [(H1, js "Title"); (P, js "First paragraph."); (UL, js "one two");
                   (LI, js "one"); (LI, js "two")] |}.

(** One hundred times the letter a. *)
Definition long_content : str := repeat 97%N 100.

(** The text [[{"heading":"News","content":"aaa...a"}]] and the value
    [JSON.parse] returns for it. *)
Definition answer_text : str :=
  js "[{" ++ dq ++ js "heading" ++ dq ++ js ":" ++ dq ++ js "News" ++ dq ++ js ","
  ++ dq ++ js "content" ++ dq ++ js ":" ++ dq ++ long_content ++ dq ++ js "}]".

Definition answer_value : value :=
  JArr [JObj [(js "heading", JStr (js "News")); (js "content", JStr long_content)]].

(** [JSON.parse] on the one text these worlds ever hand to it. *)
Definition parse (text : str) : option value :=
  if str_eqb text answer_text then Some answer_value else None.

(** An answer with two hits, the second without text and metadata. *)
Definition two_hits : QueryResponse :=
  {| q_ids := Some [[js "a-1"; js "a-2"]];
     q_documents := Some [[Some (js "text one"); None]];
     q_embeddings := Some [[[1; 2]; [3; 4]]]%Z;
     q_metadatas := Some [[Some [(js "source", MStr (js "Example News"))]; None]] |}.

(** An answer whose fields are present but hold no row. *)
Definition rowless : QueryResponse :=
  {| q_ids := Some []; q_documents := Some [];
     q_embeddings := Some []; q_metadatas := Some [] |}.

(** A world in which the model answers [answer_text] and the index answers
    [two_hits], at all times, and responses arrive in the order of the
    requests; the arguments say how fetching, embedding and the index
    behave. *)
Definition world (fetch : str -> option Page) (embed : str -> option (list number))
    (fault : Call -> option str) : World :=
  {| axios_get := fun _ => fetch;
     csv_rows := fun _ _ => inr [article_a];
     generateContentStream := fun _ _ _ => ([answer_text], true);
     embedContent := fun _ _ => embed;
     JSON_parse := parse;
     uuidv4 := fun n => js "uuid-" ++ ofNat n;
     chroma_fault := fun _ => fault;
     chroma_query := fun _ _ _ _ => two_hits;
     first_settles := fun _ _ => true |}.

Definition all_well : World :=
  world (fun _ => Some page_a) (fun _ => Some [1; 2; 3]%Z) (fun _ => None).

Definition fetch_down : World :=
  world (fun _ => None) (fun _ => Some [1; 2; 3]%Z) (fun _ => None).

Definition embedding_down : World :=
  world (fun _ => Some page_a) (fun _ => None) (fun _ => None).

Definition count_down : World :=
  world (fun _ => Some page_a) (fun _ => Some [1; 2; 3]%Z)
    (fun c => match c with
              | CountCollections => Some (js "connection refused")
              | _ => None
              end).

Definition test_rag : Collection :=
  {| col_name := js "test_rag"; col_metadata := cosine_space |}.

(** The store of a process whose collection is set and still empty. *)
Definition ready : Store :=
  {| collection := Some test_rag;
     chroma := [{| c_name := js "test_rag"; c_metadata := cosine_space; c_rows := [] |}];
     calls := [];
     uuids := 0 |}.

Definition plain_document : DocumentData :=
  {| doc_id := js "a-1"; doc_content := js "text one";
     doc_embedding := None; doc_metadata := None |}.

Definition embedded_document : DocumentData :=
  {| doc_id := js "a-2"; doc_content := js "text two";
     doc_embedding := Some [3; 4]%Z; doc_metadata := None |}.

(** Six articles, so that the loop runs two batches. *)
Definition six_articles : list Article :=
  map (fun n => {| Source := js "Example News"; URL := js "https://example.com/" ++ ofNat n |})
      (seq 0 6).

(** Whether [pat] occurs in [text]. *)
Fixpoint mentions (pat text : str) : bool :=
  startsWith pat text
  || match text with
     | [] => false
     | _ :: rest => mentions pat rest
     end.

(** The file holds the six articles.  The embedding service fails for the
    chunks of the second article, whose text carries its url, and for
    nothing else.  Responses arrive out of order: of the promises that are
    pending, the first in array order makes progress when an even number of
    requests has been sent, and one of the others when not. *)
Definition one_article_fails : World :=
  {| axios_get := fun _ _ => Some page_a;
     csv_rows := fun _ _ => inr six_articles;
     generateContentStream := fun _ _ _ => ([answer_text], true);
     embedContent :=
       fun _ _ text =>
         if mentions (js "https://example.com/1") text then None else Some [1; 2; 3]%Z;
     JSON_parse := parse;
     uuidv4 := fun n => js "uuid-" ++ ofNat n;
     chroma_fault := fun _ _ => None;
     chroma_query := fun _ _ _ _ => two_hits;
     first_settles := fun before _ => Nat.even (length before) |}.

(** The kind of a request. *)
Definition kind (c : Call) : str :=
  match c with
  | AxiosGet _ => js "fetch"
  | ReadCSV _ => js "csv"
  | GenerateContentStream _ _ => js "generate"
  | EmbedContent _ _ => js "embed"
  | CollectionAdd _ _ _ _ _ => js "add"
  | _ => js "other"
  end.

End Examples.
Export Examples.

(* ====================================================================== *)
(** ** Concrete inputs of the further properties *)
(* ====================================================================== *)

Module MoreExamples.

(** A page whose list is ordered: its items are not inside a [ul]. *)
Definition ordered_list_page : Page :=
  {| page_h1 := [];
     page_time := [];
     page_body := [(H2, js "Steps"); (LI, js "first"); (LI, js "second"); (P, js "Done.")] |}.

(** A page with an unordered list, a paragraph, an item of an ordered list
    and a second unordered list. *)
Definition two_lists_page : Page :=
  {| page_h1 := [];
     page_time := [];
     page_body := [(P, js "Intro"); (UL, js "a b"); (LI, js "a"); (LI, js "b");
                   (P, js "Middle"); (LI, js "from an ordered list");
                   (UL, js "c"); (LI, js "c")] |}.

(** [all_well] with another model: what it streams, at all times, and what
    [JSON.parse] makes of a text. *)
Definition with_model (answer : list str * bool) (parse : str -> option value) : World :=
  {| axios_get := axios_get all_well;
     csv_rows := csv_rows all_well;
     generateContentStream := fun _ _ _ => answer;
     embedContent := embedContent all_well;
     JSON_parse := parse;
     uuidv4 := uuidv4 all_well;
     chroma_fault := chroma_fault all_well;
     chroma_query := chroma_query all_well;
     first_settles := first_settles all_well |}.

(** The model wraps its answer in a fence, in three chunks. *)
Definition fenced_answer : World :=
  with_model ([js "```json"; nl ++ answer_text ++ nl; js "```"], true) parse.

(** The answer holds a valid block and one whose content is too short. *)
Definition short_block : value :=
  JObj [(js "heading", JStr (js "Brief")); (js "content", JStr (js "too short"))].

Definition half_valid : World :=
  with_model ([answer_text], true)
    (fun _ => Some (JArr [JObj [(js "heading", JStr (js "News"));
                                (js "content", JStr long_content)];
                          short_block])).

(** The stream fails after the complete answer has arrived. *)
Definition stream_breaks : World := with_model ([answer_text], false) parse.

(** The store after a successful start-up on an index without collections. *)
Definition after_main : Store :=
  {| collection := Some test_rag;
     chroma := [{| c_name := js "test_rag"; c_metadata := cosine_space; c_rows := [] |}];
     calls := [GetOrCreateCollection (js "test_rag") cosine_space; CountCollections];
     uuids := 0 |}.

(** No page can be fetched, and the stream of the model fails after its
    first chunk. *)
Definition dead_link_broken_stream : World :=
  {| axios_get := axios_get fetch_down;
     csv_rows := csv_rows fetch_down;
     generateContentStream := fun _ _ _ => ([js "I do not"], false);
     embedContent := embedContent fetch_down;
     JSON_parse := parse;
     uuidv4 := uuidv4 fetch_down;
     chroma_fault := chroma_fault fetch_down;
     chroma_query := chroma_query fetch_down;
     first_settles := first_settles fetch_down |}.

(** The file holds two articles, and the embedding service refuses every
    request that reaches it after two pages have been requested. *)
Definition refuses_after_two_fetches : World :=
  {| axios_get := fun _ _ => Some page_a;
     csv_rows := fun _ _ => inr (firstn 2 six_articles);
     generateContentStream := fun _ _ _ => ([answer_text], true);
     embedContent :=
       fun before _ _ => if 2 <=? length (fetches before) then None else Some [1; 2; 3]%Z;
     JSON_parse := parse;
     uuidv4 := fun n => js "uuid-" ++ ofNat n;
     chroma_fault := fun _ _ => None;
     chroma_query := fun _ _ _ _ => two_hits;
     first_settles := fun _ _ => true |}.

End MoreExamples.
Export MoreExamples.

(* ====================================================================== *)
(** * Properties *)
(* ====================================================================== *)

(** ** Running the monad *)

(** A handler that only rethrows changes nothing. *)
Lemma try_rethrow {A} (m : M A) s : try_catch m (fun e => throw e) s = m s.
Proof. unfold try_catch, throw. destruct (m s) as [[a|e] s']; reflexivity. Qed.

Lemma Task_induction {A} (P : Task A -> Prop) :
  (forall r, P (Return r)) ->
  (forall n resume, (forall s, P (fst (resume s))) -> P (Await n resume)) ->
  forall t, P t.
Proof.
  intros HR HA. fix IH 1. intros [r|n resume]; [apply HR|].
  apply HA. intros s. apply IH.
Qed.

Lemma alone_retA {A} (a : A) s : retA a s = (Ok a, s).
Proof. reflexivity. Qed.

Lemma alone_throwA {A} e s : @throwA A e s = (Throw e, s).
Proof. reflexivity. Qed.

Lemma alone_sync {A} (m : M A) s : sync m s = m s.
Proof. unfold alone, sync. cbn [start]. now destruct (m s). Qed.

(** Awaited with nothing else running, a function is simply called. *)
Lemma alone_await {A} (m : M A) s : await m s = m s.
Proof. unfold alone, await. cbn [start]. now destruct (m s). Qed.

Lemma finish_then {A B} (k : A -> Async B) : forall (t : Task A) s,
  (let (t', s') := then_ t k s in finish t' s')
  = match finish t s with
    | (Ok a, s1) => k a s1
    | (Throw e, s1) => (Throw e, s1)
    end.
Proof.
  induction t as [[a|e]|n resume IH] using Task_induction; intros s; try reflexivity.
  cbn [then_ finish]. specialize (IH s). destruct (resume s) as [t1 s1]. apply IH.
Qed.

Lemma alone_bindA {A B} (m : Async A) (k : A -> Async B) s :
  bindA m k s = bind (alone m) (fun a => alone (k a)) s.
Proof.
  unfold alone at 1, bindA, bind. cbn [start]. unfold alone at 1.
  destruct (start m s) as [t s']. apply finish_then.
Qed.

Lemma finish_catching {A} (h : error -> Async A) : forall (t : Task A) s,
  (let (t', s') := catching t h s in finish t' s')
  = match finish t s with
    | (Ok a, s1) => (Ok a, s1)
    | (Throw e, s1) => h e s1
    end.
Proof.
  induction t as [[a|e]|n resume IH] using Task_induction; intros s; try reflexivity.
  cbn [catching finish]. specialize (IH s). destruct (resume s) as [t1 s1]. apply IH.
Qed.

Lemma alone_try_catchA {A} (m : Async A) (h : error -> Async A) s :
  try_catchA m h s = try_catch (alone m) (fun e => alone (h e)) s.
Proof.
  unfold alone at 1, try_catchA, try_catch. cbn [start]. unfold alone at 1.
  destruct (start m s) as [t s']. apply finish_catching.
Qed.

Lemma try_rethrowA {A} (m : Async A) s : try_catchA m (fun e => throwA e) s = m s.
Proof.
  rewrite alone_try_catchA. unfold try_catch. destruct (alone m s) as [[a|e] s']; reflexivity.
Qed.

(** What a function does up to a given step does not change what it
    returns in the end. *)
Lemma finish_resume {A} (c : Task A * Store) :
  finish (fst (resume c)) (snd (resume c)) = finish (fst c) (snd c).
Proof.
  destruct c as [[r|n continue] s]; [reflexivity|].
  unfold resume. cbn [fst snd finish]. now destruct (continue s).
Qed.

Lemma finish_config {A} (m : Async A) s n :
  finish (fst (config m s n)) (snd (config m s n)) = m s.
Proof.
  unfold config. induction n as [|n IH].
  - unfold alone. simpl. now destruct (start m s).
  - rewrite Nat.iter_succ. now rewrite finish_resume.
Qed.

Lemma finish_inert {A} (r : Res A) t : inert r t -> forall s, finish t s = (r, s).
Proof.
  induction 1 as [|n resume Hs _ IH]; intros s; [reflexivity|].
  cbn [finish]. specialize (Hs s). specialize (IH s).
  destruct (resume s) as [t1 s1]. cbn [fst snd] in *. now subst s1.
Qed.

Lemma alongside_eq W {A} (p : Task A) (rest : Task (list A)) :
  alongside W p rest
  = match p, rest with
    | Return r, Return rs => Return (cons_results r rs)
    | Return r, Await n others =>
        Await n (fun s => let (rest', s') := others s in (alongside W p rest', s'))
    | Await _ continue, Return rs =>
        Await 1 (fun s => let (p', s') := continue s in (alongside W p' rest, s'))
    | Await _ continue, Await n others =>
        Await (S n)
          (fun s =>
             if first_settles W (calls s) (S n)
             then let (p', s') := continue s in (alongside W p' rest, s')
             else let (rest', s') := others s in (alongside W p rest', s'))
    end.
Proof. destruct p, rest; reflexivity. Qed.

(** Promises that touch nothing any more, merged: in whatever order they
    are resumed, the merged promise touches nothing and settles with their
    results together. *)
Lemma alongside_inert W {A} (r : Res A) p :
  inert r p ->
  forall rs rest, inert rs rest -> inert (cons_results r rs) (alongside W p rest).
Proof.
  induction 1 as [|n continue Hs Hi IH]; intros rs rest Hrest.
  - induction Hrest as [|m others Hs' Hi' IH']; rewrite alongside_eq; [constructor|].
    constructor; intros s; specialize (Hs' s); specialize (IH' s);
      destruct (others s) as [rest' s']; assumption.
  - induction Hrest as [|m others Hs' Hi' IH']; rewrite alongside_eq.
    + constructor; intros s; specialize (Hs s); specialize (IH s rs (Return rs));
        destruct (continue s) as [p' s']; [assumption|].
      apply IH. constructor.
    + assert (Hrest : inert rs (Await m others)) by (constructor; assumption).
      constructor; intros s; destruct (first_settles W (calls s) (S m)).
      * specialize (Hs s). now destruct (continue s).
      * specialize (Hs' s). now destruct (others s).
      * specialize (IH s rs _ Hrest). now destruct (continue s).
      * specialize (IH' s). now destruct (others s).
Qed.

(** ** utils.ts *)

Lemma scrapeArticle_run W url s :
  scrapeArticle W url s = (Ok (scraped W (calls s) url), log_call (AxiosGet url) s).
Proof.
  unfold scrapeArticle, try_catch, request, scraped.
  destruct (axios_get W (calls s) url); reflexivity.
Qed.

(** C8. For every URL whose fetch fails (axios or the HTML parser throws),
    [scrapeArticle] returns normally, and what it returns is the sentinel
    [{ title: "Can not load information", content: "", url, time: null }];
    the error does not reach the caller. *)
Theorem scrapeArticle_failure_sentinel W url s :
  axios_get W (calls s) url = None ->
  scrapeArticle W url s =
  (Ok {| art_title := js "Can not load information";
         art_content := [];
         art_url := url;
         art_time := None |},
   log_call (AxiosGet url) s).
Proof. intros H. rewrite scrapeArticle_run. unfold scraped. rewrite H. reflexivity. Qed.

Lemma generateResponse_run W prompt s :
  generateResponse W prompt s =
  (match generateContentStream W (calls s) (js "gemini-1.5-flash") prompt with
   | (chunks, true) => Ok (concat chunks)
   | (_, false) => Throw generation_failed
   end, log_call (generation prompt) s).
Proof.
  unfold generateResponse, generateStreamingResponse, bind, request, generation.
  destruct (generateContentStream W _ _ prompt) as [chunks [|]]; reflexivity.
Qed.

Lemma attempt_run W prompt s :
  attempt W prompt s = (attempt_outcome W (calls s) prompt, log_call (generation prompt) s).
Proof.
  unfold attempt, attempt_outcome, bind. rewrite generateResponse_run.
  destruct (generateContentStream W _ _ prompt) as [chunks [|]]; [|reflexivity].
  destruct (JSON_parse W _) as [[| | | |parsed|]|]; try reflexivity.
  destruct (every_block_ok parsed) as [[|]|]; reflexivity.
Qed.

Lemma block_ok_valid b : block_ok b = Ok true -> valid_block b.
Proof.
  destruct b as [| | | | |fields]; unfold block_ok; try discriminate.
  destruct (prop (js "heading") fields) as [[| | |h| |]|] eqn:Hh; try discriminate.
  destruct (prop (js "content") fields) as [[| | |c| |]|] eqn:Hc; try discriminate.
  intros H.
  assert (Hle : (MIN_CONTENT_LENGTH <=? length c) = true) by congruence.
  exists fields, h, c. repeat split; auto.
  apply Nat.leb_le in Hle. exact Hle.
Qed.

Lemma every_block_ok_valid parsed :
  every_block_ok parsed = Ok true -> Forall valid_block parsed.
Proof.
  induction parsed as [|b rest IH]; simpl; intros H; [constructor|].
  destruct (block_ok b) as [[|]|] eqn:Hb; try discriminate.
  constructor; [apply block_ok_valid, Hb | apply IH, H].
Qed.

Lemma attempt_outcome_valid W before prompt blocks :
  attempt_outcome W before prompt = Ok blocks -> Forall valid_block blocks.
Proof.
  unfold attempt_outcome.
  destruct (generateContentStream W _ _ prompt) as [chunks [|]]; [|discriminate].
  destruct (JSON_parse W _) as [[| | | |parsed|]|]; try discriminate.
  destruct (every_block_ok parsed) as [[|]|] eqn:E; try discriminate.
  intros H. injection H as <-. apply every_block_ok_valid, E.
Qed.

(** The loop with [n] attempts: it never throws; it makes at most [n]
    attempts; what it returns is the validated array of the attempt that
    succeeded, or the empty array after [n] failed attempts. *)
Lemma retry_bounded W prompt n : forall s,
  exists blocks k,
    retry W n prompt s = (Ok blocks, Nat.iter k (log_call (generation prompt)) s)
    /\ k <= n
    /\ Forall valid_block blocks
    /\ ((exists before, attempt_outcome W before prompt = Ok blocks)
        \/ blocks = [] /\ k = n).
Proof.
  induction n as [|n IH]; intros s.
  - exists [], 0. repeat split; auto.
  - cbn [retry]. unfold try_catch. rewrite attempt_run.
    destruct (attempt_outcome W (calls s) prompt) as [blocks|e] eqn:E.
    + exists blocks, 1. repeat split; [lia| |eauto].
      eapply attempt_outcome_valid, E.
    + destruct (IH (log_call (generation prompt) s)) as (blocks & k & Hrun & Hk & Hv & Hfrom).
      exists blocks, (S k). rewrite Hrun. repeat split; auto; [|lia|].
      * f_equal. apply (Nat.iter_swap k).
      * destruct Hfrom as [Hok|[-> ->]]; auto.
Qed.

Lemma getClusteredText_run W text s :
  getClusteredText W text s =
  (Ok (blocks_of W (calls s) text), log_call (generation (cluster_prompt text)) s).
Proof.
  unfold getClusteredText, MAX_RETRIES, blocks_of. cbn [retry]. unfold try_catch.
  rewrite attempt_run.
  destruct (attempt_outcome W (calls s) (cluster_prompt text)); reflexivity.
Qed.

(** C5. [getClusteredText] never throws.  The array it returns is either the
    array parsed from the model's answer, and then every element is an object
    with a string [heading] and a string [content] of at least 100 code
    units, or it is empty because the attempt failed (generation, parsing or
    validation); with [MAX_RETRIES = 1] exactly one attempt is made. *)
Theorem getClusteredText_valid_or_empty W text s :
  exists blocks,
    getClusteredText W text s =
      (Ok blocks, log_call (generation (cluster_prompt text)) s)
    /\ MAX_RETRIES = 1
    /\ Forall valid_block blocks
    /\ (attempt_outcome W (calls s) (cluster_prompt text) = Ok blocks
        \/ blocks = []
           /\ exists e, attempt_outcome W (calls s) (cluster_prompt text) = Throw e).
Proof.
  rewrite getClusteredText_run. unfold blocks_of.
  destruct (attempt_outcome W (calls s) (cluster_prompt text)) as [blocks|e] eqn:E.
  - exists blocks. repeat split; auto. eapply attempt_outcome_valid, E.
  - exists []. repeat split; eauto.
Qed.

(** ** vectorDB.ts: requests *)

Lemma log_calls_cons c cs s : log_calls (c :: cs) s = log_calls cs (log_call c s).
Proof. reflexivity. Qed.

Lemma log_calls_app cs1 cs2 s : log_calls (cs1 ++ cs2) s = log_calls cs2 (log_calls cs1 s).
Proof. unfold log_calls. apply fold_left_app. Qed.

Lemma log_calls_spec cs s :
  collection (log_calls cs s) = collection s
  /\ chroma (log_calls cs s) = chroma s
  /\ calls (log_calls cs s) = calls s ++ cs
  /\ uuids (log_calls cs s) = uuids s.
Proof.
  revert s. induction cs as [|c cs IH]; intros s.
  - simpl. now rewrite app_nil_r.
  - rewrite log_calls_cons. destruct (IH (log_call c s)) as (H1 & H2 & H3 & H4).
    rewrite H1, H2, H3, H4. simpl. now rewrite <- app_assoc.
Qed.

Lemma log_calls_calls cs s : calls (log_calls cs s) = calls s ++ cs.
Proof. apply log_calls_spec. Qed.

Lemma chroma_request_run W {A} c
    (apply : list Call -> list ChromaCollection -> A * list ChromaCollection) s :
  chroma_request W c apply s =
  match chroma_fault W (calls s) c with
  | Some message => (Throw (ChromaError message), log_call c s)
  | None =>
      (Ok (fst (apply (calls s) (chroma s))),
       set_chroma (snd (apply (calls s) (chroma s))) (log_call c s))
  end.
Proof.
  unfold chroma_request. destruct (chroma_fault W (calls s) c); [reflexivity|].
  destruct (apply (calls s) (chroma s)); reflexivity.
Qed.

Lemma generateEmbedding_run W text s :
  generateEmbedding W text s =
  (match embedContent W (calls s) (js "embedding-001") text with
   | Some values => Ok values
   | None => Throw embedding_failed
   end, log_call (embedding_request text) s).
Proof.
  unfold generateEmbedding, try_catch, request, throw.
  destruct (embedContent W _ _ text); reflexivity.
Qed.

Lemma embedding_requests_cons d docs :
  embedding_requests (d :: docs) = embedding_requests [d] ++ embedding_requests docs.
Proof. unfold embedding_requests. simpl. now destruct (lacks_embedding d). Qed.

Lemma with_embedding_run W doc s :
  with_embedding W doc s =
  (match embedded W (calls s) doc with Some e => Ok e | None => Throw embedding_failed end,
   log_calls (embedding_requests [doc]) s).
Proof.
  unfold with_embedding, embedded, embedding_requests, lacks_embedding. cbn [filter].
  destruct (doc_embedding doc); [reflexivity|].
  rewrite alone_bindA. unfold bind. rewrite alone_await, generateEmbedding_run.
  destruct (embedContent W _ _ _); reflexivity.
Qed.

(** The callback of [documents.map] once it has been called: its request,
    when it has one, is sent, and it touches nothing any more. *)
Lemma with_embedding_start W doc s :
  inert (match embedded W (calls s) doc with Some e => Ok e | None => Throw embedding_failed end)
        (fst (start (with_embedding W doc) s))
  /\ snd (start (with_embedding W doc) s) = log_calls (embedding_requests [doc]) s.
Proof.
  unfold with_embedding, embedded, embedding_requests, lacks_embedding. cbn [filter].
  destruct (doc_embedding doc); [split; [constructor|reflexivity]|].
  cbn [start bindA await]. rewrite generateEmbedding_run.
  destruct (embedContent W _ _ _); cbn [then_ fst snd];
    (split; [|reflexivity]); constructor; intros s'; try reflexivity; constructor.
Qed.

Lemma embed_promises W docs : forall s,
  inert (match all_embedded W (calls s) docs with
         | Some eds => Ok eds
         | None => Throw embedding_failed
         end)
        (merged W (fst (call_each (map (with_embedding W) docs) s)))
  /\ snd (call_each (map (with_embedding W) docs) s) = log_calls (embedding_requests docs) s.
Proof.
  induction docs as [|d rest IH]; intros s; [split; [constructor|reflexivity]|].
  cbn [map call_each all_embedded].
  destruct (with_embedding_start W d s) as (Hd & Hs).
  destruct (start (with_embedding W d) s) as [p s1]. cbn [fst snd] in Hd, Hs. subst s1.
  destruct (IH (log_calls (embedding_requests [d]) s)) as (Hrest & Hs').
  destruct (call_each _ _) as [ps s2]. cbn [fst snd] in *. subst s2.
  rewrite log_calls_calls in Hrest.
  split; [|now rewrite (embedding_requests_cons d rest), log_calls_app].
  cbn [merged fold_right]. pose proof (alongside_inert W _ p Hd _ _ Hrest) as H.
  destruct (embedded W (calls s) d);
    destruct (all_embedded W (calls s ++ embedding_requests [d]) rest); exact H.
Qed.

(** All embedding requests of a batch are sent, whatever their outcome and
    whatever the order in which the answers arrive; the batch as a whole is
    embedded or fails. *)
Lemma embed_batch_run W docs s :
  promise_all W (map (with_embedding W) docs) s =
  (match all_embedded W (calls s) docs with
   | Some eds => Ok eds
   | None => Throw embedding_failed
   end, log_calls (embedding_requests docs) s).
Proof.
  unfold alone, promise_all. cbn [start].
  destruct (embed_promises W docs s) as (Hi & Hs).
  destruct (call_each _ s) as [ps s']. cbn [fst snd] in *. subst s'.
  apply finish_inert, Hi.
Qed.

Lemma all_embedded_failure W docs : forall before,
  embedding_fails W before docs -> all_embedded W before docs = None.
Proof.
  intros before (pre & doc & post & -> & Hnone & Hfail). revert before Hfail.
  induction pre as [|d pre IH]; intros before Hfail.
  - cbn [app all_embedded]. unfold embedded. rewrite Hnone.
    change (embedding_requests []) with (@nil Call) in Hfail. rewrite app_nil_r in Hfail.
    now rewrite Hfail.
  - cbn [app all_embedded]. rewrite IH.
    + now destruct (embedded W before d).
    + now rewrite <- app_assoc, <- (embedding_requests_cons d pre).
Qed.

Lemma addDocuments_run W docs s :
  addDocuments W docs s =
  match collection s with
  | None => (Throw not_initialized, s)
  | Some c =>
      let s1 := log_calls (embedding_requests docs) s in
      match all_embedded W (calls s) docs with
      | None => (Throw embedding_failed, s1)
      | Some eds =>
          match chroma_fault W (calls s1) (add_request c eds) with
          | Some message => (Throw (ChromaError message), log_call (add_request c eds) s1)
          | None =>
              (Ok tt,
               set_chroma
                 (on_collection (col_name c)
                    (fun rows => rows ++ rows_of (map (fun d => doc_id (ed_doc d)) eds)
                                           (map Some (map ed_embedding eds))
                                           (map (fun d => metadata_or_empty (doc_metadata (ed_doc d))) eds)
                                           (map (fun d => doc_content (ed_doc d)) eds))
                    (chroma s1))
                 (log_call (add_request c eds) s1))
          end
      end
  end.
Proof.
  unfold addDocuments. rewrite alone_bindA. unfold bind at 1. rewrite alone_sync.
  unfold get_store. destruct (collection s) as [c|]; [|reflexivity].
  rewrite try_rethrowA, alone_bindA. unfold bind. rewrite embed_batch_run.
  destruct (all_embedded W (calls s) docs) as [eds|]; [|reflexivity].
  rewrite alone_await. unfold collection_add. rewrite chroma_request_run.
  fold (add_request c eds).
  destruct (chroma_fault W _ (add_request c eds)); reflexivity.
Qed.

(** C3. If the embedding of some document of the batch that comes without
    one cannot be computed, [addDocuments] throws, and it has then sent
    nothing but embedding requests: no write reaches the index, whose
    contents are unchanged. *)
Theorem addDocuments_embedding_failure W docs s :
  embedding_fails W (calls s) docs ->
  exists e s',
    addDocuments W docs s = (Throw e, s')
    /\ chroma s' = chroma s
    /\ collection s' = collection s
    /\ exists texts, calls s' = calls s ++ map embedding_request texts.
Proof.
  intros Hfail. rewrite addDocuments_run.
  destruct (collection s) as [c|] eqn:Hc.
  - rewrite (all_embedded_failure W docs (calls s) Hfail). cbv zeta.
    destruct (log_calls_spec (embedding_requests docs) s) as (H1 & H2 & H3 & _).
    exists embedding_failed, (log_calls (embedding_requests docs) s).
    repeat split; auto; [congruence|].
    exists (map doc_content (filter lacks_embedding docs)). exact H3.
  - exists not_initialized, s. repeat split; auto. exists []. simpl. now rewrite app_nil_r.
Qed.


Lemma queryDocuments_run W queryText topK s :
  queryDocuments W queryText topK s =
  let k := match topK with Some k => k | None => 5%Z end in
  match collection s with
  | None => (Throw not_initialized, s)
  | Some c =>
      let s1 := log_call (embedding_request queryText) s in
      match embedContent W (calls s) (js "embedding-001") queryText with
      | None => (Throw embedding_failed, s1)
      | Some queryEmbedding =>
          let s2 := log_call (query_request c queryEmbedding k) s1 in
          match chroma_fault W (calls s1) (query_request c queryEmbedding k) with
          | Some message => (Throw (ChromaError message), s2)
          | None =>
              (reconstitute
                 (chroma_query W (calls s1) (rows_in (col_name c) (chroma s))
                    [queryEmbedding] k), s2)
          end
      end
  end.
Proof.
  unfold queryDocuments, bind at 1, get_store. cbv zeta.
  destruct (collection s) as [c|]; [|reflexivity].
  rewrite try_rethrow. unfold bind at 1. rewrite generateEmbedding_run.
  destruct (embedContent W _ _ queryText) as [emb|]; [|reflexivity].
  unfold bind, collection_query. rewrite chroma_request_run.
  fold (query_request c emb (match topK with Some k => k | None => 5%Z end)).
  destruct (chroma_fault W _ _); [reflexivity|].
  destruct s; reflexivity.
Qed.

Lemma updateDocument_run W document s :
  exists db,
  updateDocument W document s =
  match collection s with
  | None => (Throw not_initialized, s)
  | Some c =>
      match chroma_fault W (calls s) (update_request c document) with
      | Some message => (Throw (ChromaError message), log_call (update_request c document) s)
      | None => (Ok tt, set_chroma db (log_call (update_request c document) s))
      end
  end.
Proof.
  unfold updateDocument, bind at 1, get_store.
  destruct (collection s) as [c|]; [|now exists []].
  rewrite try_rethrow. unfold collection_update. rewrite chroma_request_run.
  fold (update_request c document). eexists.
  destruct (chroma_fault W _ _); reflexivity.
Qed.

Lemma deleteDocuments_run W ids s :
  deleteDocuments W ids s =
  match collection s with
  | None => (Throw not_initialized, s)
  | Some c =>
      match chroma_fault W (calls s) (CollectionDelete (col_name c) ids) with
      | Some message =>
          (Throw (ChromaError message), log_call (CollectionDelete (col_name c) ids) s)
      | None =>
          (Ok tt,
           set_chroma
             (on_collection (col_name c) (filter (fun r => negb (has_id ids r))) (chroma s))
             (log_call (CollectionDelete (col_name c) ids) s))
      end
  end.
Proof.
  unfold deleteDocuments, bind at 1, get_store.
  destruct (collection s) as [c|]; [|reflexivity].
  rewrite try_rethrow. unfold collection_delete. rewrite chroma_request_run.
  destruct (chroma_fault W _ _); reflexivity.
Qed.

(** The errors the answer of a query can raise. *)
Lemma reconstitute_from_error documents embeddings metadatas index ids e :
  reconstitute_from documents embeddings metadatas index ids = Throw e ->
  exists message, e = TypeError message.
Proof.
  revert index. induction ids as [|id rest IH]; intros index; simpl; [discriminate|].
  destruct (reconstitute_one _ _ _ id index) as [d|e'] eqn:E1.
  - destruct (reconstitute_from _ _ _ (S index) rest) as [ds|e'] eqn:E2; [discriminate|].
    intros H. injection H as <-. eapply IH, E2.
  - intros H. injection H as <-. revert E1. unfold reconstitute_one, first_row.
    destruct documents; [intros H; injection H as <-; eauto|].
    destruct embeddings; [intros H; injection H as <-; eauto|].
    destruct metadatas; [intros H; injection H as <-; eauto|].
    discriminate.
Qed.

Lemma reconstitute_error results e :
  reconstitute results = Throw e ->
  e = Error (js "Invalid response structure") \/ exists message, e = TypeError message.
Proof.
  unfold reconstitute.
  destruct (q_ids results) as [ids|]; [|intros H; injection H as <-; now left].
  destruct (q_documents results) as [documents|]; [|intros H; injection H as <-; now left].
  destruct (q_embeddings results) as [embeddings|]; [|intros H; injection H as <-; now left].
  destruct (q_metadatas results) as [metadatas|]; [|intros H; injection H as <-; now left].
  destruct ids as [|row ids]; simpl.
  - intros H. injection H as <-. right. eauto.
  - intros H. right. eapply reconstitute_from_error, H.
Qed.


(** ** The answer of a query *)

Lemma orElse_empty text : orElse text [] = text.
Proof. now destruct text. Qed.

Lemma reconstitute_one_rows dr dm er em mr mm id index :
  reconstitute_one (dr :: dm) (er :: em) (mr :: mm) id index = Ok (record_at dr er mr index id).
Proof.
  unfold reconstitute_one, record_at, first_row. do 2 f_equal.
  - destruct (nth_error dr index) as [[text|]|]; auto using orElse_empty.
  - destruct (nth_error mr index) as [[m|]|]; reflexivity.
Qed.

Lemma reconstitute_from_rows dr dm er em mr mm ids : forall index,
  reconstitute_from (dr :: dm) (er :: em) (mr :: mm) index ids
  = Ok (records_from dr er mr index ids).
Proof.
  induction ids as [|id rest IH]; intros index; [reflexivity|].
  cbn [reconstitute_from]. rewrite reconstitute_one_rows, IH. reflexivity.
Qed.

Lemma records_from_length dr er mr ids : forall index,
  length (records_from dr er mr index ids) = length ids.
Proof. induction ids as [|id rest IH]; intros index; simpl; [|rewrite IH]; reflexivity. Qed.

Lemma records_from_nth dr er mr ids : forall index i id,
  nth_error ids i = Some id ->
  nth_error (records_from dr er mr index ids) i = Some (record_at dr er mr (index + i) id).
Proof.
  induction ids as [|x rest IH]; intros index [|i] id; simpl; try discriminate.
  - intros H. injection H as ->. now rewrite Nat.add_0_r.
  - intros H. rewrite (IH (S index) i id H). now rewrite Nat.add_succ_r.
Qed.

(** A successful reconstitution keeps the ids of the first row, in order. *)
Lemma reconstitute_from_ids documents embeddings metadatas ids : forall index docs,
  reconstitute_from documents embeddings metadatas index ids = Ok docs ->
  map doc_id docs = ids.
Proof.
  induction ids as [|id rest IH]; intros index docs; simpl.
  - intros H. now injection H as <-.
  - destruct (reconstitute_one _ _ _ id index) as [d|] eqn:E1; [|discriminate].
    destruct (reconstitute_from _ _ _ (S index) rest) as [ds|] eqn:E2; [|discriminate].
    intros H. injection H as <-. simpl. rewrite (IH _ _ E2). f_equal.
    revert E1. unfold reconstitute_one.
    destruct (first_row documents); [|discriminate].
    destruct (first_row embeddings); [|discriminate].
    destruct (first_row metadatas); [|discriminate].
    intros H. now injection H as <-.
Qed.

Lemma reconstitute_ids results docs :
  reconstitute results = Ok docs ->
  exists id_row, first_of (q_ids results) = Some id_row /\ map doc_id docs = id_row.
Proof.
  unfold reconstitute.
  destruct (q_ids results) as [[|row ids]|]; try discriminate;
    destruct (q_documents results) as [documents|]; try discriminate;
    destruct (q_embeddings results) as [embeddings|]; try discriminate;
    destruct (q_metadatas results) as [metadatas|]; try discriminate.
  simpl. intros H. exists row. split; [reflexivity|]. eapply reconstitute_from_ids, H.
Qed.

Lemma reconstitute_missing results :
  q_ids results = None \/ q_documents results = None
  \/ q_embeddings results = None \/ q_metadatas results = None ->
  reconstitute results = Throw (Error (js "Invalid response structure")).
Proof.
  unfold reconstitute. intros [H|[H|[H|H]]]; rewrite H; try reflexivity;
    destruct (q_ids results); try reflexivity;
    destruct (q_documents results); try reflexivity;
    destruct (q_embeddings results); reflexivity.
Qed.

Lemma reconstitute_rows results id_row document_row embedding_row metadata_row :
  first_of (q_ids results) = Some id_row ->
  first_of (q_documents results) = Some document_row ->
  first_of (q_embeddings results) = Some embedding_row ->
  first_of (q_metadatas results) = Some metadata_row ->
  reconstitute results = Ok (records_from document_row embedding_row metadata_row 0 id_row).
Proof.
  unfold reconstitute, first_of.
  destruct (q_ids results) as [[|ir im]|]; try discriminate.
  destruct (q_documents results) as [[|dr dm]|]; try discriminate.
  destruct (q_embeddings results) as [[|er em]|]; try discriminate.
  destruct (q_metadatas results) as [[|mr mm]|]; try discriminate.
  intros H1 H2 H3 H4.
  injection H1 as ->. injection H2 as ->. injection H3 as ->. injection H4 as ->.
  simpl. apply reconstitute_from_rows.
Qed.

(** ** Initialization *)

Lemma get_or_create_nonempty name metadata db :
  length (snd (get_or_create name metadata db)) <> 0.
Proof.
  unfold get_or_create. destruct (find (named name) db) as [c|] eqn:E; simpl.
  - destruct db; [discriminate|simpl; lia].
  - rewrite length_app. simpl. lia.
Qed.

(** After create-or-get the index holds at least one collection, so the
    count that [initializeCollection] compares with 0 is positive and the
    branch that calls [initDBfromCSV] is not taken. *)
Lemma initializeCollection_run W csvFile name s :
  initializeCollection W csvFile name s =
  let s1 := log_call (GetOrCreateCollection name cosine_space) s in
  match chroma_fault W (calls s) (GetOrCreateCollection name cosine_space) with
  | Some message => (Throw (ChromaError message), s1)
  | None =>
      let (c, db) := get_or_create name cosine_space (chroma s) in
      let s2 := log_call CountCollections (set_collection (Some c) (set_chroma db s1)) in
      match chroma_fault W (calls s1) CountCollections with
      | Some message => (Throw (ChromaError message), s2)
      | None => (Ok tt, s2)
      end
  end.
Proof.
  unfold initializeCollection. rewrite try_rethrowA, alone_bindA. cbv zeta.
  unfold bind at 1. rewrite alone_await.
  unfold getOrCreateCollection. rewrite chroma_request_run.
  destruct (chroma_fault W _ (GetOrCreateCollection _ _)); [reflexivity|].
  pose proof (get_or_create_nonempty name cosine_space (chroma s)) as Hne.
  change (chroma (log_call (GetOrCreateCollection name cosine_space) s)) with (chroma s).
  destruct (get_or_create name cosine_space (chroma s)) as [c db]. cbn [fst snd] in *.
  rewrite alone_bindA. unfold bind at 1. rewrite alone_sync. unfold update_store.
  rewrite alone_bindA. unfold bind at 1. rewrite alone_await.
  unfold countCollections. rewrite chroma_request_run.
  cbn [calls set_collection set_chroma log_call].
  destruct (chroma_fault W _ CountCollections); [reflexivity|].
  cbn [fst snd chroma set_collection set_chroma log_call].
  destruct (length db =? 0) eqn:E; [apply Nat.eqb_eq in E; contradiction|].
  destruct s; reflexivity.
Qed.

Lemma str_eqb_eq a : forall b, str_eqb a b = true -> a = b.
Proof.
  induction a as [|x a IH]; intros [|y b] H; try discriminate; [reflexivity|].
  cbn [str_eqb] in H. apply andb_prop in H as [Hx Hrest].
  apply N.eqb_eq in Hx. now rewrite Hx, (IH b Hrest).
Qed.

Lemma get_or_create_name name metadata db :
  col_name (fst (get_or_create name metadata db)) = name.
Proof.
  unfold get_or_create. destruct (find (named name) db) as [c|] eqn:E; [|reflexivity].
  apply find_some in E as [_ E]. apply str_eqb_eq, E.
Qed.

(** C2.  The backfill is not started on an empty collection either.
    [initializeCollection] compares with 0 what [countCollections()]
    answers, the number of collections of the index, and it asks for it
    after [getOrCreateCollection]: whatever the services do, in whatever
    state, the call sends the create-or-get request and at most the count
    request, and the article source is never read.  On a fresh process
    whose index holds no collection the call succeeds, the collection
    exists afterwards, and it is empty. *)
Theorem initializeCollection_never_backfills W csvFile name s :
  (exists l,
     calls (snd (initializeCollection W csvFile name s)) = calls s ++ l
     /\ Forall (setup_request name) l)
  /\ initializeCollection all_well Server.csvFile (js "test_rag") (fresh [])
     = (Ok tt,
        {| collection := Some test_rag;
           chroma := [{| c_name := js "test_rag"; c_metadata := cosine_space; c_rows := [] |}];
           calls := [GetOrCreateCollection (js "test_rag") cosine_space; CountCollections];
           uuids := 0 |}).
Proof.
  split; [|reflexivity].
  rewrite initializeCollection_run. cbv zeta.
  destruct (chroma_fault W _ (GetOrCreateCollection _ _)).
  { exists [GetOrCreateCollection name cosine_space]. split; [reflexivity|].
    constructor; [now left|constructor]. }
  destruct (get_or_create name cosine_space (chroma s)) as [c db].
  exists [GetOrCreateCollection name cosine_space; CountCollections].
  split.
  - destruct (chroma_fault W _ CountCollections); cbn; now rewrite <- app_assoc.
  - constructor; [now left|constructor; [now right|constructor]].
Qed.

(** ** Ingestion *)

Lemma next_uuid_iter n s :
  Nat.iter n next_uuid (next_uuid s) = next_uuid (Nat.iter n next_uuid s).
Proof. apply Nat.iter_swap. Qed.

Lemma chunks_from_run W article scrapedArticle blocks : forall index s,
  chunks_from W article scrapedArticle index blocks s =
  (Ok (documents_from W article scrapedArticle index (uuids s) blocks),
   Nat.iter (length blocks) next_uuid s).
Proof.
  induction blocks as [|chunk rest IH]; intros index s; [reflexivity|].
  cbn [chunks_from]. unfold bind at 1, draw_uuid. unfold bind at 1. rewrite IH.
  unfold ret. cbn [documents_from length]. f_equal.
  change (Nat.iter (S (length rest)) next_uuid s)
    with (next_uuid (Nat.iter (length rest) next_uuid s)).
  apply next_uuid_iter.
Qed.

Lemma ingest_article_run W article s :
  ingest_article W article s =
  addDocuments W (fst (prepared W article s)) (snd (prepared W article s)).
Proof.
  unfold ingest_article, prepared. cbv zeta. cbn [fst snd].
  rewrite alone_bindA. unfold bind at 1. rewrite alone_await, scrapeArticle_run.
  rewrite alone_bindA. unfold bind at 1. rewrite alone_await, getClusteredText_run.
  rewrite alone_bindA. unfold bind at 1. rewrite alone_sync, chunks_from_run. reflexivity.
Qed.

(** The callback of a batch never throws: run with nothing else in between
    it resolves to the outcome of its article. *)
Lemma ingest_one_run W article s :
  ingest_one W article s = (Ok (fst (outcome W article s)), snd (outcome W article s)).
Proof.
  unfold ingest_one. rewrite alone_try_catchA. unfold try_catch.
  rewrite alone_bindA. unfold bind at 1. rewrite ingest_article_run.
  unfold outcome. destruct (prepared W article s) as [documents s1]. cbn [fst snd].
  destruct (addDocuments W documents s1) as [[[]|e] s2]; reflexivity.
Qed.

Lemma slice_batch {A} (l : list A) i : slice l i (i + BATCH_SIZE) = firstn BATCH_SIZE (skipn i l).
Proof. unfold slice. f_equal. lia. Qed.

(** ** Functions that run beside others *)

Lemma start_bindA {A B} (m : Async A) (k : A -> Async B) s :
  start (bindA m k) s = then_ (fst (start m s)) k (snd (start m s)).
Proof. cbn [start bindA]. now destruct (start m s). Qed.

Lemma start_try_catchA {A} (m : Async A) (h : error -> Async A) s :
  start (try_catchA m h) s = catching (fst (start m s)) h (snd (start m s)).
Proof. cbn [start try_catchA]. now destruct (start m s). Qed.

Lemma start_await {A} (m : M A) s :
  start (await m) s = (Await 1 (fun t => (Return (fst (m s)), t)), snd (m s)).
Proof. cbn [start await]. now destruct (m s). Qed.

Lemma start_sync {A} (m : M A) s : start (sync m) s = (Return (fst (m s)), snd (m s)).
Proof. cbn [start sync]. now destruct (m s). Qed.

Lemma start_promise_all W {A} (callbacks : list (Async A)) s :
  start (promise_all W callbacks) s
  = (merged W (fst (call_each callbacks s)), snd (call_each callbacks s)).
Proof. cbn [start promise_all]. now destruct (call_each callbacks s). Qed.

Lemma next_impl {A} (P Q : Store -> Task A -> Store -> Prop) t :
  (forall s t' s', P s t' s' -> Q s t' s') -> next P t -> next Q t.
Proof. intros HPQ [n continue H]. constructor. intros s. apply HPQ, H. Qed.

Lemma eventually_impl {A} (P Q : Store -> Task A -> Store -> Prop) :
  (forall s t' s', P s t' s' -> Q s t' s') ->
  forall t, eventually P t -> eventually Q t.
Proof.
  intros HPQ. induction t as [r|n continue IH] using Task_induction; intros H; [inversion H|].
  inversion H as [n' c' Hc]; subst. constructor. intros s.
  destruct (Hc s) as [Hnow|[Hs Hlater]]; [left; now apply HPQ|right; split; [assumption|]].
  now apply IH.
Qed.

Lemma await_next {A} (m : M A) s :
  next (fun x t' x' => x' = x /\ t' = Return (fst (m s))) (fst (start (await m) s)).
Proof. rewrite start_await. constructor. intros x. now split. Qed.

(** The rest of a function and the handler around it wait with what the
    function waits for. *)
Lemma next_then {A B} (k : A -> Async B) P (t : Task A) s0 :
  next P t ->
  next (behind_then k P) (fst (then_ t k s0)) /\ snd (then_ t k s0) = s0.
Proof.
  intros [n continue H]. cbn [then_ fst snd]. split; [|reflexivity].
  constructor. intros s. exists (fst (continue s)), (snd (continue s)). split; [apply H|].
  destruct (continue s) as [t1 s1]. cbn [fst snd]. now destruct (then_ t1 k s1).
Qed.

Lemma next_catching {A} (h : error -> Async A) P (t : Task A) s0 :
  next P t ->
  next (behind_catch h P) (fst (catching t h s0)) /\ snd (catching t h s0) = s0.
Proof.
  intros [n continue H]. cbn [catching fst snd]. split; [|reflexivity].
  constructor. intros s. exists (fst (continue s)), (snd (continue s)). split; [apply H|].
  destruct (continue s) as [t1 s1]. cbn [fst snd]. now destruct (catching t1 h s1).
Qed.

Lemma eventually_then {A B} (k : A -> Async B) P : forall (t : Task A) s0,
  eventually P t ->
  eventually (behind_then k P) (fst (then_ t k s0)) /\ snd (then_ t k s0) = s0.
Proof.
  induction t as [r|n continue IH] using Task_induction; intros s0 H; [inversion H|].
  inversion H as [n' c' Hc]; subst. cbn [then_ fst snd]. split; [|reflexivity].
  constructor. intros s. destruct (Hc s) as [Hnow|[Hs Hlater]].
  - left. exists (fst (continue s)), (snd (continue s)). split; [assumption|].
    destruct (continue s) as [t1 s1]. cbn [fst snd]. now destruct (then_ t1 k s1).
  - right. destruct (IH s (snd (continue s)) Hlater) as [IH1 IH2].
    destruct (continue s) as [t1 s1]. cbn [fst snd] in *. subst s1. now split.
Qed.

Lemma eventually_catching {A} (h : error -> Async A) P : forall (t : Task A) s0,
  eventually P t ->
  eventually (behind_catch h P) (fst (catching t h s0)) /\ snd (catching t h s0) = s0.
Proof.
  induction t as [r|n continue IH] using Task_induction; intros s0 H; [inversion H|].
  inversion H as [n' c' Hc]; subst. cbn [catching fst snd]. split; [|reflexivity].
  constructor. intros s. destruct (Hc s) as [Hnow|[Hs Hlater]].
  - left. exists (fst (continue s)), (snd (continue s)). split; [assumption|].
    destruct (continue s) as [t1 s1]. cbn [fst snd]. now destruct (catching t1 h s1).
  - right. destruct (IH s (snd (continue s)) Hlater) as [IH1 IH2].
    destruct (continue s) as [t1 s1]. cbn [fst snd] in *. subst s1. now split.
Qed.

Lemma inert_eventually {A} (r : Res A) : forall t,
  inert r t -> is_pending t = true ->
  eventually (fun s t' s' => s' = s /\ t' = Return r) t.
Proof.
  induction t as [r'|n continue IH] using Task_induction; intros H Hp; [discriminate|].
  inversion H as [|n' c' Hs Hi]; subst. constructor. intros s.
  specialize (Hs s). specialize (Hi s). specialize (IH s).
  destruct (continue s) as [[r'|m f] s1]; cbn [fst snd] in *.
  - left. split; [assumption|]. now inversion Hi.
  - right. split; [assumption|]. now apply IH.
Qed.

(** *** [Promise.all] *)

Lemma merged_cons W {A} (p : Task A) ps : merged W (p :: ps) = alongside W p (merged W ps).
Proof. reflexivity. Qed.

(** The merged promise has settled when all its elements have, with their
    results; until then it waits for those that have not, and a step of it
    is a step of one of them. *)
Lemma merged_spec W {A} (ps : list (Task A)) :
  match merged W ps with
  | Return rs =>
      unsettled ps = 0 /\ rs = fold_right cons_results (Ok []) (flat_map result_of ps)
  | Await m F =>
      m = unsettled ps
      /\ forall s, exists j n continue,
           nth_error ps j = Some (Await n continue)
           /\ F s = (merged W (set_nth j (fst (continue s)) ps), snd (continue s))
  end.
Proof.
  induction ps as [|p ps IH]; [now split|].
  rewrite merged_cons, alongside_eq.
  destruct p as [r|k c]; destruct (merged W ps) as [rs|m F] eqn:E.
  - destruct IH as [IH1 IH2]. split; [exact IH1|]. cbn [flat_map result_of app fold_right].
    now rewrite IH2.
  - destruct IH as [IH1 IH2]. split; [exact IH1|]. intros s.
    destruct (IH2 s) as (j & n & continue & Hj & HF). exists (S j), n, continue.
    split; [exact Hj|]. rewrite HF. reflexivity.
  - destruct IH as [IH1 IH2]. split; [unfold unsettled in *; cbn [filter is_pending length]; now rewrite IH1|].
    intros s. exists 0, k, c. split; [reflexivity|].
    destruct (c s) as [p' s']. cbn [fst snd set_nth]. now rewrite merged_cons, E.
  - destruct IH as [IH1 IH2]. split; [unfold unsettled in *; cbn [filter is_pending length]; now rewrite IH1|].
    intros s. destruct (first_settles W (calls s) (S m)).
    + exists 0, k, c. split; [reflexivity|].
      destruct (c s) as [p' s']. cbn [fst snd set_nth]. now rewrite merged_cons, E.
    + destruct (IH2 s) as (j & n & continue & Hj & HF). exists (S j), n, continue.
      split; [exact Hj|]. rewrite HF. reflexivity.
Qed.

Lemma unsettled_cons {A} (p : Task A) ps :
  unsettled (p :: ps) = (if is_pending p then 1 else 0) + unsettled ps.
Proof. unfold unsettled. cbn [filter]. now destruct (is_pending p). Qed.

Lemma merged_settled W {A} (ps : list (Task A)) :
  unsettled ps = 0 ->
  merged W ps = Return (fold_right cons_results (Ok []) (flat_map result_of ps)).
Proof.
  induction ps as [|p ps IH]; [reflexivity|].
  rewrite unsettled_cons. destruct p as [r|n c]; cbn [is_pending]; [|discriminate].
  intros H. rewrite merged_cons, (IH H). reflexivity.
Qed.

Lemma merged_unsettled W {A} (ps : list (Task A)) :
  unsettled ps <> 0 -> is_pending (merged W ps) = true.
Proof.
  intros H. pose proof (merged_spec W ps) as Hs.
  destruct (merged W ps) as [rs|m F]; [|reflexivity]. now destruct Hs.
Qed.

Lemma unsettled_le {A} (ps : list (Task A)) : unsettled ps <= length ps.
Proof. apply filter_length_le. Qed.

(** ** The callback of a batch, from one suspension to the next *)

Lemma iter_next_uuid_spec n s :
  collection (Nat.iter n next_uuid s) = collection s
  /\ chroma (Nat.iter n next_uuid s) = chroma s
  /\ calls (Nat.iter n next_uuid s) = calls s
  /\ uuids (Nat.iter n next_uuid s) = n + uuids s.
Proof.
  induction n as [|n (H1 & H2 & H3 & H4)]; [now cbn|].
  cbn [Nat.iter nat_rect]. change (nat_rect _ s (fun _ => next_uuid) n) with (Nat.iter n next_uuid s).
  cbn [next_uuid collection chroma calls uuids]. rewrite H4. auto.
Qed.

Lemma write_spec W c eds s :
  fst (write W c eds s)
  = match chroma_fault W (calls s) (add_request c eds) with
    | Some message => Throw (ChromaError message)
    | None => Ok tt
    end
  /\ collection (snd (write W c eds s)) = collection s
  /\ calls (snd (write W c eds s)) = calls s ++ [add_request c eds].
Proof.
  unfold write, collection_add. rewrite chroma_request_run. fold (add_request c eds).
  destruct (chroma_fault W (calls s) (add_request c eds)); cbn; auto.
Qed.

Lemma ingest_one_eq W a :
  ingest_one W a = try_catchA (bindA (ingest_article W a) (succeed a)) (fail a).
Proof. reflexivity. Qed.

Lemma settle_start a (m : Async unit) s :
  start (try_catchA (bindA m (succeed a)) (fail a)) s
  = catching (fst (then_ (fst (start m s)) (succeed a) (snd (start m s)))) (fail a)
      (snd (then_ (fst (start m s)) (succeed a) (snd (start m s)))).
Proof. now rewrite start_try_catchA, start_bindA. Qed.

(** [addDocuments] with the collection set and something to embed: the
    embedding requests go out at the call; when the embeddings are there,
    or one of them has failed, the write goes out, or the failure is
    thrown. *)
Lemma addDocuments_waits W c docs s :
  collection s = Some c ->
  unsettled (fst (call_each (map (with_embedding W) docs) s)) <> 0 ->
  snd (start (addDocuments W docs) s) = log_calls (embedding_requests docs) s
  /\ eventually
       (fun x t' x' =>
          match all_embedded W (calls s) docs with
          | Some eds =>
              x' = snd (write W c eds x)
              /\ next (fun z t'' z' => z' = z /\ t'' = Return (fst (write W c eds x))) t'
          | None => x' = x /\ t' = Return (Throw embedding_failed)
          end)
       (fst (start (addDocuments W docs) s)).
Proof.
  intros Hc Hu. unfold addDocuments. rewrite start_bindA, start_sync.
  cbn [get_store fst snd then_]. rewrite Hc.
  rewrite start_try_catchA, start_bindA, start_promise_all. cbn [fst snd].
  destruct (embed_promises W docs s) as (Hi & Hs). rewrite Hs.
  pose proof (inert_eventually _ _ Hi (merged_unsettled _ _ Hu)) as H0.
  match goal with
  | |- context [then_ ?T ?k ?s1] => destruct (eventually_then k _ T s1 H0) as [H1 E1]
  end.
  match goal with
  | |- context [catching ?T ?h ?s1] => destruct (eventually_catching h _ T s1 H1) as [H2 E2]
  end.
  split; [now rewrite E2, E1|].
  eapply eventually_impl; [|exact H2].
  intros x t' x' (t1 & x1 & (t2 & x2 & [-> ->] & Hthen) & Hcatch).
  destruct (all_embedded W (calls s) docs) as [eds|].
  - cbn [then_] in Hthen. rewrite start_await in Hthen. inversion Hthen; subst.
    cbn [catching] in Hcatch. inversion Hcatch; subst. split; [reflexivity|].
    constructor. intros z. cbn [fst snd]. unfold write.
    now destruct (fst (collection_add W c _ _ _ _ x)) as [[]|e].
  - cbn [then_] in Hthen. inversion Hthen; subst. cbn in Hcatch. inversion Hcatch. now split.
Qed.

Lemma documents_from_unembedded W a page : forall blocks index n,
  Forall (fun d => doc_embedding d = None) (documents_from W a page index n blocks).
Proof.
  induction blocks as [|b rest IH]; intros index n; cbn [documents_from]; constructor;
    [reflexivity|apply IH].
Qed.

Lemma with_embedding_pending W d rest s :
  doc_embedding d = None ->
  unsettled (fst (call_each (map (with_embedding W) (d :: rest)) s)) <> 0.
Proof.
  intros Hd. cbn [map call_each]. unfold with_embedding at 1. rewrite Hd.
  rewrite start_bindA, start_await. cbn [then_ fst snd].
  destruct (call_each _ _) as [ps s2]. cbn [fst]. rewrite unsettled_cons. cbn [is_pending].
  discriminate.
Qed.

(** The callback from the answer of the model on. *)
Lemma callback_generated W col a h1 h2 s :
  collection s = col ->
  let c :=
    start (try_catchA
             (bindA (chunks <~ sync (chunks_from W a (page_at W a h1) 0 (blocks_at W a h1 h2)) ;;
                     addDocuments W chunks)
                    (succeed a))
             (fail a)) s in
  generating_then W col a h1 h2 s (fst c) (snd c).
Proof.
  intros Hcol c. subst c. rewrite settle_start, start_bindA, start_sync, chunks_from_run.
  cbn [fst snd then_]. unfold generating_then. cbv zeta.
  change (documents_from W a (page_at W a h1) 0 (uuids s) (blocks_at W a h1 h2))
    with (docs_at W a h1 h2 (uuids s)).
  destruct (iter_next_uuid_spec (length (blocks_at W a h1 h2)) s) as (Hc1 & _ & Hcalls & _).
  set (s1 := Nat.iter (length (blocks_at W a h1 h2)) next_uuid s) in *.
  rewrite Hcol in Hc1. destruct col as [c|].
  - pose proof (documents_from_unembedded W a (page_at W a h1) (blocks_at W a h1 h2) 0 (uuids s)) as Hlack.
    change (documents_from W a (page_at W a h1) 0 (uuids s) (blocks_at W a h1 h2))
      with (docs_at W a h1 h2 (uuids s)) in Hlack.
    unfold embedding_then.
    destruct (docs_at W a h1 h2 (uuids s)) as [|d rest] eqn:Hdocs.
    + unfold addDocuments. rewrite start_bindA, start_sync. cbn [get_store fst snd then_].
      rewrite Hc1, start_try_catchA, start_bindA, start_promise_all.
      cbn [map call_each fst snd merged fold_right then_ all_embedded].
      rewrite start_await. cbn [catching then_ fst snd]. split; [reflexivity|].
      constructor. intros z. cbn [fst snd].
      destruct (write_spec W c [] s1) as (Hw & _). unfold write in Hw. cbn [map] in Hw.
      rewrite Hw. unfold settles, outcome_at. fold (page_at W a h1). fold (blocks_at W a h1 h2).
      fold (docs_at W a h1 h2 (uuids s)). rewrite Hdocs. cbn [all_embedded].
      destruct (chroma_fault W (calls s1) (add_request c [])); cbn; now split.
    + inversion Hlack as [|d' rest' Hd _]; subst.
      destruct (addDocuments_waits W c (d :: rest) s1 Hc1 (with_embedding_pending W d rest s1 Hd))
        as (Hs & Hev).
      destruct (eventually_then (succeed a) _ _ (snd (start (addDocuments W (d :: rest)) s1)) Hev)
        as [H1 E1].
      match goal with
      | |- context [catching ?T ?h ?s0] => destruct (eventually_catching h _ T s0 H1) as [H2 E2]
      end.
      split; [now rewrite E2, E1|].
      eapply eventually_impl; [|exact H2].
      intros x t' x' (t1 & x1 & (t2 & x2 & Hnow & Hthen) & Hcatch).
      rewrite Hcalls in Hnow. unfold embedding_then, outcome_at. fold (page_at W a h1). fold (blocks_at W a h1 h2).
      fold (docs_at W a h1 h2 (uuids s)). rewrite Hdocs.
      destruct (all_embedded W (calls s) (d :: rest)) as [eds|].
      * destruct Hnow as [-> Hnext].
        destruct (next_then (succeed a) _ _ (snd (write W c eds x)) Hnext) as [N1 F1].
        rewrite Hthen in N1, F1. cbn [fst snd] in N1, F1. subst x1.
        destruct (next_catching (fail a) _ _ (snd (write W c eds x)) N1) as [N2 F2].
        rewrite Hcatch in N2, F2. cbn [fst snd] in N2, F2. subst x'.
        split; [reflexivity|]. unfold adding. eapply next_impl; [|exact N2].
        intros z t'' z' (t3 & z3 & (t4 & z4 & [-> ->] & Hthen') & Hcatch').
        destruct (write_spec W c eds x) as (Hw & _). rewrite Hw in Hthen'.
        unfold settles.
        destruct (chroma_fault W (calls x) (add_request c eds));
          cbn in Hthen'; inversion Hthen'; subst; cbn in Hcatch'; inversion Hcatch'; now split.
      * destruct Hnow as [-> ->]. cbn in Hthen. inversion Hthen; subst.
        cbn in Hcatch. inversion Hcatch; subst. now split.
  - unfold addDocuments. rewrite start_bindA, start_sync. cbn [get_store fst snd then_].
    rewrite Hc1. cbn. now split.
Qed.

(** The callback from the arrival of the page on. *)
Lemma callback_fetched W col a h1 s :
  let c :=
    start (try_catchA
             (bindA (splitedArticle <~ await (getClusteredText W (art_content (page_at W a h1))) ;;
                     chunks <~ sync (chunks_from W a (page_at W a h1) 0 splitedArticle) ;;
                     addDocuments W chunks)
                    (succeed a))
             (fail a)) s in
  snd c = log_call (generation (cluster_prompt (art_content (page_at W a h1)))) s
  /\ generating W col a h1 (calls s) (fst c).
Proof.
  intros c. subst c. rewrite settle_start, start_bindA.
  pose proof (await_next (getClusteredText W (art_content (page_at W a h1))) s) as H0.
  match goal with
  | |- context [then_ ?T ?k ?s1] => destruct (next_then k _ T s1 H0) as [H1 E1]
  end.
  match goal with
  | |- context [then_ (fst (then_ ?T0 ?k0 ?s0)) ?k ?s1] =>
      destruct (next_then k _ (fst (then_ T0 k0 s0)) s1 H1) as [H2 E2]
  end.
  match goal with
  | |- context [catching ?T ?h ?s1] => destruct (next_catching h _ T s1 H2) as [H3 E3]
  end.
  split.
  - rewrite E3, E2, E1, start_await, getClusteredText_run. reflexivity.
  - unfold generating. eapply next_impl; [|exact H3].
    intros x t' x' (t1 & x1 & (t2 & x2 & (t3 & x3 & [-> ->] & Hk) & Hthen) & Hcatch) Hcol.
    rewrite getClusteredText_run in Hk. cbn [fst then_] in Hk.
    change (start (chunks <~ sync (chunks_from W a (page_at W a h1) 0
                                     (blocks_at W a h1 (calls s))) ;;
                   addDocuments W chunks) x = (t2, x2)) in Hk.
    pose proof (callback_generated W col a h1 (calls s) x Hcol) as Hg. cbv zeta in Hg.
    rewrite settle_start in Hg. rewrite Hk in Hg. cbn [fst snd] in Hg. rewrite Hthen in Hg. cbn [fst snd] in Hg.
    rewrite Hcatch in Hg. exact Hg.
Qed.

(** The callback when it is called: the fetch goes out. *)
Lemma ingest_one_start W col a s :
  snd (start (ingest_one W a) s) = log_call (AxiosGet (URL a)) s
  /\ at_stage W col a (Fetching (calls s)) (fst (start (ingest_one W a) s)).
Proof.
  rewrite ingest_one_eq, settle_start. unfold ingest_article. rewrite start_bindA.
  pose proof (await_next (scrapeArticle W (URL a)) s) as H0.
  match goal with
  | |- context [then_ ?T ?k ?s1] => destruct (next_then k _ T s1 H0) as [H1 E1]
  end.
  match goal with
  | |- context [then_ (fst (then_ ?T0 ?k0 ?s0)) ?k ?s1] =>
      destruct (next_then k _ (fst (then_ T0 k0 s0)) s1 H1) as [H2 E2]
  end.
  match goal with
  | |- context [catching ?T ?h ?s1] => destruct (next_catching h _ T s1 H2) as [H3 E3]
  end.
  split.
  - rewrite E3, E2, E1, start_await, scrapeArticle_run. reflexivity.
  - cbn [at_stage]. unfold fetching. eapply next_impl; [|exact H3].
    intros x t' x' (t1 & x1 & (t2 & x2 & (t3 & x3 & [-> ->] & Hk) & Hthen) & Hcatch).
    rewrite scrapeArticle_run in Hk. cbn [fst then_] in Hk.
    change (start (splitedArticle <~
                     await (getClusteredText W (art_content (page_at W a (calls s)))) ;;
                   chunks <~ sync (chunks_from W a (page_at W a (calls s)) 0 splitedArticle) ;;
                   addDocuments W chunks) x = (t2, x2)) in Hk.
    pose proof (callback_fetched W col a (calls s) x) as Hg. cbv zeta in Hg.
    rewrite settle_start in Hg. rewrite Hk in Hg. cbn [fst snd] in Hg. rewrite Hthen in Hg. cbn [fst snd] in Hg.
    rewrite Hcatch in Hg. exact Hg.
Qed.

Lemma sent_at_now h cs : sent_at (h ++ cs) h cs.
Proof. exists []. now rewrite app_nil_r. Qed.

Lemma sent_at_app l h cs new : sent_at l h cs -> sent_at (l ++ new) h cs.
Proof. intros [rest ->]. exists (rest ++ new). now rewrite <- !app_assoc. Qed.

Lemma own_requests_at_app W col a l new h1 h2 u h3 h4 :
  own_requests_at W col a l h1 h2 u h3 h4 ->
  own_requests_at W col a (l ++ new) h1 h2 u h3 h4.
Proof.
  intros (H1 & H2 & H3). split; [now apply sent_at_app|]. split; [now apply sent_at_app|].
  destruct col as [c|]; [|exact I]. destruct H3 as [H3 H4]. split; [now apply sent_at_app|].
  destruct (all_embedded W h3 _); [now apply sent_at_app|exact I].
Qed.

Lemma happened_app W col a l new st :
  happened W col a l st -> happened W col a (l ++ new) st.
Proof.
  destruct st; cbn [happened]; try apply own_requests_at_app; intros H;
    repeat match goal with
           | H : _ /\ _ |- _ => destruct H
           | |- _ /\ _ => split
           end; now apply sent_at_app.
Qed.

Lemma embedding_requests_plain col docs :
  col <> None ->
  fetches (embedding_requests docs) = []
  /\ filter is_generation (embedding_requests docs) = []
  /\ Forall (own_request col) (embedding_requests docs).
Proof.
  intros Hcol. unfold embedding_requests.
  induction (map doc_content (filter lacks_embedding docs)) as [|text l (H1 & H2 & H3)];
    [now repeat split|].
  cbn [map fetches flat_map filter is_generation embedding_request app].
  repeat split; [exact H1|exact H2|]. constructor; [|exact H3].
  right. right. split; [assumption|]. left. now exists text.
Qed.

(** One step of a callback: where it stands afterwards and what it has
    sent. *)
Lemma callback_resume W col a st n continue s :
  at_stage W col a st (Await n continue) ->
  collection s = col ->
  happened W col a (calls s) st ->
  exists st' new,
    at_stage W col a st' (fst (continue s))
    /\ happened W col a (calls s ++ new) st'
    /\ collection (snd (continue s)) = col
    /\ calls (snd (continue s)) = calls s ++ new
    /\ (col = None -> chroma (snd (continue s)) = chroma s)
    /\ fetches new = []
    /\ length (filter is_generation new) = (if past_fetching st then 0 else 1)
    /\ past_fetching st' = true
    /\ Forall (own_request col) new
    /\ (has_settled st' = true -> new = []).
Proof.
  intros Hat Hcol Hh. destruct st as [h1|h1 h2|h1 h2 u h3|h1 h2 u h3 h4|h1 h2 u h3 h4];
    cbn [at_stage happened] in Hat, Hh.
  - inversion Hat as [n' c' Hc]; subst. destruct (Hc s) as [Hs Hg].
    exists (Generating h1 (calls s)),
      [generation (cluster_prompt (art_content (page_at W a h1)))].
    rewrite Hs. cbn [at_stage happened log_call collection calls chroma].
    split; [exact Hg|]. split; [split; [now apply sent_at_app|apply sent_at_now]|].
    repeat split; try reflexivity.
    + constructor; [|constructor]. right. left. now eexists.
    + discriminate.
  - inversion Hat as [n' c' Hc]; subst. specialize (Hc s eq_refl).
    unfold generating_then in Hc. cbv zeta in Hc.
    destruct (iter_next_uuid_spec (length (blocks_at W a h1 h2)) s) as (I1 & I2 & I3 & _).
    destruct Hh as [Hh1 Hh2].
    destruct (collection s) as [c|] eqn:Hcs.
    + destruct (docs_at W a h1 h2 (uuids s)) as [|d rest] eqn:Hdocs.
      * unfold embedding_then in Hc. rewrite Hdocs in Hc. cbn [all_embedded] in Hc.
        destruct Hc as [Hs Hadd]. rewrite I3 in Hadd.
        destruct (write_spec W c [] (Nat.iter (length (blocks_at W a h1 h2)) next_uuid s))
          as (_ & W2 & W3).
        exists (Adding h1 h2 (uuids s) (calls s) (calls s)), [add_request c []].
        rewrite Hs, W2, W3, I1, I3. cbn [at_stage happened].
        split; [exact Hadd|]. split.
        { split; [now apply sent_at_app|]. split; [now apply sent_at_app|].
          rewrite Hdocs. cbn [all_embedded]. split; [|apply sent_at_now].
          exists [add_request c []]. reflexivity. }
        repeat split; try reflexivity; try discriminate.
        constructor; [|constructor]. right. right. split; [discriminate|]. right.
        unfold add_request. now repeat eexists.
      * destruct Hc as [Hs Hemb].
        destruct (embedding_requests_plain (Some c) (d :: rest)) as (E1 & E2 & E3);
          [discriminate|].
        exists (Embedding h1 h2 (uuids s) (calls s)), (embedding_requests (d :: rest)).
        rewrite Hs. destruct (log_calls_spec (embedding_requests (d :: rest))
                                (Nat.iter (length (blocks_at W a h1 h2)) next_uuid s))
          as (L1 & _ & L3 & _).
        rewrite L1, L3, I1, I3, E1, E2. cbn [at_stage happened].
        split; [exact Hemb|]. split.
        { split; [now apply sent_at_app|]. split; [now apply sent_at_app|].
          rewrite Hdocs. apply sent_at_now. }
        repeat split; try reflexivity; try assumption; discriminate.
    + destruct Hc as [Hs Ht].
      exists (Settled h1 h2 (uuids s) (calls s) (calls s)), [].
      rewrite Hs, Ht, I1, I2, I3, app_nil_r. cbn [at_stage happened].
      split; [reflexivity|]. split; [now repeat split|].
      repeat split; try reflexivity. constructor.
  - inversion Hat as [n' c' Hc]; subst. destruct Hh as (Hh1 & Hh2 & Hh3).
    destruct (Hc s) as [Hnow|[Hs Hlater]].
    + unfold embedding_then in Hnow.
      destruct (collection s) as [c|] eqn:Hcs;
        [destruct (all_embedded W h3 (docs_at W a h1 h2 u)) as [eds|] eqn:Heds|].
      * destruct Hnow as [Hs Hadd]. destruct (write_spec W c eds s) as (_ & W2 & W3).
        exists (Adding h1 h2 u h3 (calls s)), [add_request c eds].
        rewrite Hs, W2, W3, Hcs. cbn [at_stage happened].
        split; [exact Hadd|]. split.
        { split; [now apply sent_at_app|]. split; [now apply sent_at_app|].
          split; [now apply sent_at_app|]. rewrite Heds. apply sent_at_now. }
        repeat split; try reflexivity; try discriminate.
        constructor; [|constructor]. right. right. split; [discriminate|]. right.
        unfold add_request. now repeat eexists.
      * destruct Hnow as [Hs Ht]. exists (Settled h1 h2 u h3 h3), [].
        rewrite Hs, Ht, Hcs, app_nil_r. cbn [at_stage happened].
        split; [reflexivity|]. split.
        { split; [assumption|]. split; [assumption|]. split; [assumption|].
          now rewrite Heds. }
        repeat split; try reflexivity. constructor.
      * destruct Hnow as [Hs Ht]. exists (Settled h1 h2 u h3 h3), [].
        rewrite Hs, Ht, Hcs, app_nil_r. cbn [at_stage happened].
        split; [reflexivity|]. split; [now repeat split|].
        repeat split; try reflexivity. constructor.
    + exists (Embedding h1 h2 u h3), []. rewrite Hs, app_nil_r. cbn [at_stage happened].
      split; [exact Hlater|]. split; [now repeat split|].
      repeat split; try reflexivity; try discriminate. constructor.
  - inversion Hat as [n' c' Hc]; subst. destruct (Hc s) as [Hs Ht].
    exists (Settled h1 h2 u h3 h4), []. rewrite Hs, Ht, app_nil_r. cbn [at_stage happened].
    split; [reflexivity|]. split; [exact Hh|].
    repeat split; try reflexivity. constructor.
  - discriminate.
Qed.

(** ** The loop of [initDBfromCSV] beside its callbacks *)

Lemma map_set_nth {A B} (f : A -> B) x : forall l j,
  map f (set_nth j x l) = set_nth j (f x) (map f l).
Proof. induction l as [|y l IH]; intros [|j]; cbn [set_nth map]; try reflexivity. now rewrite IH. Qed.

Lemma Forall2_set_nth {A B} (R : A -> B -> Prop) l1 l2 :
  Forall2 R l1 l2 ->
  forall j a y, nth_error l1 j = Some a -> R a y -> Forall2 R l1 (set_nth j y l2).
Proof.
  induction 1 as [|a0 b0 l1 l2 H0 H IH]; intros [|j] a y Hj Hy; cbn in Hj; try discriminate.
  - inversion Hj; subst. now constructor.
  - cbn [set_nth]. constructor; [assumption|]. now apply IH with a.
Qed.

Lemma Forall2_nth_error_r {A B} (R : A -> B -> Prop) l1 l2 :
  Forall2 R l1 l2 ->
  forall j y, nth_error l2 j = Some y -> exists a, nth_error l1 j = Some a /\ R a y.
Proof.
  induction 1 as [|a0 b0 l1 l2 H0 H IH]; intros [|j] y Hj; cbn in Hj; try discriminate.
  - inversion Hj; subst. now exists a0.
  - now apply IH.
Qed.

Lemma Forall2_weaken {A B} (R R' : A -> B -> Prop) l1 l2 :
  (forall a b, R a b -> R' a b) -> Forall2 R l1 l2 -> Forall2 R' l1 l2.
Proof. intros HR. induction 1; constructor; auto. Qed.

Lemma unsettled_set_nth {A} (p' : Task A) : forall ps j n c,
  nth_error ps j = Some (Await n c) ->
  unsettled (set_nth j p' ps) + 1 = unsettled ps + (if is_pending p' then 1 else 0).
Proof.
  induction ps as [|p ps IH]; intros [|j] n c Hj; cbn in Hj; try discriminate.
  - inversion Hj; subst. cbn [set_nth]. rewrite !unsettled_cons. cbn [is_pending].
    destruct (is_pending p'); lia.
  - cbn [set_nth]. rewrite !unsettled_cons. specialize (IH j n c Hj). lia.
Qed.

Lemma past_set_nth st' : forall (sts : list Stage) j st,
  nth_error sts j = Some st -> past_fetching st' = true ->
  length (filter past_fetching (set_nth j st' sts))
  = length (filter past_fetching sts) + (if past_fetching st then 0 else 1).
Proof.
  induction sts as [|st0 sts IH]; intros [|j] st Hj Hp; cbn in Hj; try discriminate.
  - inversion Hj; subst. cbn [set_nth filter]. rewrite Hp. destruct (past_fetching st); cbn; lia.
  - cbn [set_nth filter]. specialize (IH j st Hj Hp). destruct (past_fetching st0); cbn; lia.
Qed.

Lemma firstn_slice {A} (l : list A) : forall i,
  firstn i l ++ slice l i (i + BATCH_SIZE) = firstn (i + BATCH_SIZE) l.
Proof.
  intros i. rewrite slice_batch. revert l. induction i as [|i IH]; intros l; [reflexivity|].
  destruct l as [|x l]; [now rewrite !firstn_nil|].
  cbn [firstn skipn app Nat.add]. now rewrite IH.
Qed.

Lemma slice_length {A} (l : list A) i :
  length (slice l i (i + BATCH_SIZE)) = Nat.min BATCH_SIZE (length l - i).
Proof. now rewrite slice_batch, length_firstn, length_skipn. Qed.

Lemma firstn_whole {A} (l : list A) n : length l <= n -> firstn n l = l.
Proof. apply firstn_all2. Qed.

Lemma since_app before new s : calls s = before ++ new -> since before s = new.
Proof.
  intros H. unfold since. rewrite H, skipn_app, skipn_all, Nat.sub_diag. reflexivity.
Qed.

Lemma fetches_app l1 l2 : fetches (l1 ++ l2) = fetches l1 ++ fetches l2.
Proof. unfold fetches. apply flat_map_app. Qed.

Lemma fetches_launch (batch : list Article) :
  fetches (map AxiosGet (map URL batch)) = map URL batch
  /\ filter is_generation (map AxiosGet (map URL batch)) = []
  /\ forall col, Forall (own_request col) (map AxiosGet (map URL batch)).
Proof.
  induction batch as [|a batch (H1 & H2 & H3)]; [repeat split; constructor|].
  cbn [map fetches flat_map app filter is_generation]. repeat split.
  - f_equal. exact H1.
  - exact H2.
  - intros col. constructor; [left; now eexists|apply H3].
Qed.

Lemma at_stage_return W col a st r :
  at_stage W col a st (Return r) ->
  has_settled st = true /\ exists h1 h2 u h3 h4,
    st = Settled h1 h2 u h3 h4 /\ r = Ok (outcome_at W col a h1 h2 u h3 h4).
Proof.
  destruct st as [h1|h1 h2|h1 h2 u h3|h1 h2 u h3 h4|h1 h2 u h3 h4]; cbn [at_stage];
    intros H; try (now inversion H).
  split; [reflexivity|]. exists h1, h2, u, h3, h4. split; [reflexivity|]. now inversion H.
Qed.

Section RunProofs.
Variable W : World.
Variable csvFile : str.
Variable s0 : Store.
Variable dataCSV : list Article.
Hypothesis Hcsv : csv_rows W (calls s0) csvFile = inr dataCSV.

Lemma own_outcome_app l new a r :
  own_outcome W s0 l a r -> own_outcome W s0 (l ++ new) a r.
Proof.
  intros (h1 & h2 & u & h3 & h4 & Hh & Hr). exists h1, h2, u, h3, h4.
  split; [now apply own_requests_at_app|assumption].
Qed.

Lemma stands_app l new a sp : stands W s0 l a sp -> stands W s0 (l ++ new) a sp.
Proof. intros [H1 H2]. split; [assumption|now apply happened_app]. Qed.

Lemma reading_start :
  pending (fst (start (initDBfromCSV W csvFile) s0)) = 1
  /\ snd (start (initDBfromCSV W csvFile) s0) = log_call (ReadCSV (js "./data/" ++ csvFile)) s0
  /\ resume (start (initDBfromCSV W csvFile) s0)
     = loop_config W dataCSV (length dataCSV) 0 []
         (log_call (ReadCSV (js "./data/" ++ csvFile)) s0).
Proof.
  unfold initDBfromCSV. rewrite start_try_catchA, start_bindA, start_await.
  unfold readCSV, request. rewrite Hcsv. cbn [fst snd then_ catching pending].
  repeat split.
Qed.

Lemma loop_config_eq fuel i results s :
  loop_config W dataCSV fuel i results s
  = match fuel with
    | O => (Return (Ok results), s)
    | S fuel' =>
        if i <? length dataCSV
        then batch_config W dataCSV fuel' i results
               (fst (call_each (map (ingest_one W) (slice dataCSV i (i + BATCH_SIZE))) s))
               (snd (call_each (map (ingest_one W) (slice dataCSV i (i + BATCH_SIZE))) s))
        else (Return (Ok results), s)
    end.
Proof.
  unfold loop_config, batch_config. destruct fuel as [|fuel']; [reflexivity|].
  cbn [ingest_loop]. destruct (i <? length dataCSV); [|reflexivity].
  rewrite start_bindA, start_promise_all. cbn [fst snd]. reflexivity.
Qed.

(** The callbacks of a batch when they have been called: the pages are
    requested in the order of the batch, and every callback waits for its
    page. *)
Lemma call_each_launch (batch : list Article) : forall s,
  exists callbacks,
    fst (call_each (map (ingest_one W) batch) s) = map snd callbacks
    /\ snd (call_each (map (ingest_one W) batch) s) = log_calls (map AxiosGet (map URL batch)) s
    /\ Forall2 (stands W s0 (calls s ++ map AxiosGet (map URL batch))) batch callbacks
    /\ filter past_fetching (map fst callbacks) = []
    /\ unsettled (map snd callbacks) = length batch.
Proof.
  induction batch as [|a batch IH]; intros s.
  - exists []. repeat split. constructor.
  - cbn [map call_each].
    destruct (ingest_one_start W (collection s0) a s) as (Hs & Hat).
    destruct (start (ingest_one W a) s) as [p s1]. cbn [fst snd] in Hs, Hat. subst s1.
    destruct (IH (log_call (AxiosGet (URL a)) s)) as (callbacks & H1 & H2 & H3 & H4 & H5).
    destruct (call_each _ _) as [ps s2]. cbn [fst snd] in *. subst ps s2.
    exists ((Fetching (calls s), p) :: callbacks). cbn [map fst snd filter past_fetching].
    repeat split; try assumption.
    + constructor.
      * split; [exact Hat|]. cbn [fst happened].
        exists (map AxiosGet (map URL batch)). reflexivity.
      * cbn [log_call calls] in H3. rewrite <- app_assoc in H3. exact H3.
    + rewrite unsettled_cons, H5.
      destruct p; [cbn [at_stage] in Hat; inversion Hat|reflexivity].
Qed.

Lemma batch_resume fuel i results ps s :
  unsettled ps <> 0 ->
  let c := batch_config W dataCSV fuel i results ps s in
  pending (fst c) = unsettled ps
  /\ snd c = s
  /\ exists j n continue,
       nth_error ps j = Some (Await n continue)
       /\ resume c
          = batch_config W dataCSV fuel i results
              (set_nth j (fst (continue s)) ps) (snd (continue s)).
Proof.
  intros Hu c. subst c. unfold batch_config.
  pose proof (merged_spec W ps) as Hm. pose proof (merged_unsettled W ps Hu) as Hp.
  destruct (merged W ps) as [rs|m F]; [discriminate|].
  destruct Hm as [-> HF]. cbn [then_ catching fst snd pending]. repeat split.
  destruct (HF s) as (j & n & continue & Hj & Hs). exists j, n, continue.
  split; [exact Hj|]. unfold resume. cbn [fst snd]. rewrite Hs. reflexivity.
Qed.

Lemma batch_settled fuel i results ps s rs :
  unsettled ps = 0 ->
  fold_right cons_results (Ok []) (flat_map result_of ps) = Ok rs ->
  batch_config W dataCSV fuel i results ps s
  = loop_config W dataCSV fuel (i + BATCH_SIZE) (results ++ rs) s.
Proof.
  intros Hu Hrs. unfold batch_config, loop_config. rewrite (merged_settled W ps Hu), Hrs.
  reflexivity.
Qed.

Lemma settled_results l batch callbacks :
  Forall2 (stands W s0 l) batch callbacks ->
  unsettled (map snd callbacks) = 0 ->
  exists rs,
    fold_right cons_results (Ok []) (flat_map result_of (map snd callbacks)) = Ok rs
    /\ Forall2 (own_outcome W s0 l) batch rs
    /\ length (filter past_fetching (map fst callbacks)) = length batch.
Proof.
  induction 1 as [|a [st p] batch callbacks [Hat Hh] H IH]; intros Hu.
  - exists []. repeat split. constructor.
  - cbn [map snd fst] in *. rewrite unsettled_cons in Hu.
    destruct p as [r|n c]; cbn [is_pending] in Hu; [|discriminate].
    destruct (IH Hu) as (rs & H1 & H2 & H3).
    destruct (at_stage_return _ _ _ _ _ Hat) as (_ & h1 & h2 & u & h3 & h4 & -> & ->).
    exists (outcome_at W (collection s0) a h1 h2 u h3 h4 :: rs).
    cbn [flat_map result_of app fold_right filter past_fetching length]. rewrite H1, H3.
    repeat split. constructor; [|assumption]. now exists h1, h2, u, h3, h4.
Qed.

(** The loop when it is entered at the start of batch [k]. *)
Lemma loop_enter fuel k results s :
  length dataCSV <= k * BATCH_SIZE + fuel ->
  Forall2 (own_outcome W s0 (calls s)) (firstn (k * BATCH_SIZE) dataCSV) results ->
  progress csvFile s0 dataCSV (k * BATCH_SIZE) (Nat.min (k * BATCH_SIZE) (length dataCSV)) s ->
  let c := loop_config W dataCSV fuel (k * BATCH_SIZE) results s in
  run_state W csvFile s0 dataCSV c
  /\ exists new,
       calls (snd c) = calls s ++ new
       /\ ((new = [] /\ fst c = Return (Ok results))
           \/ (new = map AxiosGet
                       (map URL (slice dataCSV (k * BATCH_SIZE) (k * BATCH_SIZE + BATCH_SIZE)))
               /\ k * BATCH_SIZE < length dataCSV
               /\ pending (fst c) = length new)).
Proof.
  intros Hfuel Hres (Hc & Hdb & new & Hcalls & Hf & Hg & Hown) c. subst c.
  rewrite loop_config_eq.
  assert (Hdone : length dataCSV <= k * BATCH_SIZE ->
                  run_state W csvFile s0 dataCSV (Return (Ok results), s)).
  { intros Hle. constructor.
    - now rewrite (firstn_whole _ _ Hle) in Hres.
    - split; [assumption|]. split; [assumption|]. exists new.
      rewrite firstn_all. rewrite (firstn_whole _ _ Hle) in Hf.
      rewrite Nat.min_r in Hg by assumption. now repeat split. }
  destruct fuel as [|fuel].
  - split; [apply Hdone; lia|]. exists []. rewrite app_nil_r. split; [reflexivity|]. now left.
  - destruct (k * BATCH_SIZE <? length dataCSV) eqn:Hlt.
    + apply Nat.ltb_lt in Hlt.
      set (batch := slice dataCSV (k * BATCH_SIZE) (k * BATCH_SIZE + BATCH_SIZE)) in *.
      destruct (call_each_launch batch s) as (callbacks & H1 & H2 & H3 & H4 & H5).
      rewrite H1, H2.
      assert (Hlen : length batch <> 0).
      { unfold batch. rewrite slice_length. unfold BATCH_SIZE in *. lia. }
      destruct (fetches_launch batch) as (F1 & F2 & F3).
      destruct (batch_resume fuel (k * BATCH_SIZE) results (map snd callbacks)
                  (log_calls (map AxiosGet (map URL batch)) s)) as (P1 & P2 & _);
        [now rewrite H5|].
      split.
      * apply run_batch.
        -- assumption.
        -- unfold BATCH_SIZE in *. lia.
        -- rewrite log_calls_calls. eapply Forall2_weaken; [|exact Hres].
           intros a r. apply own_outcome_app.
        -- now rewrite log_calls_calls.
        -- now rewrite H5.
        -- destruct (log_calls_spec (map AxiosGet (map URL batch)) s) as (L1 & L2 & L3 & _).
           split; [now rewrite L1|]. split; [intros Hn; rewrite L2; now apply Hdb|].
           exists (new ++ map AxiosGet (map URL batch)). rewrite L3, Hcalls.
           repeat split.
           ++ now rewrite <- app_assoc.
           ++ rewrite fetches_app, Hf, F1, <- map_app. unfold batch. now rewrite firstn_slice.
           ++ rewrite filter_app, F2, app_nil_r, H4, Hg, Nat.min_l; cbn [length]; lia.
           ++ apply Forall_app. split; [assumption|apply F3].
      * exists (map AxiosGet (map URL batch)). rewrite P2, log_calls_calls.
        split; [reflexivity|]. right. split; [reflexivity|]. split; [assumption|].
        rewrite P1, H5. now rewrite !length_map.
    + apply Nat.ltb_ge in Hlt. split; [now apply Hdone|]. exists []. rewrite app_nil_r.
      split; [reflexivity|]. now left.
Qed.

End RunProofs.

Section RunSteps.
Variable W : World.
Variable csvFile : str.
Variable s0 : Store.
Variable dataCSV : list Article.
Hypothesis Hcsv : csv_rows W (calls s0) csvFile = inr dataCSV.

(** One step of the run while it awaits a batch: a callback of the batch
    continues; when this was the last one to settle, the loop goes on and
    the next batch, if there is one, is called. *)
Lemma batch_step fuel k results callbacks s :
  k * BATCH_SIZE < length dataCSV ->
  length dataCSV <= k * BATCH_SIZE + BATCH_SIZE + fuel ->
  Forall2 (own_outcome W s0 (calls s)) (firstn (k * BATCH_SIZE) dataCSV) results ->
  Forall2 (stands W s0 (calls s))
    (slice dataCSV (k * BATCH_SIZE) (k * BATCH_SIZE + BATCH_SIZE)) callbacks ->
  unsettled (map snd callbacks) <> 0 ->
  progress csvFile s0 dataCSV (k * BATCH_SIZE + BATCH_SIZE)
    (k * BATCH_SIZE + length (filter past_fetching (map fst callbacks))) s ->
  let c := batch_config W dataCSV fuel (k * BATCH_SIZE) results (map snd callbacks) s in
  run_state W csvFile s0 dataCSV (resume c)
  /\ exists new,
       calls (snd (resume c)) = calls s ++ new
       /\ (fetches new = []
           \/ (new = map AxiosGet
                       (map URL (slice dataCSV (S k * BATCH_SIZE) (S k * BATCH_SIZE + BATCH_SIZE)))
               /\ unsettled (map snd callbacks) = 1
               /\ length (filter past_fetching (map fst callbacks)) = BATCH_SIZE
               /\ pending (fst (resume c)) = length new)).
Proof.
  intros Hk Hfuel Hres Hst Hu Hp c. subst c.
  destruct (batch_resume W dataCSV fuel (k * BATCH_SIZE) results _ s Hu)
    as (_ & _ & j & n & continue & Hj & ->).
  pose proof Hj as Hj0.
  rewrite nth_error_map in Hj. destruct (nth_error callbacks j) as [[st p]|] eqn:Hj'; [|discriminate].
  cbn in Hj. inversion Hj; subst p. clear Hj.
  destruct (Forall2_nth_error_r _ _ _ Hst j _ Hj') as (a & Ha & [Hat Hh]). cbn [fst snd] in Hat, Hh.
  destruct Hp as (Hc & Hdb & new & Hcalls & Hf & Hg & Hown).
  destruct (callback_resume W _ a st n continue s Hat Hc Hh)
    as (st' & new0 & Hat' & Hh' & Hc' & Hcalls' & Hdb' & Hf0 & Hg0 & Hpast & Hown0 & Hset).
  set (p' := fst (continue s)) in *. set (s' := snd (continue s)) in *.
  replace (set_nth j p' (map snd callbacks)) with (map snd (set_nth j (st', p') callbacks))
    by now rewrite map_set_nth.
  assert (Hst' : Forall2 (stands W s0 (calls s'))
                   (slice dataCSV (k * BATCH_SIZE) (k * BATCH_SIZE + BATCH_SIZE))
                   (set_nth j (st', p') callbacks)).
  { rewrite Hcalls'. apply Forall2_set_nth with a; [|assumption|now split].
    eapply Forall2_weaken; [|exact Hst]. intros a0 sp. apply stands_app. }
  assert (Hres' : Forall2 (own_outcome W s0 (calls s')) (firstn (k * BATCH_SIZE) dataCSV) results).
  { rewrite Hcalls'. eapply Forall2_weaken; [|exact Hres]. intros a0 r. apply own_outcome_app. }
  assert (Hcount : length (filter past_fetching (map fst (set_nth j (st', p') callbacks)))
                   = length (filter past_fetching (map fst callbacks))
                     + (if past_fetching st then 0 else 1)).
  { rewrite map_set_nth. cbn [fst]. apply past_set_nth; [|assumption].
    now rewrite nth_error_map, Hj'. }
  assert (Hp' : progress csvFile s0 dataCSV (k * BATCH_SIZE + BATCH_SIZE)
                  (k * BATCH_SIZE
                   + length (filter past_fetching (map fst (set_nth j (st', p') callbacks)))) s').
  { split; [congruence|]. split.
    - intros Hn. rewrite Hdb' by assumption. now apply Hdb.
    - exists (new ++ new0). rewrite Hcalls', Hcalls. repeat split.
      + now rewrite <- app_assoc.
      + now rewrite fetches_app, Hf, Hf0, app_nil_r.
      + rewrite filter_app, length_app, Hg, Hg0, Hcount. lia.
      + apply Forall_app. now split. }
  pose proof (unsettled_set_nth p' (map snd callbacks) j n continue Hj0) as Hun.
  replace (set_nth j p' (map snd callbacks)) with (map snd (set_nth j (st', p') callbacks)) in Hun
    by now rewrite map_set_nth.
  destruct (unsettled (map snd (set_nth j (st', p') callbacks))) as [|m] eqn:Hzero.
  - destruct (settled_results W s0 _ _ _ Hst' Hzero) as (rs & Hrs & Hout & Hlen).
    rewrite (batch_settled W dataCSV fuel (k * BATCH_SIZE) results _ s' rs Hzero Hrs).
    assert (Hp'0 : is_pending p' = false /\ unsettled (map snd callbacks) = 1).
    { destruct (is_pending p'); lia. }
    destruct Hp'0 as [Hp'0 Hone].
    assert (Hnew0 : new0 = []).
    { apply Hset. destruct p' as [r|]; [|discriminate].
      now destruct (at_stage_return _ _ _ _ _ Hat'). }
    subst new0. cbn [filter length] in Hg0.
    assert (Hpast0 : past_fetching st = true) by (destruct (past_fetching st); [reflexivity|discriminate]).
    rewrite Hpast0, Nat.add_0_r in Hcount.
    rewrite slice_length in Hlen.
    replace (k * BATCH_SIZE + BATCH_SIZE) with (S k * BATCH_SIZE) in * by (unfold BATCH_SIZE; lia).
    destruct (loop_enter W csvFile s0 dataCSV fuel (S k) (results ++ rs) s') as (Hrun & new1 & Hc1 & Hcase).
    + assumption.
    + replace (S k * BATCH_SIZE) with (k * BATCH_SIZE + BATCH_SIZE) in *
        by (unfold BATCH_SIZE; lia).
      rewrite <- firstn_slice. now apply Forall2_app.
    + rewrite Hlen in Hp'.
      replace (Nat.min (S k * BATCH_SIZE) (length dataCSV))
        with (k * BATCH_SIZE + Nat.min BATCH_SIZE (length dataCSV - k * BATCH_SIZE))
        by (unfold BATCH_SIZE in *; lia).
      exact Hp'.
    + split; [exact Hrun|]. exists new1. rewrite Hc1, Hcalls', app_nil_r.
      split; [reflexivity|].
      destruct Hcase as [[-> _]|(-> & Hlt & Hpend)]; [now left|right].
      repeat split; try assumption.
      rewrite <- Hcount, Hlen. unfold BATCH_SIZE in *. lia.
  - split.
    + apply run_batch; try assumption. rewrite Hzero. discriminate.
    + exists new0. split; [|now left].
      destruct (batch_resume W dataCSV fuel (k * BATCH_SIZE) results
                  (map snd (set_nth j (st', p') callbacks)) s') as (_ & -> & _);
        [rewrite Hzero; discriminate|assumption].
Qed.

(** One step of the run. *)
Lemma run_step c :
  run_state W csvFile s0 dataCSV c ->
  run_state W csvFile s0 dataCSV (resume c)
  /\ pending (fst c) <= BATCH_SIZE
  /\ exists k new,
       fetches (since (calls s0) (snd c)) = map URL (firstn (k * BATCH_SIZE) dataCSV)
       /\ calls (snd (resume c)) = calls (snd c) ++ new
       /\ (fetches new = []
           \/ (new = map AxiosGet
                       (map URL (slice dataCSV (k * BATCH_SIZE) (k * BATCH_SIZE + BATCH_SIZE)))
               /\ pending (fst c) = 1
               /\ length (filter is_generation (since (calls s0) (snd c))) = k * BATCH_SIZE
               /\ pending (fst (resume c)) = length new)).
Proof.
  intros [|fuel k results callbacks s Hk Hfuel Hres Hst Hu Hp|results s Hres Hp].
  - destruct (reading_start W csvFile s0 dataCSV Hcsv) as (P1 & P2 & ->).
    rewrite P1, P2.
    destruct (loop_enter W csvFile s0 dataCSV (length dataCSV) 0 []
                (log_call (ReadCSV (js "./data/" ++ csvFile)) s0)) as (Hrun & new & Hc & Hcase).
    + cbn. lia.
    + constructor.
    + split; [reflexivity|]. split; [reflexivity|]. exists []. repeat split. constructor.
    + split; [exact Hrun|]. split; [unfold BATCH_SIZE; lia|]. exists 0, new.
      rewrite (since_app (calls s0) [ReadCSV (js "./data/" ++ csvFile)]) by reflexivity.
      split; [reflexivity|]. split; [exact Hc|].
      destruct Hcase as [[-> _]|(-> & Hlt & Hpend)]; [now left|right]. now repeat split.
  - destruct (batch_resume W dataCSV fuel (k * BATCH_SIZE) results _ s Hu) as (P1 & P2 & _).
    destruct (batch_step fuel k results callbacks s Hk Hfuel Hres Hst Hu Hp)
      as (Hrun & new & Hc & Hcase).
    split; [exact Hrun|]. rewrite P1, P2. split.
    + pose proof (unsettled_le (map snd callbacks)) as Hle. rewrite length_map in Hle.
      rewrite <- (Forall2_length Hst), slice_length in Hle. lia.
    + destruct Hp as (_ & _ & sent & Hcalls & Hf & Hg & _).
      exists (S k), new.
      rewrite (since_app (calls s0) (ReadCSV (js "./data/" ++ csvFile) :: sent)) by assumption.
      replace (S k * BATCH_SIZE) with (k * BATCH_SIZE + BATCH_SIZE) by (unfold BATCH_SIZE; lia).
      split; [exact Hf|]. split; [exact Hc|].
      destruct Hcase as [Hnone|(-> & Hone & Hfull & Hpend)]; [now left|right].
      replace (S k * BATCH_SIZE) with (k * BATCH_SIZE + BATCH_SIZE) in * by (unfold BATCH_SIZE; lia).
      repeat split; try assumption.
      cbn [filter is_generation]. rewrite Hg, Hfull. reflexivity.
  - split; [now constructor|]. split; [cbn; lia|].
    destruct Hp as (_ & _ & sent & Hcalls & Hf & Hg & _).
    exists (length dataCSV), [].
    rewrite (since_app (calls s0) (ReadCSV (js "./data/" ++ csvFile) :: sent)) by assumption.
    rewrite app_nil_r. split; [|split; [reflexivity|now left]].
    cbn [fetches flat_map app]. fold (fetches sent). rewrite Hf, firstn_all.
    rewrite firstn_whole; [reflexivity|]. unfold BATCH_SIZE. lia.
Qed.

Lemma run_config n : run_state W csvFile s0 dataCSV (config (initDBfromCSV W csvFile) s0 n).
Proof.
  unfold config. induction n as [|n IH]; [constructor|].
  rewrite Nat.iter_succ. now apply run_step.
Qed.

(** A run that has settled has returned, with the outcome of every
    article. *)
Lemma run_settled c :
  run_state W csvFile s0 dataCSV c ->
  is_pending (fst c) = false ->
  exists results,
    c = (Return (Ok results), snd c)
    /\ Forall2 (own_outcome W s0 (calls (snd c))) dataCSV results
    /\ progress csvFile s0 dataCSV (length dataCSV) (length dataCSV) (snd c).
Proof.
  intros [|fuel k results callbacks s Hk Hfuel Hres Hst Hu Hp|results s Hres Hp] Hpend.
  - destruct (reading_start W csvFile s0 dataCSV Hcsv) as (P1 & _).
    destruct (fst (start (initDBfromCSV W csvFile) s0)); [discriminate P1|discriminate Hpend].
  - destruct (batch_resume W dataCSV fuel (k * BATCH_SIZE) results _ s Hu) as (P1 & _).
    destruct (fst (batch_config W dataCSV fuel (k * BATCH_SIZE) results (map snd callbacks) s));
      [cbn in P1; congruence|discriminate Hpend].
  - exists results. split; [reflexivity|split; assumption].
Qed.

End RunSteps.

(** A function called and resumed again and again settles, with what it
    returns when it is awaited with nothing else running. *)
Lemma iter_settles {A} : forall (t : Task A) s,
  exists n, Nat.iter n resume (t, s) = (Return (fst (finish t s)), snd (finish t s)).
Proof.
  induction t as [r|k continue IH] using Task_induction; intros s; [now exists 0|].
  destruct (IH s (snd (continue s))) as [n Hn]. exists (S n).
  rewrite Nat.iter_succ_r. unfold resume at 2. cbn [fst snd finish].
  destruct (continue s) as [t1 s1]. exact Hn.
Qed.

Lemma config_settles {A} (m : Async A) s :
  exists n, config m s n = (Return (fst (m s)), snd (m s)).
Proof.
  unfold config, alone. destruct (start m s) as [t s1]. apply iter_settles.
Qed.

(** ** The URL pattern of the [/agent] handler *)

Lemma startsWith_app p t : startsWith p (p ++ t) = true.
Proof. induction p as [|x p IH]; simpl; [reflexivity|]. now rewrite N.eqb_refl. Qed.

Lemma startsWith_inv p : forall s, startsWith p s = true -> s = p ++ skipn (length p) s.
Proof.
  induction p as [|x p IH]; intros [|y s]; simpl; try discriminate; try reflexivity.
  intros H. apply andb_prop in H as [Hx Hp]. apply N.eqb_eq in Hx. subst y.
  f_equal. apply IH, Hp.
Qed.

Lemma skipn_scheme (p t : str) : skipn (length p) (p ++ t) = t.
Proof. induction p; simpl; auto. Qed.

Lemma non_space_prefix_split s :
  exists tail,
    s = non_space_prefix s ++ tail
    /\ Forall (fun c => isWhiteSpace c = false) (non_space_prefix s)
    /\ (tail = [] \/ exists c rest, tail = c :: rest /\ isWhiteSpace c = true).
Proof.
  induction s as [|c s (tail & Hs & Hall & Htail)]; simpl.
  - exists []. repeat split; auto.
  - destruct (isWhiteSpace c) eqn:Hc.
    + exists (c :: s). repeat split; eauto.
    + exists tail. simpl. repeat split; auto. now f_equal.
Qed.

(** A match at the head of [s] is a URL-shaped prefix of [s] that runs up
    to the next white space. *)
Lemma url_at_some s m :
  url_at s = Some m ->
  exists post,
    s = m ++ post /\ url_shaped m
    /\ (post = [] \/ exists c rest, post = c :: rest /\ isWhiteSpace c = true).
Proof.
  unfold url_at.
  assert (Hone : forall scheme,
             scheme = js "http://" \/ scheme = js "https://" ->
             (if startsWith scheme s
              then match non_space_prefix (skipn (length scheme) s) with
                   | [] => None
                   | rest => Some (scheme ++ rest)
                   end
              else None) = Some m ->
             exists post, s = m ++ post /\ url_shaped m
               /\ (post = [] \/ exists c rest, post = c :: rest /\ isWhiteSpace c = true)).
  { intros scheme Hscheme. destruct (startsWith scheme s) eqn:Hsw; [|discriminate].
    apply startsWith_inv in Hsw.
    destruct (non_space_prefix_split (skipn (length scheme) s)) as (tail & Hs & Hall & Htail).
    destruct (non_space_prefix (skipn (length scheme) s)) as [|c body] eqn:Hb; [discriminate|].
    intros H. injection H as <-. exists tail. repeat split; auto.
    - rewrite <- app_assoc, <- Hs. exact Hsw.
    - exists scheme, (c :: body). repeat split; auto. discriminate. }
  destruct (if startsWith (js "https://") s then _ else None) as [m'|] eqn:E.
  - intros H. injection H as <-. apply (Hone (js "https://")); auto.
  - apply (Hone (js "http://")); auto.
Qed.

(** No match at the head of [s]: no prefix of [s] is URL-shaped. *)
Lemma url_at_none s u tail : url_at s = None -> s = u ++ tail -> ~ url_shaped u.
Proof.
  intros Hnone -> (scheme & body & Hscheme & -> & Hbody & Hall).
  destruct body as [|c body]; [contradiction|].
  inversion Hall as [|? ? Hc _]; subst.
  revert Hnone. unfold url_at. rewrite <- !app_assoc.
  destruct Hscheme as [-> | ->].
  - change (startsWith (js "https://") (js "http://" ++ (c :: body) ++ tail)) with false.
    cbv iota. rewrite startsWith_app, skipn_scheme. simpl. rewrite Hc. discriminate.
  - rewrite startsWith_app, skipn_scheme. simpl. rewrite Hc. discriminate.
Qed.

Lemma scan_urls_head s :
  match scan_urls 0 s with
  | [] => forall pre t, s = pre ++ t -> url_at t = None
  | url :: _ => first_url s url
  end.
Proof.
  induction s as [|c s IH].
  - simpl. intros pre t H. symmetry in H. apply app_eq_nil in H as [_ ->]. reflexivity.
  - cbn [scan_urls]. destruct (url_at (c :: s)) as [m|] eqn:Hat.
    + destruct (url_at_some _ _ Hat) as (post & Hs & Hshape & Hpost).
      exists [], post. repeat split; auto.
      intros p1 p2 u tail Hpre Hne. symmetry in Hpre.
      apply app_eq_nil in Hpre as [_ ->]. contradiction.
    + destruct (scan_urls 0 s) as [|url rest].
      * intros [|x pre] t H; simpl in H.
        -- now subst t.
        -- injection H as _ H. eapply IH, H.
      * destruct IH as (pre & post & Hs & Hshape & Hpost & Hleft).
        exists (c :: pre), post. repeat split; auto.
        -- simpl. now f_equal.
        -- intros [|x p1] p2 u tail Hpre Hne Hu; simpl in Hpre.
           ++ subst p2. eapply url_at_none; [exact Hat|].
              rewrite <- Hu. simpl. now rewrite <- Hs.
           ++ injection Hpre as _ Hpre. eapply Hleft; eauto.
Qed.

Lemma match_urlRegex_none query : match_urlRegex query = None <-> ~ contains_url query.
Proof.
  unfold match_urlRegex. pose proof (scan_urls_head query) as H.
  destruct (scan_urls 0 query) as [|url rest]; split.
  - intros _ (pre & u & post & Hq & Hshape).
    eapply url_at_none; [|reflexivity|exact Hshape]. eapply H, Hq.
  - reflexivity.
  - discriminate.
  - intros Hno. exfalso. apply Hno. destruct H as (pre & post & Hq & Hshape & _).
    now exists pre, url, post.
Qed.

Lemma match_urlRegex_some query urls :
  match_urlRegex query = Some urls ->
  exists url rest, urls = url :: rest /\ first_url query url.
Proof.
  unfold match_urlRegex. pose proof (scan_urls_head query) as H.
  destruct (scan_urls 0 query) as [|url rest]; [discriminate|].
  intros E. injection E as <-. eauto.
Qed.

(** ** The claims about the document store *)

Lemma queryDocuments_calls W queryText topK s :
  exists l,
    calls (snd (queryDocuments W queryText topK s)) = calls s ++ l
    /\ Forall (fun c => forall url, c <> AxiosGet url) l.
Proof.
  rewrite queryDocuments_run. cbv zeta.
  destruct (collection s) as [c|].
  2:{ exists []. simpl. now rewrite app_nil_r. }
  destruct (embedContent W _ _ queryText) as [emb|].
  2:{ exists [embedding_request queryText]. split; [reflexivity|].
      constructor; [discriminate|constructor]. }
  exists [embedding_request queryText; query_request c emb (match topK with Some k => k | None => 5%Z end)].
  split.
  - destruct (chroma_fault W _ _); simpl; now rewrite <- app_assoc.
  - constructor; [discriminate|constructor; [discriminate|constructor]].
Qed.

(** C4. A query that contains a URL-shaped substring is answered from the
    page behind the first such URL: the context is the composed content
    [scrapeArticle] returns for it, and the fetch is the only request sent, so
    the index is not queried.  A query without a URL-shaped substring is
    answered by [queryDocuments] with [topK = 7], the contents of the returned
    documents joined by the separator of three line feeds, and no fetch is
    sent. *)
Theorem retrieval_routing W query s :
  (contains_url query ->
   exists url,
     first_url query url
     /\ answerContext W query s
        = (Ok (art_content (scraped W (calls s) url)), log_call (AxiosGet url) s))
  /\ (~ contains_url query ->
      answerContext W query s
      = (match fst (queryDocuments W query (Some 7%Z) s) with
         | Ok chunks => Ok (join (nl ++ nl ++ nl) (map doc_content chunks))
         | Throw e => Throw e
         end, snd (queryDocuments W query (Some 7%Z) s))
      /\ exists l,
           calls (snd (answerContext W query s)) = calls s ++ l
           /\ Forall (fun c => forall url, c <> AxiosGet url) l).
Proof.
  split.
  - intros Hurl. unfold answerContext.
    destruct (match_urlRegex query) as [urls|] eqn:E.
    + destruct (match_urlRegex_some _ _ E) as (url & rest & -> & Hfirst).
      exists url. split; [exact Hfirst|].
      unfold bind. rewrite scrapeArticle_run. reflexivity.
    + apply match_urlRegex_none in E. contradiction.
  - intros Hno. apply match_urlRegex_none in Hno.
    assert (E : answerContext W query s
                = (match fst (queryDocuments W query (Some 7%Z) s) with
                   | Ok chunks => Ok (join (nl ++ nl ++ nl) (map doc_content chunks))
                   | Throw e => Throw e
                   end, snd (queryDocuments W query (Some 7%Z) s))).
    { unfold answerContext. rewrite Hno. unfold bind.
      destruct (queryDocuments W query (Some 7%Z) s) as [[chunks|e] s']; reflexivity. }
    split; [exact E|]. rewrite E. cbn [snd]. apply queryDocuments_calls.
Qed.

(** C6. With the collection set, [queryDocuments(text, topK)] embeds the
    text, then asks the collection for [topK] neighbours of that one
    embedding, [topK] being 5 when the argument is omitted.  When the answer
    holds [ids], [documents], [embeddings] and [metadatas], each with a first
    row, the call returns one record per id of the first row, in the order
    of the answer, each built from the same position of the other rows:
    the id, the text or the empty string, the embedding, the metadata.  When
    the answer lacks one of the four fields the call throws "Invalid response
    structure".  The collection queried is the one of the handle: after a
    successful [initializeCollection] that is the collection whose name was
    requested from the index with the cosine space. *)
Theorem queryDocuments_contract W csvFile queryText topK s c queryEmbedding :
  collection s = Some c ->
  embedContent W (calls s) (js "embedding-001") queryText = Some queryEmbedding ->
  chroma_fault W (calls s ++ [embedding_request queryText])
    (query_request c queryEmbedding (match topK with Some k => k | None => 5%Z end)) = None ->
  let k := match topK with Some k => k | None => 5%Z end in
  let results :=
    chroma_query W (calls s ++ [embedding_request queryText])
      (rows_in (col_name c) (chroma s)) [queryEmbedding] k in
  let s' :=
    log_call (CollectionQuery (col_name c) [queryEmbedding] k
                [js "documents"; js "metadatas"; js "embeddings"])
      (log_call (EmbedContent (js "embedding-001") queryText) s) in
  snd (queryDocuments W queryText topK s) = s'
  /\ queryDocuments W queryText None s = queryDocuments W queryText (Some 5%Z) s
  /\ (forall id_row document_row embedding_row metadata_row,
        first_of (q_ids results) = Some id_row ->
        first_of (q_documents results) = Some document_row ->
        first_of (q_embeddings results) = Some embedding_row ->
        first_of (q_metadatas results) = Some metadata_row ->
        queryDocuments W queryText topK s
        = (Ok (records_from document_row embedding_row metadata_row 0 id_row), s'))
  /\ (q_ids results = None \/ q_documents results = None
      \/ q_embeddings results = None \/ q_metadatas results = None ->
      queryDocuments W queryText topK s
      = (Throw (Error (js "Invalid response structure")), s'))
  /\ (forall name s0 s1,
        initializeCollection W csvFile name s0 = (Ok tt, s1) ->
        (exists rest,
           calls s1
           = calls s0
             ++ GetOrCreateCollection name [(js "hnsw:space", MStr (js "cosine"))] :: rest)
        /\ forall text n embedding,
             embedContent W (calls s1) (js "embedding-001") text = Some embedding ->
             calls (snd (queryDocuments W text (Some n) s1))
             = calls s1
               ++ [EmbedContent (js "embedding-001") text;
                   CollectionQuery name [embedding] n
                     [js "documents"; js "metadatas"; js "embeddings"]]).
Proof.
  intros Hc Hemb Hfault. cbv zeta.
  assert (Hrun : queryDocuments W queryText topK s
                 = (reconstitute
                      (chroma_query W (calls s ++ [embedding_request queryText])
                         (rows_in (col_name c) (chroma s)) [queryEmbedding]
                         (match topK with Some k => k | None => 5%Z end)),
                    log_call (CollectionQuery (col_name c) [queryEmbedding]
                                (match topK with Some k => k | None => 5%Z end)
                                [js "documents"; js "metadatas"; js "embeddings"])
                      (log_call (EmbedContent (js "embedding-001") queryText) s))).
  { rewrite queryDocuments_run. cbv zeta. rewrite Hc, Hemb. cbn [calls log_call].
    rewrite Hfault. reflexivity. }
  split; [now rewrite Hrun|]. split; [rewrite !queryDocuments_run; reflexivity|].
  split; [|split].
  - intros id_row dr er mr Hi Hd He Hm. rewrite Hrun.
    now rewrite (reconstitute_rows _ _ _ _ _ Hi Hd He Hm).
  - intros Hmissing. rewrite Hrun. now rewrite (reconstitute_missing _ Hmissing).
  - intros name s0 s1. rewrite initializeCollection_run. cbv zeta.
    destruct (chroma_fault W _ (GetOrCreateCollection _ _)); [discriminate|].
    pose proof (get_or_create_name name cosine_space (chroma s0)) as Hname.
    destruct (get_or_create name cosine_space (chroma s0)) as [c0 db]. cbn [fst] in Hname.
    destruct (chroma_fault W _ CountCollections); [discriminate|].
    intros H. injection H as <-. split.
    + exists [CountCollections]. cbn [calls log_call set_collection set_chroma].
      now rewrite <- app_assoc.
    + intros text n embedding Hemb'. rewrite queryDocuments_run. cbv zeta.
      cbn [collection log_call set_collection]. rewrite Hemb'. unfold query_request.
      rewrite Hname.
      match goal with
      | |- context [match ?fault with Some _ => _ | None => _ end] => destruct fault
      end; cbn [snd calls log_call set_collection set_chroma]; now rewrite <- !app_assoc.
Qed.

(** C7, as the code has it.  While [this.collection] is [null], that is until
    some call of [initializeCollection] has got the collection from the index,
    each of [addDocuments], [queryDocuments], [updateDocument] and
    [deleteDocuments] throws the error "Collection is not initialized" at
    once: the store is left as it was, so neither the embedding provider nor
    the index has been contacted.  No operation throws this error in any
    other situation, and it differs from the errors of the provider and of
    the index. *)
Theorem uninitialized_guard W s :
  collection s = None ->
  let guard := Error (js "Collection is not initialized") in
  (forall documents, addDocuments W documents s = (Throw guard, s))
  /\ (forall queryText topK, queryDocuments W queryText topK s = (Throw guard, s))
  /\ (forall document, updateDocument W document s = (Throw guard, s))
  /\ (forall ids, deleteDocuments W ids s = (Throw guard, s))
  /\ (forall t e t',
        (exists documents, addDocuments W documents t = (Throw e, t'))
        \/ (exists queryText topK, queryDocuments W queryText topK t = (Throw e, t'))
        \/ (exists document, updateDocument W document t = (Throw e, t'))
        \/ (exists ids, deleteDocuments W ids t = (Throw e, t')) ->
        e = guard -> collection t = None)
  /\ (forall message, guard <> ChromaError message)
  /\ guard <> Error (js "Failed to generate embedding")
  /\ guard <> Error (js "Invalid response structure").
Proof.
  intros Hnone guard. repeat split; try discriminate.
  - intros documents. rewrite addDocuments_run, Hnone. reflexivity.
  - intros queryText topK. rewrite queryDocuments_run. cbv zeta. rewrite Hnone. reflexivity.
  - intros document. destruct (updateDocument_run W document s) as (db & ->).
    rewrite Hnone. reflexivity.
  - intros ids. rewrite deleteDocuments_run, Hnone. reflexivity.
  - intros t e t' Hop ->. destruct (collection t) as [c|] eqn:Hc; [exfalso|reflexivity].
    destruct Hop as [(documents & H)|[(queryText & topK & H)|[(document & H)|(ids & H)]]].
    + rewrite addDocuments_run, Hc in H. cbv zeta in H.
      destruct (all_embedded W _ documents); [|discriminate].
      destruct (chroma_fault W _ _); discriminate.
    + rewrite queryDocuments_run in H. cbv zeta in H. rewrite Hc in H.
      destruct (embedContent W _ _ queryText); [|discriminate].
      destruct (chroma_fault W _ _); [discriminate|].
      injection H as H _. apply reconstitute_error in H as [H|(message & H)]; discriminate.
    + destruct (updateDocument_run W document t) as (db & E). rewrite E, Hc in H.
      destruct (chroma_fault W _ _); discriminate.
    + rewrite deleteDocuments_run, Hc in H.
      destruct (chroma_fault W _ _); discriminate.
Qed.

(** C10, as the code has it.  For an answer in which [ids], [documents],
    [embeddings] and [metadatas] are present and have a first row, the map
    over the ids of the first row does not throw and returns one record per
    id: the id as returned, the document text at the same position or the
    empty string when that text is [null] or missing, and the embedding and
    the metadata at the same position as they are. *)
Theorem reconstitute_total results id_row document_row embedding_row metadata_row :
  first_of (q_ids results) = Some id_row ->
  first_of (q_documents results) = Some document_row ->
  first_of (q_embeddings results) = Some embedding_row ->
  first_of (q_metadatas results) = Some metadata_row ->
  exists docs,
    reconstitute results = Ok docs
    /\ length docs = length id_row
    /\ forall i id,
         nth_error id_row i = Some id ->
         exists d,
           nth_error docs i = Some d
           /\ doc_id d = id
           /\ doc_embedding d = nth_error embedding_row i
           /\ doc_metadata d = match nth_error metadata_row i with
                               | Some (Some m) => Some m
                               | _ => None
                               end
           /\ (nth_error document_row i = None \/ nth_error document_row i = Some None ->
               doc_content d = [])
           /\ (forall text, nth_error document_row i = Some (Some text) ->
               doc_content d = text).
Proof.
  intros Hi Hd He Hm.
  exists (records_from document_row embedding_row metadata_row 0 id_row).
  split; [now apply reconstitute_rows|]. split; [apply records_from_length|].
  intros i id Hid. eexists. split; [apply records_from_nth, Hid|].
  cbn [Nat.add record_at doc_id doc_embedding doc_metadata doc_content].
  repeat split.
  - intros [-> | ->]; reflexivity.
  - intros text ->. reflexivity.
Qed.


(** ** The claims about ingestion *)

Lemma outcome_at_url W col a h1 h2 u h3 h4 :
  res_url (outcome_at W col a h1 h2 u h3 h4) = URL a.
Proof.
  unfold outcome_at. destruct col as [c|]; [|reflexivity].
  destruct (all_embedded W h3 _) as [eds|]; [|reflexivity].
  destruct (chroma_fault W h4 _); reflexivity.
Qed.

Lemma own_outcome_urls W s l articles results :
  Forall2 (own_outcome W s l) articles results -> map res_url results = map URL articles.
Proof.
  induction 1 as [|a r articles results (h1 & h2 & u & h3 & h4 & _ & ->) _ IH]; [reflexivity|].
  cbn [map]. now rewrite outcome_at_url, IH.
Qed.

(** The run of [initDBfromCSV] on a file that can be parsed comes to an
    end, whatever the order in which the responses arrive. *)
Lemma run_end W csvFile s articles :
  csv_rows W (calls s) csvFile = inr articles ->
  exists n results s',
    config (initDBfromCSV W csvFile) s n = (Return (Ok results), s')
    /\ initDBfromCSV W csvFile s = (Ok results, s')
    /\ Forall2 (own_outcome W s (calls s')) articles results
    /\ progress csvFile s articles (length articles) (length articles) s'.
Proof.
  intros Hcsv. destruct (config_settles (initDBfromCSV W csvFile) s) as [n Hn].
  pose proof (run_config W csvFile s articles Hcsv n) as Hrun.
  destruct (run_settled W csvFile s articles Hcsv _ Hrun) as (results & Hc & Hres & Hp);
    [now rewrite Hn|].
  rewrite Hn in Hc, Hres, Hp. cbn [fst snd] in Hc, Hres, Hp.
  injection Hc as Hc. exists n, results, (snd (initDBfromCSV W csvFile s)).
  split; [now rewrite Hn, Hc|]. split; [|now split].
  rewrite <- Hc. now destruct (alone (initDBfromCSV W csvFile) s).
Qed.

(** C1, as the code has it.  For every list of N articles read from the
    CSV file, and whatever the order in which the responses of a batch
    arrive, [initDBfromCSV] returns N results, the i-th for the i-th
    article and with its url.  The result of an article is its own outcome:
    it is fixed by what the services answer to the requests of this article,
    at the points of the run where it sends them, and by nothing that
    happens to another article.  It is [{ success: false, url, error }]
    exactly when its own [addDocuments] throws [error] (no collection, an
    embedding of one of its chunks fails, its write is rejected) and
    [{ success: true, url }] otherwise; nothing thrown for one article
    reaches the loop, so neither the rest of its batch nor a later batch
    is skipped.  (In a world every request is answered; [Promise.all] would
    wait for ever for an answer that does not come.) *)
Theorem initDBfromCSV_isolation W csvFile articles s :
  csv_rows W (calls s) csvFile = inr articles ->
  exists results s',
    initDBfromCSV W csvFile s = (Ok results, s')
    /\ length results = length articles
    /\ map res_url results = map URL articles
    /\ Forall2 (own_outcome W s (calls s')) articles results.
Proof.
  intros Hcsv. destruct (run_end W csvFile s articles Hcsv) as (n & results & s' & _ & Hr & Hres & _).
  exists results, s'. split; [exact Hr|]. split; [symmetry; exact (Forall2_length Hres)|].
  split; [exact (own_outcome_urls _ _ _ _ _ Hres)|exact Hres].
Qed.

(** C9.  The loop of [initDBfromCSV] takes the articles of the file five
    at a time, in the order of the file.  At every point of a run, whatever
    the order in which responses arrive, it waits for at most five
    callbacks, and the pages requested so far are those of the first [k]
    batches, in order.  A step of the run sends no fetch, or it sends the
    fetches of the whole batch [k] at once, one per article and in order,
    before any of its callbacks continues; this happens only in the step in
    which the last thing the loop was waiting for arrives, when every
    article of the batches before has had its page and sent its generation
    request, and afterwards the loop waits for the callbacks of batch [k]
    and for nothing else.  The run ends, and by then the page of every
    article has been requested. *)
Theorem batch_schedule W csvFile articles s :
  csv_rows W (calls s) csvFile = inr articles ->
  (forall n,
     let c := config (initDBfromCSV W csvFile) s n in
     let c' := config (initDBfromCSV W csvFile) s (S n) in
     pending (fst c) <= 5
     /\ exists k new,
          fetches (since (calls s) (snd c)) = map URL (firstn (k * 5) articles)
          /\ calls (snd c') = calls (snd c) ++ new
          /\ (fetches new = []
              \/ (new = map AxiosGet (map URL (firstn 5 (skipn (k * 5) articles)))
                  /\ pending (fst c) = 1
                  /\ length (filter is_generation (since (calls s) (snd c))) = k * 5
                  /\ pending (fst c') = length new)))
  /\ exists n results s',
       config (initDBfromCSV W csvFile) s n = (Return (Ok results), s')
       /\ fetches (since (calls s) s') = map URL articles.
Proof.
  intros Hcsv. split.
  - intros n. cbv zeta.
    pose proof (run_config W csvFile s articles Hcsv n) as Hrun.
    destruct (run_step W csvFile s articles Hcsv _ Hrun) as (_ & Hp & k & new & Hf & Hc & Hcase).
    unfold config at 3 4. rewrite Nat.iter_succ.
    fold (config (initDBfromCSV W csvFile) s n).
    split; [exact Hp|]. exists k, new. split; [exact Hf|]. split; [exact Hc|].
    destruct Hcase as [Hnone|Hlaunch]; [now left|right].
    rewrite slice_batch in Hlaunch. exact Hlaunch.
  - destruct (run_end W csvFile s articles Hcsv) as (n & results & s' & Hn & _ & _ & Hp).
    exists n, results, s'. split; [exact Hn|].
    destruct Hp as (_ & _ & sent & Hcalls & Hf & _).
    rewrite (since_app _ _ _ Hcalls). cbn [fetches flat_map app]. fold (fetches sent).
    now rewrite Hf, firstn_all.
Qed.

(** X26.  The requests of [initDBfromCSV] on a file that can be parsed:
    after the file is read, the page of every article is requested once,
    in the order of the file, one generation request is sent per article,
    and what else is sent are embedding requests and writes, and these only
    when the collection is set. *)
Theorem every_article_once W csvFile articles s :
  csv_rows W (calls s) csvFile = inr articles ->
  exists sent,
    calls (snd (initDBfromCSV W csvFile s))
    = calls s ++ ReadCSV (js "./data/" ++ csvFile) :: sent
    /\ fetches sent = map URL articles
    /\ length (filter is_generation sent) = length articles
    /\ Forall (own_request (collection s)) sent.
Proof.
  intros Hcsv.
  destruct (run_end W csvFile s articles Hcsv) as (n & results & s' & _ & Hr & _ & Hp).
  destruct Hp as (_ & _ & sent & Hcalls & Hf & Hg & Hown).
  exists sent. rewrite Hr. cbn [snd]. rewrite firstn_all in Hf. now repeat split.
Qed.

(** ** The model on concrete inputs *)

(** The markdown composed for a page: date line, title line, then the
    elements of the body; the list opens with an empty line. *)
Example scrape_page_markdown :
  scrape_page (js "https://example.com/a") page_a
  = {| art_title := js "Title";
       art_content :=
         join (nl ++ nl)
           [js "**Publication date:** 2024-01-01"; js "# Title"; js "# Title";
            js "First paragraph."; []; js "- one"; js "- two"];
       art_url := js "https://example.com/a";
       art_time := Some (js "2024-01-01") |}.
Proof. reflexivity. Qed.

Example urls_of_a_query :
  match_urlRegex (js "compare https://example.com/a with http://example.org/b now")
  = Some [js "https://example.com/a"; js "http://example.org/b"]
  /\ match_urlRegex (js "what happened in city X") = None
  /\ match_urlRegex (js "the scheme https:// alone") = None.
Proof. repeat split. Qed.

(** The document built for the first chunk of an article that could not be
    fetched. *)
Example chunk_document_of_sentinel :
  let d := chunk_document article_a (sentinel (URL article_a)) (js "uuid-0")
             (JObj [(js "heading", JStr (js "News")); (js "content", JStr (js "body"))]) 0 in
  doc_id d = js "https://example.com/a-uuid-0-0"
  /\ doc_content d
     = nl ++ js "                #News" ++ nl ++ nl
       ++ js "                body" ++ nl ++ nl
       ++ js "                Publication date:null" ++ nl
       ++ js "                url:https://example.com/a" ++ nl ++ nl
       ++ js "                "
  /\ doc_metadata d
     = Some [(js "category", MStr (js "article"));
             (js "title", MStr (js "Can not load information"));
             (js "chunkTitle", MStr (js "News"));
             (js "time", MStr (js "unknown"));
             (js "url", MStr (js "https://example.com/a"));
             (js "source", MStr (js "Example News"))].
Proof. repeat split. Qed.

(** Start-up on an index without collections: the collection is created and
    set, the count is 1, and nothing is read from the article source. *)
Example main_on_empty_index :
  main all_well (fresh [])
  = (Ok tt,
     {| collection := Some test_rag;
        chroma := [{| c_name := js "test_rag"; c_metadata := cosine_space; c_rows := [] |}];
        calls := [GetOrCreateCollection (js "test_rag") cosine_space; CountCollections];
        uuids := 0 |}).
Proof. reflexivity. Qed.

(** One article through [initDBfromCSV]: the requests it sends, in order. *)
Example ingest_one_article :
  exists id content,
    calls (snd (initDBfromCSV all_well Server.csvFile ready))
    = [ReadCSV (js "./data/articles_dataset.csv");
       AxiosGet (js "https://example.com/a");
       generation (cluster_prompt (art_content (scrape_page (js "https://example.com/a") page_a)));
       embedding_request content;
       CollectionAdd (js "test_rag") [id] [[1; 2; 3]%Z]
         [[(js "category", MStr (js "article"));
           (js "title", MStr (js "Title"));
           (js "chunkTitle", MStr (js "News"));
           (js "time", MStr (js "2024-01-01"));
           (js "url", MStr (js "https://example.com/a"));
           (js "source", MStr (js "Example News"))]]
         [content]].
Proof. do 2 eexists. vm_compute. reflexivity. Qed.

(** The two paths of the [/agent] handler. *)
Example agent_paths :
  calls (snd (agent all_well (js "summarize https://example.com/a") ready))
  = [AxiosGet (js "https://example.com/a");
     generation (agent_prompt (js "summarize https://example.com/a")
                   (art_content (scrape_page (js "https://example.com/a") page_a)))]
  /\ calls (snd (agent all_well (js "what happened in city X") ready))
     = [embedding_request (js "what happened in city X");
        CollectionQuery (js "test_rag") [[1; 2; 3]%Z] 7%Z
          [js "documents"; js "metadatas"; js "embeddings"];
        generation (agent_prompt (js "what happened in city X")
                      (js "text one" ++ nl ++ nl ++ nl))].
Proof. split; vm_compute; reflexivity. Qed.

(** Two batches through [initDBfromCSV] while responses arrive out of
    order: the fetches of a batch go out together, the callbacks continue
    in another order than they were called, and the results come in the
    order of the file. *)
Example batches_out_of_order :
  map kind (calls (snd (initDBfromCSV one_article_fails Server.csvFile ready)))
  = [js "csv";
     js "fetch"; js "fetch"; js "fetch"; js "fetch"; js "fetch";
     js "generate"; js "generate"; js "embed"; js "embed"; js "add"; js "add";
     js "generate"; js "generate"; js "embed"; js "embed"; js "generate"; js "add";
     js "embed"; js "add";
     js "fetch"; js "generate"; js "embed"; js "add"]
  /\ match fst (initDBfromCSV one_article_fails Server.csvFile ready) with
     | Ok results => map res_success results = [true; false; true; true; true; true]
     | Throw _ => False
     end.
Proof. split; vm_compute; reflexivity. Qed.

(** Both pages of a batch are requested before either callback continues:
    an embedding service that refuses once two pages have been requested
    fails both articles. *)
Example fetches_before_embeddings :
  map kind (calls (snd (initDBfromCSV refuses_after_two_fetches Server.csvFile ready)))
  = [js "csv"; js "fetch"; js "fetch"; js "generate"; js "embed"; js "generate"; js "embed"]
  /\ match fst (initDBfromCSV refuses_after_two_fetches Server.csvFile ready) with
     | Ok results => map res_success results = [false; false]
     | Throw _ => False
     end.
Proof. split; vm_compute; reflexivity. Qed.

(** ** The theorems at concrete inputs *)

Lemma scrapeArticle_failure_sentinel_witness :
  axios_get fetch_down (calls (fresh [])) (js "https://example.com/a") = None
  /\ scrapeArticle fetch_down (js "https://example.com/a") (fresh [])
     = (Ok {| art_title := js "Can not load information";
              art_content := [];
              art_url := js "https://example.com/a";
              art_time := None |},
        log_call (AxiosGet (js "https://example.com/a")) (fresh [])).
Proof.
  split; [reflexivity|].
  apply (scrapeArticle_failure_sentinel fetch_down). reflexivity.
Defined.

Lemma addDocuments_embedding_failure_witness :
  exists e s',
    addDocuments embedding_down [embedded_document; plain_document] ready = (Throw e, s')
    /\ chroma s' = chroma ready
    /\ collection s' = collection ready
    /\ exists texts, calls s' = calls ready ++ map embedding_request texts.
Proof.
  apply (addDocuments_embedding_failure embedding_down
           [embedded_document; plain_document] ready).
  exists [embedded_document], plain_document, []. repeat split.
Defined.

Lemma retrieval_routing_witness :
  (exists url,
     first_url (js "summarize https://example.com/a") url
     /\ answerContext all_well (js "summarize https://example.com/a") ready
        = (Ok (art_content (scraped all_well (calls ready) url)),
           log_call (AxiosGet url) ready))
  /\ fst (answerContext all_well (js "what happened in city X") ready)
     = match fst (queryDocuments all_well (js "what happened in city X") (Some 7%Z) ready) with
       | Ok chunks => Ok (join (nl ++ nl ++ nl) (map doc_content chunks))
       | Throw e => Throw e
       end.
Proof.
  split.
  - apply (proj1 (retrieval_routing all_well (js "summarize https://example.com/a") ready)).
    exists (js "summarize "), (js "https://example.com/a"), []. split; [reflexivity|].
    exists (js "https://"), (js "example.com/a").
    split; [now right|]. split; [reflexivity|]. split; [discriminate|].
    repeat (constructor; [reflexivity|]). constructor.
  - assert (Hno : ~ contains_url (js "what happened in city X")).
    { apply match_urlRegex_none. reflexivity. }
    rewrite (proj1 (proj2 (retrieval_routing all_well (js "what happened in city X") ready) Hno)).
    reflexivity.
Defined.

Lemma queryDocuments_contract_witness :
  queryDocuments all_well (js "what happened in city X") None ready
  = (Ok [{| doc_id := js "a-1";
            doc_content := js "text one";
            doc_embedding := Some [1; 2]%Z;
            doc_metadata := Some [(js "source", MStr (js "Example News"))] |};
         {| doc_id := js "a-2";
            doc_content := [];
            doc_embedding := Some [3; 4]%Z;
            doc_metadata := None |}],
     log_call (CollectionQuery (js "test_rag") [[1; 2; 3]%Z] 5%Z
                 [js "documents"; js "metadatas"; js "embeddings"])
       (log_call (EmbedContent (js "embedding-001") (js "what happened in city X")) ready)).
Proof.
  destruct (queryDocuments_contract all_well Server.csvFile (js "what happened in city X")
              None ready test_rag [1; 2; 3]%Z eq_refl eq_refl eq_refl)
    as (_ & _ & Hrecords & _).
  exact (Hrecords [js "a-1"; js "a-2"] [Some (js "text one"); None] [[1; 2]; [3; 4]]%Z
           [Some [(js "source", MStr (js "Example News"))]; None]
           eq_refl eq_refl eq_refl eq_refl).
Defined.

Lemma uninitialized_guard_witness :
  collection (fresh []) = None
  /\ addDocuments all_well [plain_document] (fresh [])
     = (Throw (Error (js "Collection is not initialized")), fresh [])
  /\ deleteDocuments all_well [js "a-1"] (fresh [])
     = (Throw (Error (js "Collection is not initialized")), fresh []).
Proof.
  split; [reflexivity|].
  pose proof (uninitialized_guard all_well (fresh []) eq_refl) as H. cbv zeta in H.
  split; [apply (proj1 H) | apply (proj1 (proj2 (proj2 (proj2 H))))].
Defined.

Lemma reconstitute_total_witness :
  exists docs,
    reconstitute two_hits = Ok docs
    /\ length docs = 2
    /\ forall i id,
         nth_error [js "a-1"; js "a-2"] i = Some id ->
         exists d,
           nth_error docs i = Some d
           /\ doc_id d = id
           /\ doc_embedding d = nth_error [[1; 2]; [3; 4]]%Z i
           /\ doc_metadata d
              = match nth_error [Some [(js "source", MStr (js "Example News"))]; None] i with
                | Some (Some m) => Some m
                | _ => None
                end
           /\ (nth_error [Some (js "text one"); None] i = None
               \/ nth_error [Some (js "text one"); None] i = Some None ->
               doc_content d = [])
           /\ (forall text, nth_error [Some (js "text one"); None] i = Some (Some text) ->
               doc_content d = text).
Proof.
  apply (reconstitute_total two_hits [js "a-1"; js "a-2"] [Some (js "text one"); None]
           [[1; 2]; [3; 4]]%Z [Some [(js "source", MStr (js "Example News"))]; None]);
    reflexivity.
Defined.

Lemma initDBfromCSV_isolation_witness :
  csv_rows one_article_fails (calls ready) Server.csvFile = inr six_articles
  /\ fst (initDBfromCSV one_article_fails Server.csvFile ready)
     = Ok [success (nth 0 six_articles article_a);
           failure (nth 1 six_articles article_a) (Error (js "Failed to generate embedding"));
           success (nth 2 six_articles article_a);
           success (nth 3 six_articles article_a);
           success (nth 4 six_articles article_a);
           success (nth 5 six_articles article_a)]
  /\ exists results s',
       initDBfromCSV one_article_fails Server.csvFile ready = (Ok results, s')
       /\ length results = 6
       /\ map res_url results = map URL six_articles
       /\ Forall2 (own_outcome one_article_fails ready (calls s')) six_articles results.
Proof.
  split; [reflexivity|]. split; [vm_compute; reflexivity|].
  apply (initDBfromCSV_isolation one_article_fails Server.csvFile six_articles ready).
  reflexivity.
Defined.

Lemma batch_schedule_witness :
  csv_rows one_article_fails (calls ready) Server.csvFile = inr six_articles
  /\ map kind (calls (snd (initDBfromCSV one_article_fails Server.csvFile ready)))
     = [js "csv";
        js "fetch"; js "fetch"; js "fetch"; js "fetch"; js "fetch";
        js "generate"; js "generate"; js "embed"; js "embed"; js "add"; js "add";
        js "generate"; js "generate"; js "embed"; js "embed"; js "generate"; js "add";
        js "embed"; js "add";
        js "fetch"; js "generate"; js "embed"; js "add"]
  /\ map (fun n => pending (fst (config (initDBfromCSV one_article_fails Server.csvFile)
                                   ready n))) (seq 0 26)
     = [1; 5; 5; 5; 5; 5; 5; 5; 4; 4; 3; 3; 3; 3; 2; 2; 2; 2; 1; 1; 1; 1; 1; 1; 0; 0]
  /\ (forall n,
        let c := config (initDBfromCSV one_article_fails Server.csvFile) ready n in
        let c' := config (initDBfromCSV one_article_fails Server.csvFile) ready (S n) in
        pending (fst c) <= 5
        /\ exists k new,
             fetches (since (calls ready) (snd c)) = map URL (firstn (k * 5) six_articles)
             /\ calls (snd c') = calls (snd c) ++ new
             /\ (fetches new = []
                 \/ (new = map AxiosGet (map URL (firstn 5 (skipn (k * 5) six_articles)))
                     /\ pending (fst c) = 1
                     /\ length (filter is_generation (since (calls ready) (snd c))) = k * 5
                     /\ pending (fst c') = length new)))
  /\ exists n results s',
       config (initDBfromCSV one_article_fails Server.csvFile) ready n
       = (Return (Ok results), s')
       /\ fetches (since (calls ready) s') = map URL six_articles.
Proof.
  split; [reflexivity|]. split; [vm_compute; reflexivity|]. split; [vm_compute; reflexivity|].
  apply (batch_schedule one_article_fails Server.csvFile six_articles ready).
  reflexivity.
Defined.

(** ** Where the wording of the specification and the code part *)

(** An error thrown while an article is fetched is not recorded as a
    failure of that article: the fetch of the only article throws, and the
    article is nevertheless recorded as a success, because [scrapeArticle]
    turns the failure into its sentinel before the handler of the batch
    callback could see it. *)
Lemma fetch_error_recorded_as_success :
  (forall before, axios_get fetch_down before (URL article_a) = None)
  /\ csv_rows fetch_down (calls ready) Server.csvFile = inr [article_a]
  /\ fst (initDBfromCSV fetch_down Server.csvFile ready)
     = Ok [{| res_success := true; res_url := URL article_a; res_error := None |}].
Proof. split; [reflexivity|]. split; vm_compute; reflexivity. Qed.

(** An operation called before any initialization has succeeded is not
    always stopped by the guard: [initializeCollection] throws because the
    count request is rejected, yet [this.collection] is already set and
    [deleteDocuments] goes through to the index instead of throwing
    "Collection is not initialized". *)
Lemma guard_open_after_failed_initialize :
  let r := initializeCollection count_down Server.csvFile (js "test_rag") (fresh []) in
  let d := deleteDocuments count_down [js "a-1"] (snd r) in
  fst r = Throw (ChromaError (js "connection refused"))
  /\ fst d = Ok tt
  /\ calls (snd d) = calls (snd r) ++ [CollectionDelete (js "test_rag") [js "a-1"]].
Proof. repeat split; vm_compute; reflexivity. Qed.

(** Passing the shape check does not make the map over the ids total: an
    answer whose four fields are present passes the check, but when they hold
    no row, reading [results.ids[0].map] throws. *)
Lemma reconstitute_rowless_throws :
  shape_ok rowless
  /\ reconstitute rowless = Throw (TypeError (js "Cannot read properties of undefined")).
Proof. split; [repeat split; discriminate | reflexivity]. Qed.

(** ** utils.ts: the markdown of a page *)

Lemma push_lines_inside els : forall acc,
  fold_left push_line els (acc, true) = (acc ++ flat_map line_inside_list els, true).
Proof.
  induction els as [|[tag text] els IH]; intros acc; simpl.
  - now rewrite app_nil_r.
  - destruct tag; cbn [push_line fst snd line_inside_list]; rewrite IH;
      rewrite <- ?app_assoc; reflexivity.
Qed.

Lemma push_lines_outside els : forall acc,
  forallb (fun e => negb (is_ul e)) els = true ->
  fold_left push_line els (acc, false) = (acc ++ flat_map line_outside_list els, false).
Proof.
  induction els as [|[tag text] els IH]; intros acc Hno; simpl.
  - now rewrite app_nil_r.
  - simpl in Hno. apply andb_prop in Hno as [Hul Hrest].
    destruct tag; try discriminate;
      cbn [push_line fst snd line_outside_list]; rewrite (IH _ Hrest);
      rewrite <- ?app_assoc; reflexivity.
Qed.

Lemma scrape_page_content url page :
  art_content (scrape_page url page)
  = join (nl ++ nl)
      (head_lines page ++ fst (fold_left push_line (elements page) ([], false))).
Proof.
  unfold scrape_page, head_lines. cbn [art_content].
  destruct (truthy (trim (page_time page))); destruct (truthy (trim (page_h1 page)));
    reflexivity.
Qed.

Lemma outside_lines_without_items els :
  flat_map line_outside_list
    (filter (fun e => match fst e with LI => false | _ => true end) els)
  = flat_map line_outside_list els.
Proof.
  induction els as [|[tag text] els IH]; [reflexivity|].
  destruct tag; cbn [flat_map filter fst line_outside_list app]; now rewrite IH.
Qed.

(** X5. On a page without a [ul] that has text, every list item is dropped from
    the markdown (the items of an [ol], for one): the content is the head
    lines followed by the headings and paragraphs alone. *)
Theorem scrape_page_drops_items_without_ul url page :
  forallb (fun e => negb (is_ul e)) (elements page) = true ->
  art_content (scrape_page url page)
  = join (nl ++ nl)
      (head_lines page
       ++ flat_map line_outside_list
            (filter (fun e => match fst e with LI => false | _ => true end) (elements page))).
Proof.
  intros Hno. rewrite scrape_page_content, (push_lines_outside _ [] Hno).
  now rewrite outside_lines_without_items.
Qed.

(** X6. Only the first [ul] with text opens a list, and the list is never
    closed: that [ul] contributes one empty line, list items before it are
    dropped, and after it every list item is a bullet, wherever it stands,
    while further [ul]s contribute nothing. *)
Theorem scrape_page_list_never_closes url page before text after :
  elements page = before ++ (UL, text) :: after ->
  forallb (fun e => negb (is_ul e)) before = true ->
  art_content (scrape_page url page)
  = join (nl ++ nl)
      (head_lines page
       ++ flat_map line_outside_list before ++ [[]] ++ flat_map line_inside_list after).
Proof.
  intros Hsplit Hno. rewrite scrape_page_content, Hsplit, fold_left_app.
  rewrite (push_lines_outside _ [] Hno). cbn [fold_left push_line fst snd app].
  rewrite push_lines_inside, <- app_assoc. reflexivity.
Qed.

(** ** utils.ts: the prompt and the answer of the chunk extractor *)

Lemma replaceAll_one_unit c rep : forall text,
  replaceAll [c] rep text = flat_map (fun x => if (c =? x)%N then rep else [x]) text.
Proof.
  unfold replaceAll. induction text as [|x text IH]; [reflexivity|].
  cbn [replaceAll_from startsWith length Nat.sub flat_map]. rewrite IH.
  destruct (c =? x)%N; reflexivity.
Qed.

(** X8. The article text enters the prompt of the chunk extractor with every
    double quote turned into a single quote and nothing else changed: the
    text keeps its length and cannot close the quotes the prompt puts
    around it. *)
Theorem cluster_prompt_sanitized text :
  cluster_prompt text
  = cluster_tpl_0
    ++ map (fun c => if (c =? 34)%N then 39%N else c) text
    ++ cluster_tpl_1
  /\ ~ In 34%N (map (fun c => if (c =? 34)%N then 39%N else c) text).
Proof.
  split.
  - unfold cluster_prompt, dq. cbv zeta. rewrite replaceAll_one_unit. do 2 f_equal.
    induction text as [|x text IH]; [reflexivity|].
    cbn [flat_map map]. rewrite IH, (N.eqb_sym 34 x). now destruct (x =? 34)%N.
  - intros H. apply in_map_iff in H as (x & Hx & _).
    destruct (x =? 34)%N eqn:E; [discriminate|]. apply N.eqb_neq in E. contradiction.
Qed.

Lemma replaceAll_skip pat rep : forall p s,
  replaceAll_from (length p) pat rep (p ++ s) = replaceAll_from 0 pat rep s.
Proof.
  induction p as [|x p IH]; intros s; [now destruct s|].
  cbn [length app replaceAll_from]. apply IH.
Qed.

Lemma replaceAll_match pat rep s :
  pat <> [] -> replaceAll pat rep (pat ++ s) = rep ++ replaceAll pat rep s.
Proof.
  unfold replaceAll. destruct pat as [|x p]; [contradiction|]. intros _.
  change ((x :: p) ++ s) with (x :: (p ++ s)). cbn [replaceAll_from].
  change (x :: (p ++ s)) with ((x :: p) ++ s). rewrite startsWith_app.
  cbn [length Nat.sub]. now rewrite Nat.sub_0_r, replaceAll_skip.
Qed.

Lemma replaceAll_pass pat first p rep : forall s t,
  pat = first :: p ->
  existsb (N.eqb first) s = false ->
  replaceAll pat rep (s ++ t) = s ++ replaceAll pat rep t.
Proof.
  unfold replaceAll. intros s t ->. induction s as [|x s IH]; intros Hno; [reflexivity|].
  cbn [existsb] in Hno. apply orb_false_elim in Hno as [Hx Hs].
  cbn [app replaceAll_from startsWith]. rewrite Hx. cbn [andb]. now rewrite IH.
Qed.

(** What is left of an answer wrapped in a fence when the text between the
    fences holds no backquote. *)
Lemma fences_stripped body :
  existsb (N.eqb 96) body = false ->
  replaceAll (js "```") [] (replaceAll (js "```json") [] (js "```json" ++ body ++ js "```"))
  = body.
Proof.
  intros Hno. rewrite replaceAll_match by discriminate. cbn [app].
  rewrite (replaceAll_pass (js "```json") 96 (js "``json") [] body (js "```") eq_refl Hno).
  change (replaceAll (js "```json") [] (js "```")) with (js "```").
  rewrite (replaceAll_pass (js "```") 96 (js "``") [] body (js "```") eq_refl Hno).
  change (replaceAll (js "```") [] (js "```")) with (@nil N).
  apply app_nil_r.
Qed.

Lemma valid_block_ok b : valid_block b -> block_ok b = Ok true.
Proof.
  intros (fields & h & c & -> & Hh & Hc & Hlen). unfold block_ok. rewrite Hh, Hc.
  f_equal. apply Nat.leb_le. exact Hlen.
Qed.

Lemma valid_every_block_ok parsed : Forall valid_block parsed -> every_block_ok parsed = Ok true.
Proof.
  induction 1 as [|b rest Hb _ IH]; [reflexivity|].
  cbn [every_block_ok]. now rewrite (valid_block_ok b Hb).
Qed.

(** X9. An answer of the model wrapped in a [```json] fence is accepted:
    when the text between the fences holds no backquote, parses, once
    trimmed, to an array, and every element of the array is a valid block,
    [getClusteredText] returns that array. *)
Theorem getClusteredText_accepts_fenced_answer W text s chunks body parsed :
  generateContentStream W (calls s) (js "gemini-1.5-flash") (cluster_prompt text)
  = (chunks, true) ->
  concat chunks = js "```json" ++ body ++ js "```" ->
  existsb (N.eqb 96) body = false ->
  JSON_parse W (trim body) = Some (JArr parsed) ->
  Forall valid_block parsed ->
  getClusteredText W text s = (Ok parsed, log_call (generation (cluster_prompt text)) s).
Proof.
  intros Hgen Hconcat Hno Hparse Hvalid.
  rewrite getClusteredText_run. unfold blocks_of, attempt_outcome.
  rewrite Hgen, Hconcat, (fences_stripped body Hno), Hparse.
  now rewrite (valid_every_block_ok parsed Hvalid).
Qed.

(** X10. Validation is all or nothing: when the answer of the model parses
    to an array in which some element is not a valid block, the valid
    elements are discarded with it and [getClusteredText] returns the empty
    array. *)
Theorem getClusteredText_discards_partly_valid_answer W text s chunks parsed :
  generateContentStream W (calls s) (js "gemini-1.5-flash") (cluster_prompt text)
  = (chunks, true) ->
  JSON_parse W
    (trim (replaceAll (js "```") [] (replaceAll (js "```json") [] (concat chunks))))
  = Some (JArr parsed) ->
  Exists (fun b => ~ valid_block b) parsed ->
  getClusteredText W text s = (Ok [], log_call (generation (cluster_prompt text)) s).
Proof.
  intros Hgen Hparse Hbad.
  rewrite getClusteredText_run. unfold blocks_of, attempt_outcome. rewrite Hgen, Hparse.
  destruct (every_block_ok parsed) as [[|]|e] eqn:E; try reflexivity.
  exfalso. apply every_block_ok_valid in E. apply Exists_exists in Hbad as (b & Hin & Hb).
  apply Hb. rewrite Forall_forall in E. now apply E.
Qed.

(** X11. When the stream of the model fails, after however many chunks,
    [generateResponse] throws its own error and the text received so far is
    lost, also when it was a complete answer; [getClusteredText] then
    returns the empty array and does not ask again. *)
Theorem getClusteredText_broken_stream W text s chunks :
  generateContentStream W (calls s) (js "gemini-1.5-flash") (cluster_prompt text)
  = (chunks, false) ->
  generateResponse W (cluster_prompt text) s
  = (Throw generation_failed,
     log_call (GenerateContentStream (js "gemini-1.5-flash") (cluster_prompt text)) s)
  /\ getClusteredText W text s
     = (Ok [], log_call (GenerateContentStream (js "gemini-1.5-flash") (cluster_prompt text)) s).
Proof.
  intros Hgen. split.
  - rewrite generateResponse_run, Hgen. reflexivity.
  - rewrite getClusteredText_run. unfold blocks_of, attempt_outcome. rewrite Hgen.
    reflexivity.
Qed.

(** ** vectorDB.ts: what the operations send *)

(** A batch that is embedded keeps its documents, in order; a document that
    comes with an embedding keeps it, one that comes without gets the answer
    to its own request. *)
Lemma all_embedded_documents W docs : forall before eds,
  all_embedded W before docs = Some eds ->
  map ed_doc eds = docs
  /\ forall i d,
       nth_error docs i = Some d ->
       exists e,
         nth_error (map ed_embedding eds) i = Some e
         /\ match doc_embedding d with
            | Some given => e = given
            | None =>
                embedContent W (before ++ embedding_requests (firstn i docs))
                  (js "embedding-001") (doc_content d) = Some e
            end.
Proof.
  induction docs as [|x docs IH]; intros before eds H.
  - injection H as <-. split; [reflexivity|]. intros [|i] d Hd; discriminate.
  - cbn [all_embedded] in H.
    destruct (embedded W before x) as [ex|] eqn:Ex; [|discriminate].
    destruct (all_embedded W _ docs) as [es|] eqn:Es; [|discriminate].
    injection H as <-. destruct (IH _ _ Es) as (Hdocs & Hnth).
    assert (Hx : ed_doc ex = x
                 /\ match doc_embedding x with
                    | Some given => ed_embedding ex = given
                    | None => embedContent W before (js "embedding-001") (doc_content x)
                              = Some (ed_embedding ex)
                    end).
    { unfold embedded in Ex. destruct (doc_embedding x) as [given|].
      - injection Ex as <-. now split.
      - destruct (embedContent W before _ _) as [e|]; [|discriminate].
        injection Ex as <-. now split. }
    destruct Hx as (Hx1 & Hx2). split; [cbn [map]; now rewrite Hx1, Hdocs|].
    intros [|i] d Hd.
    + injection Hd as <-. exists (ed_embedding ex). split; [reflexivity|].
      destruct (doc_embedding x); [exact Hx2|].
      cbn [firstn]. change (embedding_requests []) with (@nil Call).
      now rewrite app_nil_r.
    + destruct (Hnth i d Hd) as (e & He & Hfrom). exists e. split; [exact He|].
      destruct (doc_embedding d); [exact Hfrom|].
      cbn [firstn]. rewrite (embedding_requests_cons x (firstn i docs)), app_assoc.
      exact Hfrom.
Qed.

(** X14. A successful [addDocuments] sends, after the embedding requests,
    one write whose four arrays are aligned with the documents given: ids,
    metadata and contents are those of the documents in order (an absent
    metadata is an empty object), and the i-th embedding is the one the
    i-th document came with or, when it came without, the answer to the
    embedding request sent for its content. *)
Theorem addDocuments_write_aligned W docs s c :
  collection s = Some c ->
  fst (addDocuments W docs s) = Ok tt ->
  exists embeddings,
    calls (snd (addDocuments W docs s))
    = calls s ++ embedding_requests docs
      ++ [CollectionAdd (col_name c) (map doc_id docs) embeddings
            (map (fun d => metadata_or_empty (doc_metadata d)) docs)
            (map doc_content docs)]
    /\ length embeddings = length docs
    /\ forall i d,
         nth_error docs i = Some d ->
         exists e,
           nth_error embeddings i = Some e
           /\ match doc_embedding d with
              | Some given => e = given
              | None =>
                  embedContent W (calls s ++ embedding_requests (firstn i docs))
                    (js "embedding-001") (doc_content d) = Some e
              end.
Proof.
  intros Hc. rewrite addDocuments_run, Hc. cbv zeta.
  destruct (all_embedded W (calls s) docs) as [eds|] eqn:E; [|discriminate].
  destruct (all_embedded_documents W docs _ _ E) as (Hdocs & Hnth).
  intros _. exists (map ed_embedding eds). split; [|split].
  - assert (Hreq : CollectionAdd (col_name c) (map doc_id docs) (map ed_embedding eds)
                     (map (fun d => metadata_or_empty (doc_metadata d)) docs)
                     (map doc_content docs)
                   = add_request c eds).
    { unfold add_request. rewrite <- Hdocs, !map_map. reflexivity. }
    rewrite Hreq.
    destruct (chroma_fault W _ _); cbn [snd calls log_call set_chroma];
      now rewrite log_calls_calls, <- app_assoc.
  - rewrite length_map, <- Hdocs. now rewrite length_map.
  - exact Hnth.
Qed.

(** X15. A failing embedding does not stop the others: when some document
    of the batch cannot be embedded, [addDocuments] throws "Failed to
    generate embedding" after it has sent the embedding request of every
    document that came without an embedding, in the order of the batch;
    documents that came with one cause no request. *)
Theorem addDocuments_embeds_every_document W docs s c :
  collection s = Some c ->
  embedding_fails W (calls s) docs ->
  fst (addDocuments W docs s) = Throw (Error (js "Failed to generate embedding"))
  /\ calls (snd (addDocuments W docs s))
     = calls s
       ++ map (fun d => EmbedContent (js "embedding-001") (doc_content d))
            (filter lacks_embedding docs).
Proof.
  intros Hc Hfail. rewrite addDocuments_run, Hc. cbv zeta.
  rewrite (all_embedded_failure W docs (calls s) Hfail). cbn [fst snd].
  split; [reflexivity|]. rewrite log_calls_calls. unfold embedding_requests.
  now rewrite map_map.
Qed.

(** X25. [addDocuments] returns or throws one of three errors: the guard's,
    "Failed to generate embedding", or the error of the index, unchanged,
    when the write is rejected.  It never touches the handle, and a call
    that throws has sent no write, or one write, as its last request, which
    the index rejected. *)
Theorem addDocuments_outcomes W docs s :
  let r := addDocuments W docs s in
  (fst r = Ok tt
   \/ fst r = Throw (Error (js "Collection is not initialized"))
   \/ fst r = Throw (Error (js "Failed to generate embedding"))
   \/ exists message, fst r = Throw (ChromaError message))
  /\ collection (snd r) = collection s
  /\ (fst r <> Ok tt ->
      forall ids embeddings metadatas documents name,
        In (CollectionAdd name ids embeddings metadatas documents)
           (skipn (length (calls s)) (calls (snd r))) ->
        exists message,
          fst r = Throw (ChromaError message)
          /\ chroma_fault W (calls s ++ embedding_requests docs)
               (CollectionAdd name ids embeddings metadatas documents) = Some message
          /\ calls (snd r)
             = calls s ++ embedding_requests docs
               ++ [CollectionAdd name ids embeddings metadatas documents]).
Proof.
  cbv zeta. rewrite addDocuments_run.
  destruct (collection s) as [c|] eqn:Hc.
  2:{ cbn [fst snd]. split; [auto|]. split; [exact Hc|]. intros _.
      intros ids embeddings metadatas documents name Hin.
      rewrite skipn_all in Hin. destruct Hin. }
  cbv zeta. destruct (log_calls_spec (embedding_requests docs) s) as (H1 & H2 & H3 & _).
  destruct (all_embedded W (calls s) docs) as [eds|].
  - rewrite H3. destruct (chroma_fault W _ (add_request c eds)) as [message|] eqn:Hf;
      cbn [fst snd collection chroma calls log_call set_chroma].
    + split; [right; right; right; eauto|]. split; [congruence|]. intros _.
      intros ids embeddings metadatas documents name Hin.
      rewrite H3, <- app_assoc, skipn_app, skipn_all, Nat.sub_diag in Hin.
      cbn [skipn app] in Hin. apply in_app_or in Hin as [Hin|[Hin|[]]].
      * exfalso. unfold embedding_requests in Hin.
        apply in_map_iff in Hin as (text & Habs & _). discriminate.
      * exists message. unfold add_request in Hin, Hf. rewrite <- Hin, Hf.
        split; [reflexivity|]. split; [reflexivity|]. rewrite H3. now rewrite <- app_assoc.
    + split; [now left|]. split; [congruence|]. intros Hno. now contradiction Hno.
  - cbn [fst snd]. split; [auto|]. split; [congruence|]. intros _.
    intros ids embeddings metadatas documents name Hin.
    rewrite H3, skipn_app, skipn_all, Nat.sub_diag in Hin. cbn [skipn app] in Hin.
    exfalso. unfold embedding_requests in Hin.
    apply in_map_iff in Hin as (text & Habs & _). discriminate.
Qed.

(** X17. [queryDocuments] only reads: whatever the services answer, the
    contents of the index and the collection handle are as before, and the
    requests sent are none (the guard), or the embedding request alone, and
    then the call throws "Failed to generate embedding" without asking the
    index, or the embedding request followed by one query of the collection
    of the handle for the embedding returned. *)
Theorem queryDocuments_reads_only W queryText topK s :
  let r := queryDocuments W queryText topK s in
  chroma (snd r) = chroma s
  /\ collection (snd r) = collection s
  /\ (calls (snd r) = calls s /\ collection s = None
      \/ calls (snd r) = calls s ++ [EmbedContent (js "embedding-001") queryText]
         /\ fst r = Throw (Error (js "Failed to generate embedding"))
      \/ exists c queryEmbedding k,
           collection s = Some c
           /\ embedContent W (calls s) (js "embedding-001") queryText = Some queryEmbedding
           /\ calls (snd r)
              = calls s ++ [EmbedContent (js "embedding-001") queryText;
                            CollectionQuery (col_name c) [queryEmbedding] k
                              [js "documents"; js "metadatas"; js "embeddings"]]).
Proof.
  cbv zeta. rewrite queryDocuments_run. cbv zeta.
  destruct (collection s) as [c|] eqn:Hc.
  - destruct (embedContent W _ _ queryText) as [emb|].
    + assert (Hcalls : forall k,
                calls (log_call (query_request c emb k)
                         (log_call (embedding_request queryText) s))
                = calls s ++ [EmbedContent (js "embedding-001") queryText;
                              CollectionQuery (col_name c) [emb] k
                                [js "documents"; js "metadatas"; js "embeddings"]]).
      { intros k. cbn [calls log_call]. now rewrite <- app_assoc. }
      destruct (chroma_fault W _ _); (split; [|split]);
        try reflexivity; try exact Hc; right; right; exists c, emb; eexists;
        (split; [reflexivity|split; [reflexivity|apply Hcalls]]).
    + split; [|split]; try reflexivity; [exact Hc|]. right. left. now split.
  - split; [|split]; try reflexivity; [exact Hc|]. left. now split.
Qed.

(** X18. [updateDocument] and [deleteDocuments] send one request each, to
    the collection of the handle, and never ask for an embedding:
    [updateDocument] forwards the embedding field of the document as it
    is, absent when the document has none, whatever its content.  Each
    returns when the index accepts the request and throws the error of the
    index, unchanged, when it rejects it. *)
Theorem update_and_delete_requests W s c :
  collection s = Some c ->
  (forall document,
     let request :=
       CollectionUpdate (col_name c) [doc_id document] [doc_embedding document]
         [metadata_or_empty (doc_metadata document)] [doc_content document] in
     calls (snd (updateDocument W document s)) = calls s ++ [request]
     /\ fst (updateDocument W document s)
        = match chroma_fault W (calls s) request with
          | Some message => Throw (ChromaError message)
          | None => Ok tt
          end)
  /\ (forall ids,
        let request := CollectionDelete (col_name c) ids in
        calls (snd (deleteDocuments W ids s)) = calls s ++ [request]
        /\ fst (deleteDocuments W ids s)
           = match chroma_fault W (calls s) request with
             | Some message => Throw (ChromaError message)
             | None => Ok tt
             end).
Proof.
  intros Hc. split.
  - intros document. cbv zeta. destruct (updateDocument_run W document s) as (db & ->).
    rewrite Hc. unfold update_request. destruct (chroma_fault W _ _); now split.
  - intros ids. cbv zeta. rewrite deleteDocuments_run, Hc.
    destruct (chroma_fault W _ _); now split.
Qed.

(** X19. The handle after [initializeCollection]: when the create-or-get
    request is rejected, the error of the index is thrown as it is, handle
    and index are as before, and the count request is not sent; in every
    other case, also when the count request is rejected and the call
    throws, the handle is set to a collection that carries the requested
    name. *)
Theorem initializeCollection_handle W csvFile name s :
  let r := initializeCollection W csvFile name s in
  match chroma_fault W (calls s) (GetOrCreateCollection name cosine_space) with
  | Some message =>
      r = (Throw (ChromaError message), log_call (GetOrCreateCollection name cosine_space) s)
  | None =>
      exists c, collection (snd r) = Some c /\ col_name c = name
  end.
Proof.
  cbv zeta. rewrite initializeCollection_run. cbv zeta.
  destruct (chroma_fault W _ (GetOrCreateCollection _ _)); [reflexivity|].
  pose proof (get_or_create_name name cosine_space (chroma s)) as Hname.
  destruct (get_or_create name cosine_space (chroma s)) as [c db]. cbn [fst] in Hname.
  exists c. destruct (chroma_fault W _ CountCollections); now split.
Qed.

(** ** utils.ts: [scrapeArticle] as a whole *)

(** X7. [scrapeArticle] never throws, whatever the fetch does, and sends
    the one fetch request.  The article it returns carries the url it was
    given, and its time is [null], never the empty string, when the page
    has no [time] element with text. *)
Theorem scrapeArticle_never_throws W url s :
  exists article,
    scrapeArticle W url s = (Ok article, log_call (AxiosGet url) s)
    /\ art_url article = url
    /\ art_time article <> Some [].
Proof.
  rewrite scrapeArticle_run. exists (scraped W (calls s) url).
  split; [reflexivity|]. unfold scraped.
  destruct (axios_get W (calls s) url) as [page|]; [|now split].
  split; [reflexivity|]. unfold scrape_page. cbn [art_time].
  destruct (trim (page_time page)); discriminate.
Qed.

(** ** vectorDB.ts: ingestion at its edges *)

Lemma iter_next_uuid n s :
  collection (Nat.iter n next_uuid s) = collection s
  /\ chroma (Nat.iter n next_uuid s) = chroma s
  /\ calls (Nat.iter n next_uuid s) = calls s.
Proof.
  induction n as [|n (H1 & H2 & H3)]; [now split|].
  cbn [Nat.iter next_uuid collection chroma calls]. now split.
Qed.

(** Up to the call of [addDocuments] an article sends its fetch and its
    generation request and touches neither the handle nor the index. *)
Lemma prepared_store W article s :
  let s1 := snd (prepared W article s) in
  collection s1 = collection s
  /\ chroma s1 = chroma s
  /\ calls s1
     = calls s
       ++ [AxiosGet (URL article);
           generation (cluster_prompt (art_content (scraped W (calls s) (URL article))))].
Proof.
  unfold prepared. cbv zeta. cbn [snd].
  destruct (iter_next_uuid
              (length (blocks_of W (calls s ++ [AxiosGet (URL article)])
                         (art_content (scraped W (calls s) (URL article)))))
              (log_call (generation (cluster_prompt
                                       (art_content (scraped W (calls s) (URL article)))))
                 (log_call (AxiosGet (URL article)) s))) as (H1 & H2 & H3).
  rewrite H1, H2, H3. cbn [collection chroma calls log_call].
  now rewrite <- app_assoc.
Qed.

(** X16. An article for which the chunk extractor returns no block is
    still sent to the index: after the fetch and the generation request,
    [addDocuments] is called with no document and sends a write whose four
    arrays are empty; no embedding is asked for, and the article is recorded
    as a success when the index accepts that write. *)
Theorem ingest_one_without_blocks W article s c :
  collection s = Some c ->
  blocks_of W (calls s ++ [AxiosGet (URL article)])
    (art_content (scraped W (calls s) (URL article))) = [] ->
  let prompt := cluster_prompt (art_content (scraped W (calls s) (URL article))) in
  calls (snd (ingest_one W article s))
  = calls s ++ [AxiosGet (URL article); generation prompt;
                CollectionAdd (col_name c) [] [] [] []]
  /\ fst (ingest_one W article s)
     = Ok (match chroma_fault W (calls s ++ [AxiosGet (URL article); generation prompt])
                   (CollectionAdd (col_name c) [] [] [] []) with
           | None => {| res_success := true; res_url := URL article; res_error := None |}
           | Some message =>
               {| res_success := false; res_url := URL article;
                  res_error := Some (ChromaError message) |}
           end).
Proof.
  intros Hc Hnone. cbv zeta. rewrite ingest_one_run. unfold outcome.
  destruct (prepared_store W article s) as (H1 & H2 & H3). cbv zeta in *.
  assert (Hdocs : fst (prepared W article s) = []).
  { unfold prepared. cbv zeta. cbn [fst]. now rewrite Hnone. }
  destruct (prepared W article s) as [documents s1]. cbn [fst snd] in *. subst documents.
  rewrite addDocuments_run, H1, Hc. cbv zeta. cbn [all_embedded].
  change (embedding_requests []) with (@nil Call). cbn [log_calls fold_left].
  change (add_request c []) with (CollectionAdd (col_name c) [] [] [] []).
  rewrite H3.
  destruct (chroma_fault W _ _); cbn [fst snd calls log_call set_chroma]; rewrite H3;
    rewrite <- app_assoc; now split.
Qed.

Lemma own_requests_unset l :
  Forall (own_request None) l ->
  length l = length (fetches l) + length (filter is_generation l)
  /\ Forall (fun call => (exists url, call = AxiosGet url)
                         \/ exists prompt,
                              call = GenerateContentStream (js "gemini-1.5-flash") prompt) l.
Proof.
  induction 1 as [|c l Hc _ [IH1 IH2]]; [split; [reflexivity|constructor]|].
  destruct Hc as [[url ->]|[[prompt ->]|[Habs _]]]; [| |now contradiction Habs].
  - cbn [fetches flat_map app filter is_generation length]. fold (fetches l).
    split; [lia|]. constructor; [left; now eexists|assumption].
  - cbn [fetches flat_map app filter is_generation generation length]. fold (fetches l).
    split; [lia|]. constructor; [right; now eexists|assumption].
Qed.

(** X21. [initDBfromCSV] called while the collection is not set does not
    fail fast: it returns one failure per article, each recording the error
    "Collection is not initialized", after it has sent the fetch and the
    generation request of every article; no embedding is asked for and
    nothing is sent to the index. *)
Theorem initDBfromCSV_before_initialization W csvFile articles s :
  collection s = None ->
  csv_rows W (calls s) csvFile = inr articles ->
  exists s',
    initDBfromCSV W csvFile s
    = (Ok (map (fun a => {| res_success := false; res_url := URL a;
                            res_error := Some (Error (js "Collection is not initialized")) |})
             articles), s')
    /\ collection s' = None
    /\ chroma s' = chroma s
    /\ exists l,
         calls s' = calls s ++ ReadCSV (js "./data/" ++ csvFile) :: l
         /\ length l = 2 * length articles
         /\ Forall (fun call => (exists url, call = AxiosGet url)
                                \/ exists prompt,
                                     call = GenerateContentStream (js "gemini-1.5-flash") prompt)
              l.
Proof.
  intros Hc Hcsv.
  destruct (run_end W csvFile s articles Hcsv) as (n & results & s' & _ & Hr & Hres & Hp).
  destruct Hp as (Hcol & Hdb & sent & Hcalls & Hf & Hg & Hown).
  rewrite Hc in Hcol, Hown. exists s'. split; [|split; [|split]].
  - rewrite Hr. f_equal. f_equal. clear - Hres Hc.
    induction Hres as [|a r articles results (h1 & h2 & u & h3 & h4 & _ & ->) _ IH];
      [reflexivity|].
    cbn [map]. rewrite IH, Hc. reflexivity.
  - exact Hcol.
  - now apply Hdb.
  - exists sent. split; [exact Hcalls|].
    destruct (own_requests_unset sent Hown) as [Hlen Hall]. split; [|exact Hall].
    rewrite Hlen, Hf, Hg, firstn_all, length_map. lia.
Qed.

Lemma documents_from_length W article scrapedArticle blocks : forall index n,
  length (documents_from W article scrapedArticle index n blocks) = length blocks.
Proof.
  induction blocks as [|chunk rest IH]; intros index n; [reflexivity|].
  cbn [documents_from length]. now rewrite IH.
Qed.

Lemma documents_from_lack W article scrapedArticle blocks : forall index n,
  filter lacks_embedding (documents_from W article scrapedArticle index n blocks)
  = documents_from W article scrapedArticle index n blocks.
Proof.
  induction blocks as [|chunk rest IH]; intros index n; [reflexivity|].
  cbn [documents_from filter]. unfold lacks_embedding at 1.
  cbn [chunk_document doc_embedding]. now rewrite IH.
Qed.

(** X23. The requests of one article, with the collection set: the fetch,
    one generation request, then one embedding request per chunk, one
    chunk per block the extractor returned, and at the end at most one
    write, which carries all chunks of the article; the write is missing
    only when an embedding failed, and the article is then recorded as a
    failure with that error. *)
Theorem ingest_one_requests W article s c :
  collection s = Some c ->
  let page := scraped W (calls s) (URL article) in
  let blocks := blocks_of W (calls s ++ [AxiosGet (URL article)]) (art_content page) in
  exists chunks tail,
    length chunks = length blocks
    /\ calls (snd (ingest_one W article s))
       = calls s
         ++ [AxiosGet (URL article);
             GenerateContentStream (js "gemini-1.5-flash") (cluster_prompt (art_content page))]
         ++ map (fun d => EmbedContent (js "embedding-001") (doc_content d)) chunks
         ++ tail
    /\ (tail = []
        /\ fst (ingest_one W article s)
           = Ok {| res_success := false; res_url := URL article;
                   res_error := Some (Error (js "Failed to generate embedding")) |}
        \/ exists embeddings,
             tail = [CollectionAdd (col_name c) (map doc_id chunks) embeddings
                       (map (fun d => metadata_or_empty (doc_metadata d)) chunks)
                       (map doc_content chunks)]
             /\ length embeddings = length chunks).
Proof.
  intros Hc. cbv zeta. rewrite ingest_one_run. unfold outcome.
  destruct (prepared_store W article s) as (H1 & H2 & H3). cbv zeta in *.
  assert (Hdocs : fst (prepared W article s)
                  = documents_from W article (scraped W (calls s) (URL article)) 0 (uuids s)
                      (blocks_of W (calls s ++ [AxiosGet (URL article)])
                         (art_content (scraped W (calls s) (URL article)))))
    by reflexivity.
  destruct (prepared W article s) as [documents s1]. cbn [fst snd] in *.
  exists documents.
  assert (Hreq : embedding_requests documents
                 = map (fun d => EmbedContent (js "embedding-001") (doc_content d)) documents).
  { unfold embedding_requests. rewrite Hdocs, documents_from_lack. apply map_map. }
  rewrite addDocuments_run, H1, Hc. cbv zeta.
  destruct (all_embedded W (calls s1) documents) as [eds|] eqn:E.
  - destruct (all_embedded_documents W documents _ _ E) as (Heds & _).
    exists [add_request c eds]. split; [rewrite Hdocs; apply documents_from_length|].
    split.
    + destruct (chroma_fault W _ _); cbn [snd calls log_call set_chroma];
        rewrite log_calls_calls, H3, Hreq, <- !app_assoc; reflexivity.
    + right. exists (map ed_embedding eds). split.
      * unfold add_request. rewrite <- Heds, !map_map. reflexivity.
      * rewrite <- Heds, !length_map. reflexivity.
  - exists []. split; [rewrite Hdocs; apply documents_from_length|].
    cbn [fst snd]. split.
    + rewrite log_calls_calls, H3, Hreq, app_nil_r, <- !app_assoc. reflexivity.
    + left. now split.
Qed.

(** ** index.ts: the handlers *)

Lemma search_run W query s :
  search W query s
  = (Ok (match fst (queryDocuments W query None s) with
         | Ok chunks => Some chunks
         | Throw _ => None
         end), snd (queryDocuments W query None s)).
Proof.
  unfold search, try_catch, bind, ret.
  destruct (queryDocuments W query None s) as [[chunks|e] s']; reflexivity.
Qed.

Lemma agent_run W query s :
  agent W query s
  = match answerContext W query s with
    | (Ok context, s1) =>
        (reply_of (generateContentStream W (calls s1) (js "gemini-1.5-flash")
                     (agent_prompt query context)),
         log_call (generation (agent_prompt query context)) s1)
    | (Throw _, s1) => (Ok (Failed []), s1)
    end.
Proof.
  unfold agent, bind.
  destruct (answerContext W query s) as [[context|e] s1]; [|reflexivity].
  unfold generateStreamingResponse, request, reply_of, generation.
  destruct (generateContentStream W _ _ _) as [[|chunk chunks] [|]]; reflexivity.
Qed.

(** X12. A dead link in the query of [/agent] is not reported: when the
    query contains a URL and the fetch fails, the model is still asked, with
    a prompt whose context is empty.  The client is sent what the model
    streams.  When the stream fails before its first chunk the client gets
    the status 500; when it fails after a chunk was written, the [catch]
    block itself throws, because the headers are sent, and the response is
    never ended. *)
Theorem agent_dead_link W query s :
  contains_url query ->
  (forall url, axios_get W (calls s) url = None) ->
  exists url,
    first_url query url
    /\ agent W query s
       = (match generateContentStream W (calls s ++ [AxiosGet url])
                  (js "gemini-1.5-flash") (agent_prompt query []) with
          | (chunks, true) => Ok (Streamed chunks)
          | ([], false) => Ok (Failed [])
          | (_ :: _, false) => Throw HeadersSentError
          end,
          log_call (GenerateContentStream (js "gemini-1.5-flash") (agent_prompt query []))
            (log_call (AxiosGet url) s)).
Proof.
  intros Hurl Hdown. rewrite agent_run. unfold answerContext.
  destruct (match_urlRegex query) as [urls|] eqn:E.
  - destruct (match_urlRegex_some _ _ E) as (url & rest & -> & Hfirst).
    exists url. split; [exact Hfirst|].
    unfold bind. rewrite scrapeArticle_run. unfold scraped. rewrite Hdown. reflexivity.
  - apply match_urlRegex_none in E. contradiction.
Qed.

(** X13. When the retrieval fails, for whatever reason, the handlers ask
    nothing more: [/search] sends no response at all, and [/agent], on a
    query without URL, answers with its error without asking the model;
    the requests sent are those of [queryDocuments]. *)
Theorem handlers_on_failed_retrieval W query s :
  (forall e,
     fst (queryDocuments W query None s) = Throw e ->
     search W query s = (Ok None, snd (queryDocuments W query None s)))
  /\ (forall e,
        ~ contains_url query ->
        fst (queryDocuments W query (Some 7%Z) s) = Throw e ->
        agent W query s = (Ok (Failed []), snd (queryDocuments W query (Some 7%Z) s))).
Proof.
  split.
  - intros e He. rewrite search_run, He. reflexivity.
  - intros e Hno He. apply match_urlRegex_none in Hno.
    rewrite agent_run. unfold answerContext. rewrite Hno. unfold bind.
    destruct (queryDocuments W query (Some 7%Z) s) as [[chunks|e'] s']; [discriminate|].
    reflexivity.
Qed.

(** X24. Start-up followed by a search: after a successful [main] on a
    fresh process, [/search] embeds the query and asks the collection
    [test_rag] for 5 neighbours; with the two requests of the start-up
    these are all the requests the process has sent. *)
Theorem search_after_main W db s1 query queryEmbedding :
  main W (fresh db) = (Ok tt, s1) ->
  embedContent W (calls s1) (js "embedding-001") query = Some queryEmbedding ->
  calls (snd (search W query s1))
  = [GetOrCreateCollection (js "test_rag") [(js "hnsw:space", MStr (js "cosine"))];
     CountCollections;
     EmbedContent (js "embedding-001") query;
     CollectionQuery (js "test_rag") [queryEmbedding] 5%Z
       [js "documents"; js "metadatas"; js "embeddings"]].
Proof.
  unfold main. rewrite initializeCollection_run. cbv zeta.
  destruct (chroma_fault W _ (GetOrCreateCollection _ _)); [discriminate|].
  pose proof (get_or_create_name (js "test_rag") cosine_space (chroma (fresh db))) as Hname.
  destruct (get_or_create (js "test_rag") cosine_space (chroma (fresh db))) as [c db'].
  cbn [fst] in Hname.
  destruct (chroma_fault W _ CountCollections); [discriminate|].
  intros H Hemb. injection H as <-.
  rewrite search_run, queryDocuments_run. cbv zeta.
  cbn [collection log_call set_collection set_chroma] in *.
  rewrite Hemb. unfold query_request. rewrite Hname.
  destruct (chroma_fault W _ _); reflexivity.
Qed.

(** ** vectorDB.ts: the ids of the chunks of an article *)

Lemma js_injective a : forall b, js a = js b -> a = b.
Proof.
  unfold js. induction a as [|x a IH]; intros [|y b] H; try discriminate; [reflexivity|].
  cbn [list_ascii_of_string map] in H. injection H as Hx Hrest.
  f_equal; [|now apply IH].
  now rewrite <- (ascii_N_embedding x), Hx, ascii_N_embedding.
Qed.

Lemma ofNat_injective i j : ofNat i = ofNat j -> i = j.
Proof.
  unfold ofNat. intros H. apply js_injective in H.
  assert (Hu : Some (Nat.to_uint i) = Some (Nat.to_uint j))
    by now rewrite <- !NilEmpty.usu, H.
  injection Hu as Hu.
  now rewrite <- (DecimalNat.Unsigned.of_to i), Hu, DecimalNat.Unsigned.of_to.
Qed.

Lemma digits_no_dash d : ~ In 45%N (js (NilEmpty.string_of_uint d)).
Proof.
  induction d; cbn; [tauto|..]; (intros [H|H]; [discriminate|now apply IHd]).
Qed.

Lemma ofNat_no_dash i : ~ In 45%N (ofNat i).
Proof. apply digits_no_dash. Qed.

(** Two strings that agree after their last dash. *)
Lemma after_last_dash : forall x y p q : str,
  ~ In 45%N x -> ~ In 45%N y -> x ++ 45%N :: p = y ++ 45%N :: q -> x = y.
Proof.
  induction x as [|c x IH]; intros [|c' y] p q Hx Hy H; cbn [app] in H.
  - reflexivity.
  - injection H as Hc _. exfalso. apply Hy. left. now symmetry.
  - injection H as Hc _. exfalso. apply Hx. now left.
  - injection H as -> H. f_equal. apply (IH y p q); auto.
    + intros Hin. apply Hx. now right.
    + intros Hin. apply Hy. now right.
Qed.

Lemma id_index url u1 u2 i j :
  url ++ js "-" ++ u1 ++ js "-" ++ ofNat i = url ++ js "-" ++ u2 ++ js "-" ++ ofNat j ->
  i = j.
Proof.
  intros H. apply ofNat_injective. apply (f_equal (@rev N)) in H.
  change (js "-") with [45%N] in H.
  rewrite !rev_app_distr in H. cbn [rev app] in H. rewrite <- !app_assoc in H.
  cbn [app] in H.
  apply after_last_dash in H.
  - now rewrite <- (rev_involutive (ofNat i)), H, rev_involutive.
  - rewrite <- in_rev. apply ofNat_no_dash.
  - rewrite <- in_rev. apply ofNat_no_dash.
Qed.

Lemma documents_from_indices W article scrapedArticle blocks : forall index n,
  Forall (fun d => exists uuid i,
                     index <= i
                     /\ doc_id d = URL article ++ js "-" ++ uuid ++ js "-" ++ ofNat i)
         (documents_from W article scrapedArticle index n blocks).
Proof.
  induction blocks as [|chunk rest IH]; intros index n; [constructor|].
  cbn [documents_from]. constructor.
  - exists (uuidv4 W n), index. now split.
  - eapply Forall_impl; [|apply (IH (S index) (S n))].
    intros d (uuid & i & Hi & Hid). exists uuid, i. split; [lia|exact Hid].
Qed.

Lemma documents_from_distinct W article scrapedArticle blocks : forall index n,
  NoDup (map doc_id (documents_from W article scrapedArticle index n blocks)).
Proof.
  induction blocks as [|chunk rest IH]; intros index n; [constructor|].
  cbn [documents_from map]. constructor; [|apply IH].
  intros Hin. apply in_map_iff in Hin as (d & Hid & Hd).
  pose proof (documents_from_indices W article scrapedArticle rest (S index) (S n)) as Hall.
  rewrite Forall_forall in Hall. destruct (Hall d Hd) as (uuid & i & Hi & Hid').
  rewrite Hid' in Hid. cbn [chunk_document doc_id] in Hid.
  apply id_index in Hid. lia.
Qed.

(** X22. The chunks built for one article have pairwise distinct ids,
    whatever [uuidv4] returns, even the same value every time: the index of
    the chunk, which ends the id after its last dash, tells them apart.
    There is one chunk per block, and none comes with an embedding. *)
Theorem chunk_ids_distinct W article scrapedArticle splitedArticle s :
  exists chunks,
    fst (chunks_from W article scrapedArticle 0 splitedArticle s) = Ok chunks
    /\ length chunks = length splitedArticle
    /\ NoDup (map doc_id chunks)
    /\ Forall (fun d => doc_embedding d = None) chunks.
Proof.
  rewrite chunks_from_run. eexists. split; [reflexivity|]. split; [|split].
  - generalize 0 (uuids s). induction splitedArticle as [|chunk rest IH]; intros index n.
    + reflexivity.
    + cbn [documents_from length]. now rewrite IH.
  - apply documents_from_distinct.
  - generalize 0 (uuids s). induction splitedArticle as [|chunk rest IH]; intros index n.
    + constructor.
    + cbn [documents_from]. constructor; [reflexivity|apply IH].
Qed.

(** ** The further properties at concrete inputs *)

Lemma scrape_page_drops_items_without_ul_witness :
  art_content (scrape_page (js "https://example.com/steps") ordered_list_page)
  = join (nl ++ nl) [js "## Steps"; js "Done."].
Proof.
  apply (scrape_page_drops_items_without_ul (js "https://example.com/steps")
           ordered_list_page).
  reflexivity.
Defined.

Lemma scrape_page_list_never_closes_witness :
  art_content (scrape_page (js "https://example.com/lists") two_lists_page)
  = join (nl ++ nl)
      [js "Intro"; []; js "- a"; js "- b"; js "Middle"; js "- from an ordered list";
       js "- c"].
Proof.
  apply (scrape_page_list_never_closes (js "https://example.com/lists") two_lists_page
           [(P, js "Intro")] (js "a b")
           [(LI, js "a"); (LI, js "b"); (P, js "Middle"); (LI, js "from an ordered list");
            (UL, js "c"); (LI, js "c")]); reflexivity.
Defined.

Lemma getClusteredText_accepts_fenced_answer_witness :
  getClusteredText fenced_answer (js "Some article.") ready
  = (Ok [JObj [(js "heading", JStr (js "News")); (js "content", JStr long_content)]],
     log_call (generation (cluster_prompt (js "Some article."))) ready).
Proof.
  apply (getClusteredText_accepts_fenced_answer fenced_answer (js "Some article.") ready
           [js "```json"; nl ++ answer_text ++ nl; js "```"] (nl ++ answer_text ++ nl));
    try reflexivity.
  constructor; [|constructor].
  exists [(js "heading", JStr (js "News")); (js "content", JStr long_content)],
    (js "News"), long_content.
  split; [reflexivity|]. split; [reflexivity|]. split; [reflexivity|].
  unfold long_content. rewrite repeat_length. lia.
Defined.

Lemma getClusteredText_discards_partly_valid_answer_witness :
  getClusteredText half_valid (js "Some article.") ready
  = (Ok [], log_call (generation (cluster_prompt (js "Some article."))) ready).
Proof.
  apply (getClusteredText_discards_partly_valid_answer half_valid (js "Some article.") ready
           [answer_text]
           [JObj [(js "heading", JStr (js "News")); (js "content", JStr long_content)];
            short_block]); try reflexivity.
  apply Exists_cons_tl, Exists_cons_hd.
  intros (fields & h & c & E & _ & Hc & Hlen). injection E as <-.
  vm_compute in Hc. injection Hc as <-. vm_compute in Hlen. lia.
Defined.

Lemma getClusteredText_broken_stream_witness :
  generateResponse stream_breaks (cluster_prompt (js "Some article.")) ready
  = (Throw generation_failed,
     log_call (GenerateContentStream (js "gemini-1.5-flash")
                 (cluster_prompt (js "Some article."))) ready)
  /\ getClusteredText stream_breaks (js "Some article.") ready
     = (Ok [], log_call (GenerateContentStream (js "gemini-1.5-flash")
                           (cluster_prompt (js "Some article."))) ready).
Proof.
  apply (getClusteredText_broken_stream stream_breaks (js "Some article.") ready
           [answer_text]).
  reflexivity.
Defined.

Lemma agent_dead_link_witness :
  (exists url,
     first_url (js "summarize https://example.com/a") url
     /\ agent fetch_down (js "summarize https://example.com/a") ready
        = (Ok (Streamed [answer_text]),
           log_call (GenerateContentStream (js "gemini-1.5-flash")
                       (agent_prompt (js "summarize https://example.com/a") []))
             (log_call (AxiosGet url) ready)))
  /\ (exists url,
        first_url (js "summarize https://example.com/a") url
        /\ agent dead_link_broken_stream (js "summarize https://example.com/a") ready
           = (Throw HeadersSentError,
              log_call (GenerateContentStream (js "gemini-1.5-flash")
                          (agent_prompt (js "summarize https://example.com/a") []))
                (log_call (AxiosGet url) ready))).
Proof.
  assert (Hurl : contains_url (js "summarize https://example.com/a")).
  { exists (js "summarize "), (js "https://example.com/a"), []. split; [reflexivity|].
    exists (js "https://"), (js "example.com/a").
    split; [now right|]. split; [reflexivity|]. split; [discriminate|].
    repeat (constructor; [reflexivity|]). constructor. }
  split.
  - apply (agent_dead_link fetch_down (js "summarize https://example.com/a") ready Hurl).
    reflexivity.
  - apply (agent_dead_link dead_link_broken_stream (js "summarize https://example.com/a")
             ready Hurl).
    reflexivity.
Defined.

Lemma handlers_on_failed_retrieval_witness :
  search all_well (js "what happened in city X") (fresh []) = (Ok None, fresh [])
  /\ agent all_well (js "what happened in city X") (fresh []) = (Ok (Failed []), fresh []).
Proof.
  destruct (handlers_on_failed_retrieval all_well (js "what happened in city X") (fresh []))
    as [Hsearch Hagent].
  split.
  - apply (Hsearch not_initialized). reflexivity.
  - apply (Hagent not_initialized); [|reflexivity].
    apply match_urlRegex_none. reflexivity.
Defined.

Lemma addDocuments_write_aligned_witness :
  exists embeddings,
    calls (snd (addDocuments all_well [embedded_document; plain_document] ready))
    = calls ready ++ embedding_requests [embedded_document; plain_document]
      ++ [CollectionAdd (js "test_rag") [js "a-2"; js "a-1"] embeddings [[]; []]
            [js "text two"; js "text one"]]
    /\ length embeddings = 2
    /\ forall i d,
         nth_error [embedded_document; plain_document] i = Some d ->
         exists e,
           nth_error embeddings i = Some e
           /\ match doc_embedding d with
              | Some given => e = given
              | None =>
                  embedContent all_well
                    (calls ready
                     ++ embedding_requests (firstn i [embedded_document; plain_document]))
                    (js "embedding-001") (doc_content d) = Some e
              end.
Proof.
  apply (addDocuments_write_aligned all_well [embedded_document; plain_document] ready
           test_rag); reflexivity.
Defined.

Lemma addDocuments_embeds_every_document_witness :
  fst (addDocuments embedding_down [plain_document; embedded_document; plain_document] ready)
  = Throw (Error (js "Failed to generate embedding"))
  /\ calls (snd (addDocuments embedding_down
                   [plain_document; embedded_document; plain_document] ready))
     = [EmbedContent (js "embedding-001") (js "text one");
        EmbedContent (js "embedding-001") (js "text one")].
Proof.
  apply (addDocuments_embeds_every_document embedding_down
           [plain_document; embedded_document; plain_document] ready test_rag).
  - reflexivity.
  - exists [], plain_document, [embedded_document; plain_document].
    split; [reflexivity|]. split; reflexivity.
Defined.

Lemma ingest_one_without_blocks_witness :
  calls (snd (ingest_one stream_breaks article_a ready))
  = [AxiosGet (js "https://example.com/a");
     generation (cluster_prompt (art_content (scrape_page (js "https://example.com/a") page_a)));
     CollectionAdd (js "test_rag") [] [] [] []]
  /\ fst (ingest_one stream_breaks article_a ready)
     = Ok {| res_success := true; res_url := js "https://example.com/a"; res_error := None |}.
Proof.
  apply (ingest_one_without_blocks stream_breaks article_a ready test_rag); reflexivity.
Defined.

Lemma update_and_delete_requests_witness :
  calls (snd (updateDocument all_well plain_document ready))
  = [CollectionUpdate (js "test_rag") [js "a-1"] [None] [[]] [js "text one"]]
  /\ calls (snd (deleteDocuments all_well [js "a-1"] ready))
     = [CollectionDelete (js "test_rag") [js "a-1"]].
Proof.
  destruct (update_and_delete_requests all_well ready test_rag eq_refl) as [Hu Hd].
  split; [apply (Hu plain_document) | apply (Hd [js "a-1"])].
Defined.

Lemma initDBfromCSV_before_initialization_witness :
  exists s',
    initDBfromCSV all_well Server.csvFile (fresh [])
    = (Ok [{| res_success := false; res_url := js "https://example.com/a";
              res_error := Some (Error (js "Collection is not initialized")) |}], s')
    /\ collection s' = None
    /\ chroma s' = []
    /\ exists l,
         calls s' = ReadCSV (js "./data/articles_dataset.csv") :: l
         /\ length l = 2
         /\ Forall (fun call => (exists url, call = AxiosGet url)
                                \/ exists prompt,
                                     call = GenerateContentStream (js "gemini-1.5-flash") prompt)
              l.
Proof.
  apply (initDBfromCSV_before_initialization all_well Server.csvFile [article_a] (fresh []));
    reflexivity.
Defined.

Lemma ingest_one_requests_witness :
  exists chunks tail,
    length chunks = 1
    /\ calls (snd (ingest_one all_well article_a ready))
       = [AxiosGet (js "https://example.com/a");
          GenerateContentStream (js "gemini-1.5-flash")
            (cluster_prompt (art_content (scrape_page (js "https://example.com/a") page_a)))]
         ++ map (fun d => EmbedContent (js "embedding-001") (doc_content d)) chunks
         ++ tail
    /\ (tail = []
        /\ fst (ingest_one all_well article_a ready)
           = Ok {| res_success := false; res_url := js "https://example.com/a";
                   res_error := Some (Error (js "Failed to generate embedding")) |}
        \/ exists embeddings,
             tail = [CollectionAdd (js "test_rag") (map doc_id chunks) embeddings
                       (map (fun d => metadata_or_empty (doc_metadata d)) chunks)
                       (map doc_content chunks)]
             /\ length embeddings = length chunks).
Proof.
  apply (ingest_one_requests all_well article_a ready test_rag). reflexivity.
Defined.

Lemma search_after_main_witness :
  main all_well (fresh []) = (Ok tt, after_main)
  /\ calls (snd (search all_well (js "what happened in city X") after_main))
     = [GetOrCreateCollection (js "test_rag") [(js "hnsw:space", MStr (js "cosine"))];
        CountCollections;
        EmbedContent (js "embedding-001") (js "what happened in city X");
        CollectionQuery (js "test_rag") [[1; 2; 3]%Z] 5%Z
          [js "documents"; js "metadatas"; js "embeddings"]].
Proof.
  split; [reflexivity|].
  apply (search_after_main all_well [] after_main (js "what happened in city X") [1; 2; 3]%Z);
    reflexivity.
Defined.

Lemma every_article_once_witness :
  exists sent,
    calls (snd (initDBfromCSV one_article_fails Server.csvFile ready))
    = calls ready ++ ReadCSV (js "./data/" ++ Server.csvFile) :: sent
    /\ fetches sent = map URL six_articles
    /\ length (filter is_generation sent) = 6
    /\ Forall (own_request (Some test_rag)) sent.
Proof.
  apply (every_article_once one_article_fails Server.csvFile six_articles ready).
  reflexivity.
Defined.
